(** * CallMe: a shallow embedding of the voice-call bridge

    The development follows the TypeScript sources file by file:

    - [Billing]      server/src/billing.ts
    - [TtsOpenAI]    server/src/providers/tts-openai.ts
    - [SttDeepgram]  server/src/providers/stt-deepgram.ts
    - [IndexSse]     server/src/index-sse.ts
    - [PhoneCall]    mcp-server/src/phone-call.ts

    Asynchronous code is embedded as an event-driven transition function:
    every callback the event loop may run (a socket event, a timer, a
    call of a public method) is an input, and what the callback does to
    the outside world is recorded as a list of actions. *)

From Stdlib Require Import ZArith List String Ascii Bool Lia.
From Stdlib Require Import Strings.Byte.
Import ListNotations.

Local Open Scope Z_scope.

(* ===================================================================== *)
(** * JavaScript values used by the sources *)
(* ===================================================================== *)

Module Js.

Local Open Scope string_scope.

(** Strings are sequences of code units; the embedding keeps the code
    units below 256, one [ascii] each. *)

(** Code units that [String.prototype.trim] removes (WhiteSpace and
    LineTerminator) among the first 256: TAB, LF, VT, FF, CR, SP, NBSP. *)
Definition is_white (c : ascii) : bool :=
  let n := nat_of_ascii c in
  (Nat.eqb n 9 || Nat.eqb n 10 || Nat.eqb n 11 || Nat.eqb n 12
   || Nat.eqb n 13 || Nat.eqb n 32 || Nat.eqb n 160)%bool.

Fixpoint trimStart (s : string) : string :=
  match s with
  | EmptyString => EmptyString
  | String c r => if is_white c then trimStart r else s
  end.

Fixpoint trimEnd (s : string) : string :=
  match s with
  | EmptyString => EmptyString
  | String c r =>
      match trimEnd r with
      | EmptyString => if is_white c then EmptyString else String c EmptyString
      | r' => String c r'
      end
  end.

Definition trim (s : string) : string := trimEnd (trimStart s).

(** Truthiness of a string: the empty string is the only falsy one. *)
Definition truthy (s : string) : bool :=
  match s with EmptyString => false | _ => true end.

(** [a || b] on strings. *)
Definition or_else (a b : string) : string := if truthy a then a else b.

(** [Array.prototype.join]. *)
Fixpoint join (sep : string) (l : list string) : string :=
  match l with
  | [] => ""
  | [x] => x
  | x :: r => x ++ sep ++ join sep r
  end.

(** [String.prototype.includes]. *)
Fixpoint includes (s needle : string) : bool :=
  (String.prefix needle s ||
   match s with
   | EmptyString => false
   | String _ r => includes r needle
   end)%bool.

Definition lower_char (c : ascii) : ascii :=
  let n := nat_of_ascii c in
  if (Nat.leb 65 n && Nat.leb n 90)%bool then ascii_of_nat (n + 32) else c.

(** [String.prototype.toLowerCase] on the letters A-Z. *)
Fixpoint toLowerCase (s : string) : string :=
  match s with
  | EmptyString => EmptyString
  | String c r => String (lower_char c) (toLowerCase r)
  end.

Definition LF : string := String (ascii_of_nat 10) EmptyString.

Lemma truthy_false_iff (s : string) : truthy s = false <-> s = "".
Proof. destruct s; simpl; split; congruence. Qed.

Lemma append_empty_r (s : string) : s ++ "" = s.
Proof. induction s as [|c s IH]; simpl; [reflexivity | now rewrite IH]. Qed.

Lemma append_assoc (a b c : string) : (a ++ b) ++ c = a ++ (b ++ c).
Proof. induction a as [|x a IH]; simpl; [reflexivity | now rewrite IH]. Qed.

Lemma append_eq_empty (a b : string) : a ++ b = "" -> a = "" /\ b = "".
Proof. destruct a; simpl; [auto | discriminate]. Qed.

End Js.

(* ===================================================================== *)
(** * server/src/billing.ts *)
(* ===================================================================== *)

Module Billing.

(** The numbers this module handles are integers, or NaN when
    [parseInt] could not read the environment variable. *)
Inductive num : Type :=
| Int (z : Z)
| NaN.

Record SubscriptionPlan : Type := {
  monthlyPriceCents : num;
  monthlyMinutes : num
}.

(** The module-level [plan] before [loadBillingConfig] runs. *)
Definition default_plan : SubscriptionPlan :=
  {| monthlyPriceCents := Int 2000; monthlyMinutes := Int 60 |}.

Definition sub (a b : num) : num :=
  match a, b with
  | Int x, Int y => Int (x - y)
  | _, _ => NaN
  end.

(** [Math.max]: NaN as soon as one argument is NaN. *)
Definition Math_max (a b : num) : num :=
  match a, b with
  | Int x, Int y => Int (Z.max x y)
  | _, _ => NaN
  end.

(** [a < b]: false as soon as one side is NaN. *)
Definition lt (a b : num) : bool :=
  match a, b with
  | Int x, Int y => x <? y
  | _, _ => false
  end.

Definition getMonthlyMinutes (plan : SubscriptionPlan) : num :=
  monthlyMinutes plan.

Definition getMinutesRemaining (plan : SubscriptionPlan) (minutesUsed : num) : num :=
  Math_max (Int 0) (sub (monthlyMinutes plan) minutesUsed).

Definition hasMinutesRemaining (plan : SubscriptionPlan) (minutesUsed : num) : bool :=
  lt minutesUsed (monthlyMinutes plan).

Example remaining_default_45 :
  getMinutesRemaining default_plan (Int 45) = Int 15.
Proof. reflexivity. Qed.

Example remaining_default_75 :
  getMinutesRemaining default_plan (Int 75) = Int 0
  /\ hasMinutesRemaining default_plan (Int 75) = false.
Proof. split; reflexivity. Qed.

(** C10. For every plan and every integer [minutesUsed], the remaining
    minutes are never negative, and [hasMinutesRemaining] is true exactly
    when [getMinutesRemaining] is greater than zero.  The plan is
    arbitrary: its [monthlyMinutes] may be any integer or NaN. *)
Theorem minutes_remaining_nonneg_and_has_iff_positive :
  forall (plan : SubscriptionPlan) (minutesUsed : Z),
    lt (getMinutesRemaining plan (Int minutesUsed)) (Int 0) = false
    /\ hasMinutesRemaining plan (Int minutesUsed)
       = lt (Int 0) (getMinutesRemaining plan (Int minutesUsed)).
Proof.
  intros [price [m|]] u; unfold getMinutesRemaining, hasMinutesRemaining; simpl.
  - split.
    + apply Z.ltb_ge. apply Z.le_max_l.
    + destruct (Z.ltb_spec u m) as [Hlt|Hge]; symmetry.
      * apply Z.ltb_lt. lia.
      * apply Z.ltb_ge. lia.
  - split; reflexivity.
Qed.

End Billing.

(* ===================================================================== *)
(** * server/src/providers/tts-openai.ts *)
(* ===================================================================== *)

Module TtsOpenAI.

(** A Node [Buffer]: a sequence of bytes. *)
Definition Buffer : Type := list byte.

Definition byteAt (buffer : Buffer) (offset : nat) : Z :=
  Z.of_N (Byte.to_N (nth offset buffer x00)).

(** [buffer.readUInt16LE(offset)] and [buffer.readUInt32LE(offset)], for
    offsets inside the buffer (the only ones [synthesize] reads). *)
Definition readUInt16LE (buffer : Buffer) (offset : nat) : Z :=
  byteAt buffer offset + 256 * byteAt buffer (offset + 1).

Definition readUInt32LE (buffer : Buffer) (offset : nat) : Z :=
  byteAt buffer offset
  + 256 * byteAt buffer (offset + 1)
  + 65536 * byteAt buffer (offset + 2)
  + 16777216 * byteAt buffer (offset + 3).

(** [buffer.subarray(start)]. *)
Definition subarray (buffer : Buffer) (start : nat) : Buffer := skipn start buffer.

Record TTSConfig : Type := {
  apiKey : string;
  apiUrl : option string;
  cfg_voice : option string;
  cfg_model : option string;
  sampleRate : option Z
}.

Record OpenAITTSProvider : Type := {
  _name : string;
  _sampleRate : Z;
  client : bool;          (* [true] once the OpenAI client is constructed *)
  voice : string;
  model : string
}.

(** The field initialisers of the class. *)
Definition new_provider : OpenAITTSProvider :=
  {| _name := "openai"; _sampleRate := 24000; client := false;
     voice := "onyx"; model := "tts-1" |}.

(** [x || d] for an optional string and for an optional number. *)
Definition string_or (x : option string) (d : string) : string :=
  match x with
  | Some s => Js.or_else s d
  | None => d
  end.

Definition number_or (x : option Z) (d : Z) : Z :=
  match x with
  | Some n => if (n =? 0)%Z then d else n
  | None => d
  end.

(** [initialize]: [None] when it throws. *)
Definition initialize (p : OpenAITTSProvider) (config : TTSConfig)
  : option OpenAITTSProvider :=
  if negb (Js.truthy (apiKey config)) then None
  else
    let lemonfox :=
      match apiUrl config with
      | Some baseURL => Js.includes baseURL "lemonfox"
      | None => false
      end in
    Some {| _name := if lemonfox then "lemonfox"%string else _name p;
            _sampleRate := number_or (sampleRate config) 24000;
            client := true;
            voice := string_or (cfg_voice config) "onyx";
            model := string_or (cfg_model config) "tts-1" |}.

Definition useWav (p : OpenAITTSProvider) : bool := (_name p =? "lemonfox")%string.

(** The [response_format] that [synthesize] asks for. *)
Definition response_format (p : OpenAITTSProvider) : string :=
  if useWav p then "wav"%string else "pcm"%string.

Definition set_sampleRate (p : OpenAITTSProvider) (r : Z) : OpenAITTSProvider :=
  {| _name := _name p; _sampleRate := r; client := client p;
     voice := voice p; model := model p |}.

Inductive result : Type :=
| Throws (message : string)
| Returns (p : OpenAITTSProvider) (buffer : Buffer).

(** [synthesize], from the bytes of the HTTP response on: [response] is
    what [response.arrayBuffer()] holds.  The channel count and the bit
    depth are read for the log line only. *)
Definition synthesize (p : OpenAITTSProvider) (response : Buffer) : result :=
  if negb (client p) then Throws "OpenAI TTS not initialized"%string
  else
    let buffer := response in
    if (useWav p && Nat.ltb 44 (List.length buffer))%bool then
      let numChannels := readUInt16LE buffer 22 in
      let detectedSampleRate := readUInt32LE buffer 24 in
      let bitsPerSample := readUInt16LE buffer 34 in
      let p' := if negb (detectedSampleRate =? _sampleRate p)%Z
                then set_sampleRate p detectedSampleRate else p in
      Returns p' (subarray buffer 44)
    else Returns p buffer.

(** ** What the specification asks of a WAV parser *)

Definition starts_with_data (buffer : Buffer) : bool :=
  match buffer with
  | b0 :: b1 :: b2 :: b3 :: _ =>
      (Byte.eqb b0 "d"%byte && Byte.eqb b1 "a"%byte
       && Byte.eqb b2 "t"%byte && Byte.eqb b3 "a"%byte)%bool
  | _ => false
  end.

(** Following the specification's words ("scan for the data FourCC"):
    the offset of the first [data] FourCC at or after [offset]. *)
Fixpoint spec_scan_data (buffer : Buffer) (offset : nat) : option nat :=
  match buffer with
  | [] => None
  | _ :: rest =>
      if starts_with_data buffer then Some offset
      else spec_scan_data rest (S offset)
  end.

(** Following the specification's words: the PCM payload is what follows
    the 8-byte header of the [data] chunk, up to the size it declares. *)
Definition spec_wav_payload (buffer : Buffer) : option Buffer :=
  match spec_scan_data buffer 0 with
  | Some off =>
      Some (firstn (Z.to_nat (readUInt32LE buffer (off + 4))) (skipn (off + 8) buffer))
  | None => None
  end.

Definition byte_of_Z (z : Z) : byte :=
  match Byte.of_N (Z.to_N (z mod 256)) with
  | Some b => b
  | None => x00
  end.

Definition u16le (z : Z) : Buffer := [byte_of_Z z; byte_of_Z (z / 256)].

Definition u32le (z : Z) : Buffer :=
  [byte_of_Z z; byte_of_Z (z / 256); byte_of_Z (z / 65536); byte_of_Z (z / 16777216)].

(** Signed reading of a 16-bit sample. *)
Definition int16 (u : Z) : Z := if (u <? 32768)%Z then u else u - 65536.

Fixpoint samples16 (pcm : Buffer) : list Z :=
  match pcm with
  | lo :: hi :: rest =>
      int16 (Z.of_N (Byte.to_N lo) + 256 * Z.of_N (Byte.to_N hi)) :: samples16 rest
  | _ => []
  end.

Fixpoint frames (fuel channels : nat) (samples : list Z) : list (list Z) :=
  match fuel, samples with
  | S fuel', _ :: _ => firstn channels samples :: frames fuel' channels (skipn channels samples)
  | _, _ => []
  end.

(** Following the specification's words ("downmix by averaging to mono"):
    one 16-bit sample per frame, the mean of the frame's channels. *)
Definition spec_downmix_mono (channels : nat) (pcm : Buffer) : Buffer :=
  let samples := samples16 pcm in
  flat_map (fun frame => u16le (fold_right Z.add 0 frame / Z.of_nat channels))
           (frames (List.length samples) channels samples).

(** ** Concrete WAV files *)

Definition ascii_bytes (s : string) : Buffer := list_byte_of_string s.

(** RIFF header and 16-byte [fmt ] chunk: 36 bytes. *)
Definition wav_fmt (riffSize channels rate bits : Z) : Buffer :=
  ascii_bytes "RIFF" ++ u32le riffSize ++ ascii_bytes "WAVE"
  ++ ascii_bytes "fmt " ++ u32le 16 ++ u16le 1 ++ u16le channels
  ++ u32le rate ++ u32le (rate * channels * (bits / 8))
  ++ u16le (channels * (bits / 8)) ++ u16le bits.

Definition data_chunk (pcm : Buffer) : Buffer :=
  ascii_bytes "data" ++ u32le (Z.of_nat (List.length pcm)) ++ pcm.

(** The canonical layout: the payload begins at offset 44. *)
Definition wav44 (channels rate : Z) (pcm : Buffer) : Buffer :=
  wav_fmt (36 + Z.of_nat (List.length pcm)) channels rate 16 ++ data_chunk pcm.

(** A 26-byte [LIST] chunk between [fmt ] and [data], as encoders that
    tag their output write it: the payload begins at offset 78. *)
Definition list_chunk : Buffer :=
  ascii_bytes "LIST" ++ u32le 26 ++ ascii_bytes "INFOISFT" ++ u32le 14
  ++ ascii_bytes "Lavf58.29.100" ++ [x00].

Definition wav78 (channels rate : Z) (pcm : Buffer) : Buffer :=
  wav_fmt (70 + Z.of_nat (List.length pcm)) channels rate 16 ++ list_chunk ++ data_chunk pcm.

Definition lemonfox : OpenAITTSProvider :=
  {| _name := "lemonfox"; _sampleRate := 24000; client := true;
     voice := "onyx"; model := "tts-1" |}.

(** Two mono samples, 1000 and 3000. *)
Definition pcm_mono : Buffer := u16le 1000 ++ u16le 3000.

(** One stereo frame: left 1000, right 3000. *)
Definition pcm_stereo : Buffer := u16le 1000 ++ u16le 3000.

(** ** Properties of [synthesize] *)

Lemma set_sampleRate_same (p : OpenAITTSProvider) :
  set_sampleRate p (_sampleRate p) = p.
Proof. destruct p; reflexivity. Qed.

(** Whatever the header holds, a WAV response longer than 44 bytes
    loses its first 44 bytes and the provider takes the rate at offset 24. *)
Lemma synthesize_wav (p : OpenAITTSProvider) (response : Buffer) :
  client p = true -> useWav p = true -> (44 < List.length response)%nat ->
  synthesize p response
  = Returns (set_sampleRate p (readUInt32LE response 24)) (skipn 44 response).
Proof.
  intros Hc Hw Hlen. unfold synthesize, subarray. rewrite Hc, Hw. simpl negb.
  apply Nat.ltb_lt in Hlen. rewrite Hlen. simpl andb. cbv iota.
  destruct (Z.eqb_spec (readUInt32LE response 24) (_sampleRate p)) as [E|E]; simpl.
  - rewrite E, set_sampleRate_same. reflexivity.
  - reflexivity.
Qed.

Lemma firstn_all_le {A : Type} (n : nat) (l : list A) :
  (List.length l <= n)%nat -> firstn n l = l.
Proof.
  revert n; induction l as [|x l IH]; intros [|n] H; simpl in *;
    try reflexivity; try lia.
  f_equal. apply IH. lia.
Qed.

Example synthesize_not_initialized :
  synthesize new_provider pcm_mono = Throws "OpenAI TTS not initialized".
Proof. reflexivity. Qed.

(** A provider that is not LemonFox asks for raw PCM and returns the
    response as it is. *)
Definition openai : OpenAITTSProvider :=
  {| _name := "openai"; _sampleRate := 24000; client := true;
     voice := "onyx"; model := "tts-1" |}.

Example initialize_openai :
  initialize new_provider
    {| apiKey := "k"; apiUrl := None; cfg_voice := None; cfg_model := None;
       sampleRate := None |}
  = Some openai.
Proof. vm_compute. reflexivity. Qed.

Example synthesize_openai_passthrough :
  response_format openai = "pcm"%string
  /\ synthesize openai pcm_mono = Returns openai pcm_mono.
Proof. split; reflexivity. Qed.

Example initialize_lemonfox :
  initialize new_provider
    {| apiKey := "k"; apiUrl := Some "https://api.lemonfox.ai/v1"%string;
       cfg_voice := Some "sarah"%string; cfg_model := None; sampleRate := Some 0 |}
  = Some {| _name := "lemonfox"; _sampleRate := 24000; client := true;
            voice := "sarah"; model := "tts-1" |}.
Proof. vm_compute. reflexivity. Qed.

(** C3, as the specification states it, fails: for the WAV whose [data]
    chunk payload begins at offset 78 the parser of the specification
    finds the two samples, while [synthesize] returns the 38 bytes that
    follow offset 44: the rest of the [LIST] chunk, the [data] chunk
    header and only then the samples. *)
Lemma synthesize_wav78_returns_header_bytes :
  spec_scan_data (wav78 1 22050 pcm_mono) 0 = Some 70%nat
  /\ spec_wav_payload (wav78 1 22050 pcm_mono) = Some pcm_mono
  /\ synthesize lemonfox (wav78 1 22050 pcm_mono)
     = Returns (set_sampleRate lemonfox 22050) (skipn 44 (wav78 1 22050 pcm_mono))
  /\ List.length (skipn 44 (wav78 1 22050 pcm_mono)) = 38%nat
  /\ skipn 44 (wav78 1 22050 pcm_mono) <> pcm_mono.
Proof.
  repeat split; try (vm_compute; reflexivity).
  vm_compute. discriminate.
Qed.

(** C3, amended.  For every WAV-formatted response longer than 44 bytes,
    [synthesize] stores the sample rate read at header offset 24 in the
    provider and returns the bytes from offset 44 on, with no scan for
    the [data] FourCC; this is the PCM payload when the [data] FourCC is
    at offset 36 (the payload begins at offset 44) and the chunk's
    declared size covers the rest of the response. *)
Theorem synthesize_wav_strips_fixed_44_byte_header :
  forall (p : OpenAITTSProvider) (response : Buffer),
    client p = true -> useWav p = true -> (44 < List.length response)%nat ->
    synthesize p response
    = Returns (set_sampleRate p (readUInt32LE response 24)) (skipn 44 response)
    /\ (spec_scan_data response 0 = Some 36%nat ->
        Z.of_nat (List.length response) - 44 <= readUInt32LE response 40 ->
        spec_wav_payload response = Some (skipn 44 response)).
Proof.
  intros p response Hc Hw Hlen. split.
  - apply synthesize_wav; assumption.
  - intros Hscan Hsize. unfold spec_wav_payload. rewrite Hscan.
    change (36 + 4)%nat with 40%nat. change (36 + 8)%nat with 44%nat.
    f_equal. apply firstn_all_le. rewrite length_skipn. lia.
Qed.

Lemma synthesize_wav_strips_fixed_44_byte_header_witness :
  synthesize lemonfox (wav44 1 22050 pcm_mono)
  = Returns (set_sampleRate lemonfox (readUInt32LE (wav44 1 22050 pcm_mono) 24))
            (skipn 44 (wav44 1 22050 pcm_mono))
  /\ spec_wav_payload (wav44 1 22050 pcm_mono) = Some (skipn 44 (wav44 1 22050 pcm_mono)).
Proof.
  destruct (synthesize_wav_strips_fixed_44_byte_header lemonfox (wav44 1 22050 pcm_mono))
    as [Hret Hpay].
  - reflexivity.
  - reflexivity.
  - vm_compute. lia.
  - split.
    + exact Hret.
    + apply Hpay.
      * vm_compute. reflexivity.
      * vm_compute. discriminate.
Defined.

(** C4, as the specification states it, fails: a stereo WAV (channel
    count 2 at offset 22) comes back with both channels interleaved, not
    with their average. *)
Lemma synthesize_stereo_not_downmixed :
  readUInt16LE (wav44 2 22050 pcm_stereo) 22 = 2
  /\ synthesize lemonfox (wav44 2 22050 pcm_stereo)
     = Returns (set_sampleRate lemonfox 22050) pcm_stereo
  /\ spec_downmix_mono 2 pcm_stereo = u16le 2000
  /\ pcm_stereo <> spec_downmix_mono 2 pcm_stereo.
Proof.
  repeat split; try (vm_compute; reflexivity).
  vm_compute. discriminate.
Qed.

(** C4, amended.  For every WAV-formatted response longer than 44 bytes
    whose channel count is greater than 1, [synthesize] returns the
    bytes after offset 44 as they are, all channels still interleaved
    and as many bytes as followed the header: the channel count is read
    and logged, never used. *)
Theorem synthesize_keeps_all_channels :
  forall (p : OpenAITTSProvider) (response : Buffer),
    client p = true -> useWav p = true -> (44 < List.length response)%nat ->
    1 < readUInt16LE response 22 ->
    synthesize p response
    = Returns (set_sampleRate p (readUInt32LE response 24)) (skipn 44 response)
    /\ List.length (skipn 44 response) = (List.length response - 44)%nat.
Proof.
  intros p response Hc Hw Hlen _.
  rewrite synthesize_wav by assumption.
  split; [reflexivity | apply length_skipn].
Qed.

Lemma synthesize_keeps_all_channels_witness :
  synthesize lemonfox (wav44 2 22050 pcm_stereo)
  = Returns (set_sampleRate lemonfox (readUInt32LE (wav44 2 22050 pcm_stereo) 24))
            (skipn 44 (wav44 2 22050 pcm_stereo))
  /\ List.length (skipn 44 (wav44 2 22050 pcm_stereo))
     = (List.length (wav44 2 22050 pcm_stereo) - 44)%nat.
Proof.
  apply (synthesize_keeps_all_channels lemonfox (wav44 2 22050 pcm_stereo)).
  - reflexivity.
  - reflexivity.
  - vm_compute. lia.
  - vm_compute. reflexivity.
Defined.

(** ** The canonical layout, for any channel count *)

Lemma byte_of_Z_value (z : Z) : Z.of_N (Byte.to_N (byte_of_Z z)) = z mod 256.
Proof.
  unfold byte_of_Z.
  assert (Hb : 0 <= z mod 256 < 256) by (apply Z.mod_pos_bound; lia).
  destruct (Byte.of_N (Z.to_N (z mod 256))) as [b|] eqn:E.
  - apply Byte.to_of_N in E. rewrite E. rewrite Z2N.id; lia.
  - apply Byte.of_N_None_iff in E. lia.
Qed.

Lemma u16_bytes (z : Z) : 0 <= z < 65536 -> z mod 256 + 256 * ((z / 256) mod 256) = z.
Proof.
  intros H. rewrite (Z.mod_small (z / 256)).
  - rewrite Z.add_comm. symmetry. apply Z.div_mod. lia.
  - split; [apply Z.div_pos; lia | apply Z.div_lt_upper_bound; lia].
Qed.

Lemma u32_bytes (z : Z) :
  0 <= z < 4294967296 ->
  z mod 256 + 256 * ((z / 256) mod 256) + 65536 * ((z / 65536) mod 256)
  + 16777216 * ((z / 16777216) mod 256) = z.
Proof.
  intros H.
  pose proof (Z.div_mod z 256 ltac:(lia)) as E0.
  pose proof (Z.mod_pos_bound z 256 ltac:(lia)) as B0.
  pose proof (Z.div_mod (z / 256) 256 ltac:(lia)) as E1.
  pose proof (Z.mod_pos_bound (z / 256) 256 ltac:(lia)) as B1.
  pose proof (Z.div_mod (z / 65536) 256 ltac:(lia)) as E2.
  pose proof (Z.mod_pos_bound (z / 65536) 256 ltac:(lia)) as B2.
  assert (D1 : z / 65536 = z / 256 / 256)
    by (rewrite Z.div_div by lia; reflexivity).
  assert (D2 : z / 16777216 = z / 65536 / 256)
    by (rewrite Z.div_div by lia; reflexivity).
  assert (S3 : 0 <= z / 16777216 < 256)
    by (split; [apply Z.div_pos; lia | apply Z.div_lt_upper_bound; lia]).
  rewrite (Z.mod_small (z / 16777216)) by exact S3.
  rewrite <- D1 in E1. rewrite <- D2 in E2. lia.
Qed.

(** A WAV in the canonical layout comes back as its payload, whatever
    number of channels it declares, and the provider takes its rate. *)
Lemma synthesize_wav44 (p : OpenAITTSProvider) (channels rate : Z) (pcm : Buffer) :
  client p = true -> useWav p = true -> pcm <> [] ->
  0 <= channels < 65536 -> 0 <= rate < 4294967296 ->
  readUInt16LE (wav44 channels rate pcm) 22 = channels
  /\ synthesize p (wav44 channels rate pcm) = Returns (set_sampleRate p rate) pcm.
Proof.
  intros Hc Hw Hne Hch Hrate.
  assert (Hlen : (44 < List.length (wav44 channels rate pcm))%nat).
  { destruct pcm as [|b pcm]; [congruence|].
    unfold wav44, wav_fmt, data_chunk. simpl. lia. }
  split.
  - unfold readUInt16LE, byteAt, wav44, wav_fmt. simpl nth.
    rewrite !byte_of_Z_value. apply u16_bytes; assumption.
  - rewrite synthesize_wav by assumption. f_equal.
    unfold readUInt32LE, byteAt, wav44, wav_fmt. simpl nth.
    rewrite !byte_of_Z_value. f_equal. apply u32_bytes; assumption.
Qed.

End TtsOpenAI.

(* ===================================================================== *)
(** * server/src/providers/stt-deepgram.ts *)
(* ===================================================================== *)

Module SttDeepgram.

(** ** The session and the runtime around it *)

(** [WebSocket.readyState]. *)
Inductive readyState : Type := CONNECTING | OPEN | CLOSING | CLOSED.

(** A recognizer message after [JSON.parse], with the fields the
    handlers read.  [transcript] is [channel.alternatives[0].transcript],
    [None] when [channel], [alternatives], the first alternative or its
    transcript is absent. *)
Inductive event : Type :=
| Results (transcript : option string) (is_final speech_final : bool)
| SpeechStarted
| UtteranceEnd
| Metadata
| Error
| OtherType.

(** The promise returned by one call of [waitForTranscript]. *)
Inductive promise : Type :=
| Pending
| Resolved (transcript : string)
| Rejected.

(** One call of [waitForTranscript]: its promise, and whether the timer
    it set is still to fire. *)
Record waiter : Type := {
  settled : promise;
  timeout : bool
}.

(** The fields of [DeepgramSTTSession], then the objects it created that
    live in the runtime: every [WebSocket] built by [doConnect], in
    order of construction ([ws] is an index into [sockets]); the delays
    of the [attemptReconnect] calls that are asleep; the waiters, in
    call order ([onTranscriptCallback] holds the index of the waiter
    whose closure is registered).  [keepAliveInterval] tells whether the
    field holds an interval; [leakedIntervals] counts the intervals that
    an 'open' handler overwrote in the field without clearing them:
    [clearKeepAlive] cannot reach them, so they keep firing. *)
Record session : Type := {
  ws : option nat;
  connected : bool;
  pendingTranscript : string;
  onTranscriptCallback : option nat;
  onPartialCallback : bool;
  closed : bool;
  reconnectAttempts : Z;
  keepAliveInterval : bool;
  sockets : list readyState;
  reconnectTimers : list Z;
  waiters : list waiter;
  leakedIntervals : nat
}.

Definition maxReconnectAttempts : Z := 5.
Definition reconnectDelayMs : Z := 1000.

Definition new_session : session :=
  {| ws := None; connected := false; pendingTranscript := "";
     onTranscriptCallback := None; onPartialCallback := false;
     closed := false; reconnectAttempts := 0; keepAliveInterval := false;
     sockets := []; reconnectTimers := []; waiters := [];
     leakedIntervals := 0%nat |}.

Definition set_ws (s : session) (x : option nat) : session :=
  {| ws := x; connected := connected s;
     pendingTranscript := pendingTranscript s;
     onTranscriptCallback := onTranscriptCallback s;
     onPartialCallback := onPartialCallback s; closed := closed s;
     reconnectAttempts := reconnectAttempts s;
     keepAliveInterval := keepAliveInterval s; sockets := sockets s;
     reconnectTimers := reconnectTimers s; waiters := waiters s;
     leakedIntervals := leakedIntervals s |}.

Definition set_connected (s : session) (x : bool) : session :=
  {| ws := ws s; connected := x; pendingTranscript := pendingTranscript s;
     onTranscriptCallback := onTranscriptCallback s;
     onPartialCallback := onPartialCallback s; closed := closed s;
     reconnectAttempts := reconnectAttempts s;
     keepAliveInterval := keepAliveInterval s; sockets := sockets s;
     reconnectTimers := reconnectTimers s; waiters := waiters s;
     leakedIntervals := leakedIntervals s |}.

Definition set_pendingTranscript (s : session) (x : string) : session :=
  {| ws := ws s; connected := connected s; pendingTranscript := x;
     onTranscriptCallback := onTranscriptCallback s;
     onPartialCallback := onPartialCallback s; closed := closed s;
     reconnectAttempts := reconnectAttempts s;
     keepAliveInterval := keepAliveInterval s; sockets := sockets s;
     reconnectTimers := reconnectTimers s; waiters := waiters s;
     leakedIntervals := leakedIntervals s |}.

Definition set_onTranscriptCallback (s : session) (x : option nat) : session :=
  {| ws := ws s; connected := connected s;
     pendingTranscript := pendingTranscript s; onTranscriptCallback := x;
     onPartialCallback := onPartialCallback s; closed := closed s;
     reconnectAttempts := reconnectAttempts s;
     keepAliveInterval := keepAliveInterval s; sockets := sockets s;
     reconnectTimers := reconnectTimers s; waiters := waiters s;
     leakedIntervals := leakedIntervals s |}.

Definition set_onPartialCallback (s : session) (x : bool) : session :=
  {| ws := ws s; connected := connected s;
     pendingTranscript := pendingTranscript s;
     onTranscriptCallback := onTranscriptCallback s;
     onPartialCallback := x; closed := closed s;
     reconnectAttempts := reconnectAttempts s;
     keepAliveInterval := keepAliveInterval s; sockets := sockets s;
     reconnectTimers := reconnectTimers s; waiters := waiters s;
     leakedIntervals := leakedIntervals s |}.

Definition set_closed (s : session) (x : bool) : session :=
  {| ws := ws s; connected := connected s;
     pendingTranscript := pendingTranscript s;
     onTranscriptCallback := onTranscriptCallback s;
     onPartialCallback := onPartialCallback s; closed := x;
     reconnectAttempts := reconnectAttempts s;
     keepAliveInterval := keepAliveInterval s; sockets := sockets s;
     reconnectTimers := reconnectTimers s; waiters := waiters s;
     leakedIntervals := leakedIntervals s |}.

Definition set_reconnectAttempts (s : session) (x : Z) : session :=
  {| ws := ws s; connected := connected s;
     pendingTranscript := pendingTranscript s;
     onTranscriptCallback := onTranscriptCallback s;
     onPartialCallback := onPartialCallback s; closed := closed s;
     reconnectAttempts := x; keepAliveInterval := keepAliveInterval s;
     sockets := sockets s; reconnectTimers := reconnectTimers s;
     waiters := waiters s;
     leakedIntervals := leakedIntervals s |}.

Definition set_keepAliveInterval (s : session) (x : bool) : session :=
  {| ws := ws s; connected := connected s;
     pendingTranscript := pendingTranscript s;
     onTranscriptCallback := onTranscriptCallback s;
     onPartialCallback := onPartialCallback s; closed := closed s;
     reconnectAttempts := reconnectAttempts s; keepAliveInterval := x;
     sockets := sockets s; reconnectTimers := reconnectTimers s;
     waiters := waiters s;
     leakedIntervals := leakedIntervals s |}.

Definition set_sockets (s : session) (x : list readyState) : session :=
  {| ws := ws s; connected := connected s;
     pendingTranscript := pendingTranscript s;
     onTranscriptCallback := onTranscriptCallback s;
     onPartialCallback := onPartialCallback s; closed := closed s;
     reconnectAttempts := reconnectAttempts s;
     keepAliveInterval := keepAliveInterval s; sockets := x;
     reconnectTimers := reconnectTimers s; waiters := waiters s;
     leakedIntervals := leakedIntervals s |}.

Definition set_reconnectTimers (s : session) (x : list Z) : session :=
  {| ws := ws s; connected := connected s;
     pendingTranscript := pendingTranscript s;
     onTranscriptCallback := onTranscriptCallback s;
     onPartialCallback := onPartialCallback s; closed := closed s;
     reconnectAttempts := reconnectAttempts s;
     keepAliveInterval := keepAliveInterval s; sockets := sockets s;
     reconnectTimers := x; waiters := waiters s;
     leakedIntervals := leakedIntervals s |}.

Definition set_waiters (s : session) (x : list waiter) : session :=
  {| ws := ws s; connected := connected s;
     pendingTranscript := pendingTranscript s;
     onTranscriptCallback := onTranscriptCallback s;
     onPartialCallback := onPartialCallback s; closed := closed s;
     reconnectAttempts := reconnectAttempts s;
     keepAliveInterval := keepAliveInterval s; sockets := sockets s;
     reconnectTimers := reconnectTimers s; waiters := x;
     leakedIntervals := leakedIntervals s |}.

Definition set_leakedIntervals (s : session) (x : nat) : session :=
  {| ws := ws s; connected := connected s;
     pendingTranscript := pendingTranscript s;
     onTranscriptCallback := onTranscriptCallback s;
     onPartialCallback := onPartialCallback s; closed := closed s;
     reconnectAttempts := reconnectAttempts s;
     keepAliveInterval := keepAliveInterval s; sockets := sockets s;
     reconnectTimers := reconnectTimers s; waiters := waiters s;
     leakedIntervals := x |}.

(** What goes over a socket. *)
Inductive payload : Type :=
| Audio (muLawData : list byte)
| KeepAlive
| CloseStream.

(** What a handler does to the outside world. *)
Inductive action : Type :=
| NewWebSocket (k : nat)                    (* [new WebSocket(url, ...)] *)
| WsSend (k : nat) (data : payload)         (* [ws.send(...)] on socket [k] *)
| WsClose (k : nat)                         (* [ws.close()] on socket [k] *)
| Sleep (attempt delay : Z)                 (* the [setTimeout] of [attemptReconnect] *)
| Partial (text : string)                   (* [onPartialCallback(text)] *)
| Resolve (w : nat) (transcript : string)   (* [resolve(transcript)] of waiter [w] *)
| Reject (w : nat).                         (* [reject(new Error('Transcript timeout'))] *)

(** What the event loop may run on the session. *)
Inductive input : Type :=
| Connect                                   (* [connect()] *)
| SendAudio (muLawData : list byte)         (* [sendAudio(muLawData)] *)
| OnPartial                                 (* [onPartial(callback)] *)
| WaitForTranscript (timeoutMs : Z)         (* [waitForTranscript(timeoutMs)] *)
| Close                                     (* [close()] *)
| OnOpen (k : nat)                          (* socket [k] emits 'open' *)
| OnMessage (k : nat) (e : event)           (* socket [k] emits 'message' *)
| OnError (k : nat)                         (* socket [k] emits 'error' *)
| OnClose (k : nat)                         (* socket [k] emits 'close' *)
| ReconnectDelayElapsed (i : nat)           (* the [i]-th sleeping reconnect wakes *)
| TranscriptTimeout (w : nat)               (* the timer of waiter [w] fires *)
| KeepAliveTick.                            (* a keepalive interval fires *)

(** ** List helpers *)

Fixpoint update {A : Type} (l : list A) (k : nat) (x : A) : list A :=
  match l, k with
  | [], _ => []
  | _ :: r, O => x :: r
  | y :: r, S k' => y :: update r k' x
  end.

Fixpoint remove_at {A : Type} (l : list A) (k : nat) : list A :=
  match l, k with
  | [], _ => []
  | _ :: r, O => r
  | y :: r, S k' => y :: remove_at r k'
  end.

(** ** The methods *)

(** [this.ws?.readyState]. *)
Definition ws_readyState (s : session) : option readyState :=
  match ws s with
  | Some k => nth_error (sockets s) k
  | None => None
  end.

Definition ws_is_open (s : session) : bool :=
  match ws_readyState s with
  | Some OPEN => true
  | _ => false
  end.

Definition clearKeepAlive (s : session) : session :=
  if keepAliveInterval s then set_keepAliveInterval s false else s.

(** [doConnect], up to the return of the promise executor: the socket is
    built, its handlers are attached.  The promise of [doConnect] only
    feeds log lines and is left out. *)
Definition doConnect (s : session) : session * list action :=
  let k := List.length (sockets s) in
  (set_ws (set_sockets s (sockets s ++ [CONNECTING])) (Some k), [NewWebSocket k]).

Definition connect (s : session) : session * list action :=
  doConnect (set_reconnectAttempts (set_closed s false) 0).

(** [attemptReconnect] up to its [await]: the checks, the counter, the
    delay.  The rest runs when the delay has elapsed. *)
Definition attemptReconnect (s : session) : session * list action :=
  if closed s then (s, [])
  else if reconnectAttempts s >=? maxReconnectAttempts then (s, [])
  else
    let s1 := set_reconnectAttempts s (reconnectAttempts s + 1) in
    let delay := reconnectDelayMs * 2 ^ (reconnectAttempts s1 - 1) in
    (set_reconnectTimers s1 (reconnectTimers s1 ++ [delay]),
     [Sleep (reconnectAttempts s1) delay]).

(** [attemptReconnect] after its [await]. *)
Definition attemptReconnect_resume (s : session) : session * list action :=
  if closed s then (s, []) else doConnect s.

(** The closure that [waitForTranscript] stores in
    [onTranscriptCallback]: [clearTimeout], unregister, [resolve]. *)
Definition resolve_waiter (w : waiter) (transcript : string) : waiter :=
  {| settled := match settled w with Pending => Resolved transcript | p => p end;
     timeout := false |}.

Definition transcript_closure (w : nat) (s : session) (transcript : string)
  : session * list action :=
  let ws' := match nth_error (waiters s) w with
             | Some x => update (waiters s) w (resolve_waiter x transcript)
             | None => waiters s
             end in
  (set_onTranscriptCallback (set_waiters s ws') None, [Resolve w transcript]).

(** [this.onTranscriptCallback?.(transcript)]. *)
Definition call_onTranscriptCallback (s : session) (transcript : string)
  : session * list action :=
  match onTranscriptCallback s with
  | Some w => transcript_closure w s transcript
  | None => (s, [])
  end.

(** [this.onPartialCallback?.(partial)]. *)
Definition call_onPartialCallback (s : session) (partial : string) : list action :=
  if onPartialCallback s then [Partial partial] else [].

Definition handleTranscriptResult (s : session) (transcript : option string)
    (isFinal speechFinal : bool) : session * list action :=
  match transcript with
  | None => (s, [])
  | Some transcript =>
      if negb (Js.truthy transcript) then (s, [])
      else if isFinal then
        let s1 := set_pendingTranscript s (pendingTranscript s ++ transcript ++ " ") in
        let a1 := call_onPartialCallback s1 (Js.trim (pendingTranscript s1)) in
        if speechFinal then
          let (s2, a2) := call_onTranscriptCallback s1 (Js.trim (pendingTranscript s1)) in
          (set_pendingTranscript s2 "", a1 ++ a2)
        else (s1, a1)
      else
        (s, call_onPartialCallback s (Js.trim (pendingTranscript s ++ transcript)))
  end.

Definition handleEvent (s : session) (e : event) : session * list action :=
  match e with
  | Results transcript is_final speech_final =>
      handleTranscriptResult s transcript is_final speech_final
  | SpeechStarted => (set_pendingTranscript s "", [])
  | UtteranceEnd =>
      if Js.truthy (Js.trim (pendingTranscript s)) then
        let (s1, a1) := call_onTranscriptCallback s (Js.trim (pendingTranscript s)) in
        (set_pendingTranscript s1 "", a1)
      else (s, [])
  | Metadata => (s, [])
  | Error => (s, [])
  | OtherType => (s, [])
  end.

Definition sendAudio (s : session) (muLawData : list byte) : session * list action :=
  if (negb (connected s) || negb (ws_is_open s))%bool then (s, [])
  else
    match ws s with
    | Some k => (s, [WsSend k (Audio muLawData)])
    | None => (s, [])
    end.

Definition onPartial (s : session) : session := set_onPartialCallback s true.

Definition waitForTranscript (s : session) (timeoutMs : Z) : session :=
  let w := List.length (waiters s) in
  set_onTranscriptCallback
    (set_waiters s (waiters s ++ [{| settled := Pending; timeout := true |}]))
    (Some w).

(** The timer callback of [waitForTranscript]. *)
Definition reject_waiter (w : waiter) : waiter :=
  {| settled := match settled w with Pending => Rejected | p => p end;
     timeout := false |}.

Definition transcript_timeout (s : session) (w : nat) : session * list action :=
  match nth_error (waiters s) w with
  | Some x =>
      if timeout x then
        (set_onTranscriptCallback
           (set_waiters s (update (waiters s) w (reject_waiter x))) None,
         [Reject w])
      else (s, [])
  | None => (s, [])
  end.

(** What [ws.close()] does to the socket's state. *)
Definition closing (r : readyState) : readyState :=
  match r with
  | CONNECTING | OPEN => CLOSING
  | r => r
  end.

Definition close (s : session) : session * list action :=
  let s1 := clearKeepAlive (set_closed s true) in
  let (s2, a2) :=
    match ws s1 with
    | Some k =>
        let a := if ws_is_open s1 then [WsSend k CloseStream] else [] in
        let sockets' := match nth_error (sockets s1) k with
                        | Some r => update (sockets s1) k (closing r)
                        | None => sockets s1
                        end in
        (set_ws (set_sockets s1 sockets') None, a ++ [WsClose k])
    | None => (s1, [])
    end in
  (set_connected s2 false, a2).

Definition isConnected (s : session) : bool := connected s.

(** ** The socket handlers installed by [doConnect] *)

(** The 'open' handler.  It assigns a new interval to
    [keepAliveInterval] without clearing the one the field may hold,
    which then goes on firing. *)
Definition on_open (s : session) (k : nat) : session * list action :=
  let s1 :=
    set_reconnectAttempts (set_connected (set_sockets s (update (sockets s) k OPEN)) true) 0 in
  let s2 :=
    if keepAliveInterval s1 then set_leakedIntervals s1 (S (leakedIntervals s1)) else s1 in
  (set_keepAliveInterval s2 true, []).

Definition on_close (s : session) (k : nat) : session * list action :=
  let s1 := clearKeepAlive (set_connected (set_sockets s (update (sockets s) k CLOSED)) false) in
  if negb (closed s1) then attemptReconnect s1 else (s1, []).

(** The callback of every keepalive interval; it reads [ws] when it
    fires, not when it was set. *)
Definition keepAlive_tick (s : session) : session * list action :=
  if ws_is_open s then
    match ws s with
    | Some k => (s, [WsSend k KeepAlive])
    | None => (s, [])
    end
  else (s, []).

(** ** The event loop *)

(** One turn of the event loop.  An input the runtime cannot produce in
    the current state (an 'open' on a socket that is not connecting, a
    'close' on a socket that has closed, a timer that is not set, a
    keepalive tick when no interval is alive) leaves the session as it
    is.  The 'message' handler reads no socket state: it runs
    [handleEvent] whichever socket the message came from.  A keepalive
    tick comes from the interval in the field or from a leaked one. *)
Definition step (s : session) (i : input) : session * list action :=
  match i with
  | Connect => connect s
  | SendAudio muLawData => sendAudio s muLawData
  | OnPartial => (onPartial s, [])
  | WaitForTranscript timeoutMs => (waitForTranscript s timeoutMs, [])
  | Close => close s
  | OnOpen k =>
      match nth_error (sockets s) k with
      | Some CONNECTING => on_open s k
      | _ => (s, [])
      end
  | OnMessage k e => handleEvent s e
  | OnError k => (s, [])
  | OnClose k =>
      match nth_error (sockets s) k with
      | Some CLOSED | None => (s, [])
      | Some _ => on_close s k
      end
  | ReconnectDelayElapsed i =>
      match nth_error (reconnectTimers s) i with
      | Some _ =>
          attemptReconnect_resume (set_reconnectTimers s (remove_at (reconnectTimers s) i))
      | None => (s, [])
      end
  | TranscriptTimeout w => transcript_timeout s w
  | KeepAliveTick =>
      if (keepAliveInterval s || (0 <? leakedIntervals s)%nat)%bool
      then keepAlive_tick s else (s, [])
  end.

Fixpoint run (s : session) (inputs : list input) : session * list action :=
  match inputs with
  | [] => (s, [])
  | i :: rest =>
      let (s1, a1) := step s i in
      let (s2, a2) := run s1 rest in
      (s2, a1 ++ a2)
  end.

(** ** Generic facts *)

Lemma length_update {A : Type} (l : list A) (k : nat) (x : A) :
  List.length (update l k x) = List.length l.
Proof.
  revert k; induction l as [|y l IH]; intros [|k]; simpl; auto.
Qed.

Lemma nth_error_update_eq {A : Type} (l : list A) (k : nat) (x : A) :
  (k < List.length l)%nat -> nth_error (update l k x) k = Some x.
Proof.
  revert k; induction l as [|y l IH]; intros [|k] H; simpl in *; try lia; auto.
  apply IH. lia.
Qed.

Lemma nth_error_update_ne {A : Type} (l : list A) (k j : nat) (x : A) :
  k <> j -> nth_error (update l k x) j = nth_error l j.
Proof.
  revert k j; induction l as [|y l IH]; intros [|k] [|j] H; simpl; auto.
  congruence.
Qed.

(** Case analysis on every test a handler makes, innermost first. *)
Ltac split_tests :=
  repeat match goal with
         | |- context [match ?x with _ => _ end] =>
             lazymatch x with
             | context [match _ with _ => _ end] => fail
             | _ => destruct x eqn:?; simpl in *
             end
         end.

(** Callers before callees. *)
Ltac unfold_handlers :=
  unfold connect, on_open, on_close, close, keepAlive_tick, handleEvent,
    handleTranscriptResult, attemptReconnect_resume, attemptReconnect,
    doConnect, call_onTranscriptCallback, call_onPartialCallback,
    transcript_closure, sendAudio, onPartial, waitForTranscript,
    transcript_timeout, clearKeepAlive, ws_is_open, ws_readyState in *.

(** ** [sendAudio] outside an open connection *)

(** C7. For every call of [sendAudio] while the upstream WebSocket is
    not open (there is none, or its [readyState] is not [OPEN]) the call
    returns with the session unchanged and with no action at all:
    nothing is sent, nothing is queued, nothing is thrown. *)
Theorem sendAudio_not_open_is_noop :
  forall (s : session) (muLawData : list byte),
    ws_readyState s <> Some OPEN ->
    sendAudio s muLawData = (s, [])
    /\ step s (SendAudio muLawData) = (s, []).
Proof.
  intros s d Hno.
  assert (E : sendAudio s d = (s, [])).
  { unfold sendAudio, ws_is_open.
    destruct (ws_readyState s) as [[]|]; try congruence;
      destruct (connected s); reflexivity. }
  split; [exact E | exact E].
Qed.

(** The reconnect gap: once an open socket has emitted 'close', audio
    is dropped. *)
Lemma sendAudio_in_reconnect_gap (s : session) (k : nat) (muLawData : list byte) :
  nth_error (sockets s) k = Some OPEN ->
  step (fst (step s (OnClose k))) (SendAudio muLawData)
  = (fst (step s (OnClose k)), []).
Proof.
  intros Hk. simpl. rewrite Hk.
  assert (Hc : connected (fst (on_close s k)) = false).
  { destruct s; unfold_handlers; simpl. split_tests; reflexivity. }
  unfold sendAudio. rewrite Hc. reflexivity.
Qed.

Lemma sendAudio_not_open_is_noop_witness :
  sendAudio (fst (run new_session [Connect; OnOpen 0; OnClose 0])) [x00; x01]
  = (fst (run new_session [Connect; OnOpen 0; OnClose 0]), [])
  /\ step (fst (run new_session [Connect; OnOpen 0; OnClose 0])) (SendAudio [x00; x01])
     = (fst (run new_session [Connect; OnOpen 0; OnClose 0]), []).
Proof.
  apply (sendAudio_not_open_is_noop
           (fst (run new_session [Connect; OnOpen 0; OnClose 0])) [x00; x01]).
  vm_compute. discriminate.
Defined.

Example sendAudio_open_sends :
  snd (run new_session [Connect; OnOpen 0; SendAudio [x00; x01]])
  = [NewWebSocket 0; WsSend 0 (Audio [x00; x01])].
Proof. reflexivity. Qed.

(** ** After [close()] *)

Definition is_connect (i : input) : bool :=
  match i with Connect => true | _ => false end.

Definition is_NewWebSocket (a : action) : bool :=
  match a with NewWebSocket _ => true | _ => false end.

(** Once [closed] is set, no handler but [connect()] clears it, builds a
    socket or changes the number of sockets. *)
Lemma step_closed (s : session) (i : input) :
  closed s = true -> is_connect i = false ->
  closed (fst (step s i)) = true
  /\ existsb is_NewWebSocket (snd (step s i)) = false
  /\ List.length (sockets (fst (step s i))) = List.length (sockets s).
Proof.
  intros Hc Hi. destruct s; simpl in Hc; subst.
  destruct i; simpl in *; try discriminate;
    unfold_handlers; simpl; split_tests;
    rewrite ?length_update, ?existsb_app; simpl;
    repeat split; auto.
Qed.

Lemma run_closed (inputs : list input) (s : session) :
  closed s = true -> existsb is_connect inputs = false ->
  closed (fst (run s inputs)) = true
  /\ existsb is_NewWebSocket (snd (run s inputs)) = false
  /\ List.length (sockets (fst (run s inputs))) = List.length (sockets s).
Proof.
  revert s; induction inputs as [|i inputs IH]; intros s Hc Hi; simpl in *.
  - auto.
  - apply orb_false_elim in Hi as [Hi Hrest].
    destruct (step_closed s i Hc Hi) as (Hc1 & Hn1 & Hl1).
    destruct (step s i) as [s1 a1]; simpl in *.
    destruct (IH s1 Hc1 Hrest) as (Hc2 & Hn2 & Hl2).
    destruct (run s1 inputs) as [s2 a2]; simpl in *.
    rewrite existsb_app, Hn1, Hn2. repeat split; auto. congruence.
Qed.

Lemma close_sets_closed (s : session) :
  closed (fst (close s)) = true
  /\ existsb is_NewWebSocket (snd (close s)) = false
  /\ List.length (sockets (fst (close s))) = List.length (sockets s).
Proof.
  destruct s; unfold_handlers; simpl; split_tests;
    rewrite ?length_update, ?existsb_app; simpl; repeat split; auto.
Qed.

(** C8. After [close()], whatever the session went through before and
    whatever comes next (socket events of any socket, reconnect delays
    that elapse, waiter timers, keepalive ticks, further method calls
    other than [connect()]), no new upstream connection is opened: no
    [new WebSocket] action occurs, the number of sockets built stays
    what it was, and [closed] stays set. *)
Theorem close_prevents_reconnection :
  forall (s : session) (inputs : list input),
    existsb is_connect inputs = false ->
    (forall k, ~ In (NewWebSocket k) (snd (run s (Close :: inputs))))
    /\ List.length (sockets (fst (run s (Close :: inputs)))) = List.length (sockets s)
    /\ closed (fst (run s (Close :: inputs))) = true.
Proof.
  intros s inputs Hin.
  destruct (close_sets_closed s) as (Hc & Hn & Hl).
  cbn [run step]. destruct (close s) as [s1 a1]; simpl in *.
  destruct (run_closed inputs s1 Hc Hin) as (Hc2 & Hn2 & Hl2).
  destruct (run s1 inputs) as [s2 a2]; simpl in *.
  split; [|split; congruence].
  intros k Hk.
  assert (E : existsb is_NewWebSocket (a1 ++ a2) = true).
  { apply existsb_exists. exists (NewWebSocket k). split; [exact Hk | reflexivity]. }
  rewrite existsb_app, Hn, Hn2 in E. discriminate.
Qed.

(** A reconnect is asleep when [close()] is called; its delay elapses,
    the old socket closes, timers fire: nothing is opened. *)
Lemma close_prevents_reconnection_witness :
  (forall k, ~ In (NewWebSocket k)
       (snd (run (fst (run new_session [Connect; OnOpen 0; OnClose 0]))
                 (Close :: [ReconnectDelayElapsed 0; OnClose 0; KeepAliveTick]))))
  /\ List.length (sockets (fst (run (fst (run new_session [Connect; OnOpen 0; OnClose 0]))
                 (Close :: [ReconnectDelayElapsed 0; OnClose 0; KeepAliveTick]))))
     = List.length (sockets (fst (run new_session [Connect; OnOpen 0; OnClose 0])))
  /\ closed (fst (run (fst (run new_session [Connect; OnOpen 0; OnClose 0]))
                 (Close :: [ReconnectDelayElapsed 0; OnClose 0; KeepAliveTick]))) = true.
Proof.
  apply (close_prevents_reconnection
           (fst (run new_session [Connect; OnOpen 0; OnClose 0]))
           [ReconnectDelayElapsed 0; OnClose 0; KeepAliveTick]).
  reflexivity.
Defined.

(** Without [close()], the same delay elapsing does open a socket. *)
Example reconnect_without_close :
  snd (run new_session [Connect; OnOpen 0; OnClose 0; ReconnectDelayElapsed 0])
  = [NewWebSocket 0; Sleep 1 1000; NewWebSocket 1].
Proof. reflexivity. Qed.

(** ** Reconnection with backoff *)

(** The reconnect attempts an action list schedules: attempt number and
    delay in milliseconds. *)
Definition sleeps (acts : list action) : list (Z * Z) :=
  flat_map (fun a => match a with Sleep n d => [(n, d)] | _ => [] end) acts.

(** The handlers that set [reconnectAttempts] back to 0: [connect()]
    and a successful 'open'. *)
Definition resets_attempts (i : input) : bool :=
  match i with Connect | OnOpen _ => true | _ => false end.

(** [n] attempts in a row after attempt [a]. *)
Fixpoint backoffs (a : Z) (n : nat) : list (Z * Z) :=
  match n with
  | O => []
  | S m => (a + 1, reconnectDelayMs * 2 ^ (a + 1 - 1)) :: backoffs (a + 1) m
  end.

(** The arithmetic of the delay is kept folded during case analysis. *)
Local Opaque Z.pow Z.mul Z.add Z.sub Z.geb Z.ltb.

Lemma sleeps_app (xs ys : list action) : sleeps (xs ++ ys) = sleeps xs ++ sleeps ys.
Proof. apply flat_map_app. Qed.

(** A 'close' on a live socket of a session that was not closed on
    purpose: one retry while fewer than 5 were made, none after. *)
Lemma on_close_schedules (s : session) (k : nat) (r : readyState) :
  closed s = false -> nth_error (sockets s) k = Some r -> r <> CLOSED ->
  snd (step s (OnClose k))
  = if reconnectAttempts s <? 5
    then [Sleep (reconnectAttempts s + 1)
                (reconnectDelayMs * 2 ^ (reconnectAttempts s + 1 - 1))]
    else [].
Proof.
  intros Hc Hk Hr. cbn [step]. rewrite Hk.
  assert (E : snd (on_close s k)
              = if reconnectAttempts s <? 5
                then [Sleep (reconnectAttempts s + 1)
                            (reconnectDelayMs * 2 ^ (reconnectAttempts s + 1 - 1))]
                else []).
  { destruct s; simpl in Hc; subst. unfold_handlers; unfold maxReconnectAttempts; simpl.
    destruct (Z.ltb_spec reconnectAttempts0 5), (Z.geb_spec reconnectAttempts0 5);
      try lia; destruct keepAliveInterval0; simpl;
      (destruct (Z.geb_spec reconnectAttempts0 5); try lia); reflexivity. }
  destruct r; try congruence; exact E.
Qed.

(** Between two resets, a handler either leaves the counter and
    schedules nothing, or counts one more attempt and schedules it. *)
Lemma step_attempts (s : session) (i : input) :
  resets_attempts i = false ->
  (reconnectAttempts (fst (step s i)) = reconnectAttempts s
   /\ sleeps (snd (step s i)) = [])
  \/ (reconnectAttempts s < 5
      /\ reconnectAttempts (fst (step s i)) = reconnectAttempts s + 1
      /\ sleeps (snd (step s i)) = backoffs (reconnectAttempts s) 1).
Proof.
  intros Hi. destruct s.
  destruct i; simpl in *; try discriminate;
    unfold_handlers; unfold maxReconnectAttempts in *; simpl; split_tests;
    rewrite ?sleeps_app; simpl; auto.
  all: right; repeat split; auto;
    match goal with
    | H : (_ >=? _) = false |- _ => rewrite Z.geb_leb in H; apply Z.leb_gt in H; lia
    end.
Qed.

Lemma run_attempts (inputs : list input) (s : session) :
  existsb resets_attempts inputs = false ->
  exists n : nat,
    sleeps (snd (run s inputs)) = backoffs (reconnectAttempts s) n
    /\ reconnectAttempts (fst (run s inputs)) = reconnectAttempts s + Z.of_nat n
    /\ (n = O \/ reconnectAttempts s + Z.of_nat n <= 5).
Proof.
  revert s; induction inputs as [|i inputs IH]; intros s Hin; simpl in *.
  - exists O. simpl. repeat split; auto; lia.
  - apply orb_false_elim in Hin as [Hi Hrest].
    pose proof (step_attempts s i Hi) as Hstep.
    destruct (step s i) as [s1 a1]; simpl in *.
    destruct (IH s1 Hrest) as (n & Hs & Ha & Hn).
    destruct (run s1 inputs) as [s2 a2]; simpl in *.
    rewrite sleeps_app.
    destruct Hstep as [(Hsame & Hnone) | (Hlt & Hinc & Hone)].
    + exists n. rewrite Hsame in *. rewrite Hnone, Hs, Ha. repeat split; auto.
    + exists (S n). rewrite Hinc in *. rewrite Hone, Hs, Ha. simpl backoffs.
      repeat split; lia.
Qed.

(** When the delay has elapsed and the session was not closed on
    purpose, the reconnect builds a new socket. *)
Lemma reconnect_resume_connects (s : session) (i : nat) (d : Z) :
  closed s = false -> nth_error (reconnectTimers s) i = Some d ->
  snd (step s (ReconnectDelayElapsed i)) = [NewWebSocket (List.length (sockets s))].
Proof.
  intros Hc Hi. cbn [step]. rewrite Hi.
  destruct s; simpl in *; subst. reflexivity.
Qed.

(** The state after that 'close': the session is still not closed, no
    socket was built, and the delay of the retry, if one was scheduled,
    is the last of the sleeping reconnects. *)
Lemma on_close_arms (s : session) (k : nat) (r : readyState) :
  closed s = false -> nth_error (sockets s) k = Some r -> r <> CLOSED ->
  closed (fst (step s (OnClose k))) = false
  /\ List.length (sockets (fst (step s (OnClose k)))) = List.length (sockets s)
  /\ reconnectTimers (fst (step s (OnClose k)))
     = if reconnectAttempts s <? 5
       then reconnectTimers s ++ [reconnectDelayMs * 2 ^ (reconnectAttempts s + 1 - 1)]
       else reconnectTimers s.
Proof.
  intros Hc Hk Hr. cbn [step]. rewrite Hk.
  assert (E : closed (fst (on_close s k)) = false
              /\ List.length (sockets (fst (on_close s k))) = List.length (sockets s)
              /\ reconnectTimers (fst (on_close s k))
                 = if reconnectAttempts s <? 5
                   then reconnectTimers s
                        ++ [reconnectDelayMs * 2 ^ (reconnectAttempts s + 1 - 1)]
                   else reconnectTimers s).
  { destruct s; simpl in Hc; subst. unfold_handlers; unfold maxReconnectAttempts; simpl.
    destruct (Z.ltb_spec reconnectAttempts0 5), (Z.geb_spec reconnectAttempts0 5);
      try lia; destruct keepAliveInterval0; simpl;
      (destruct (Z.geb_spec reconnectAttempts0 5); try lia); simpl;
      rewrite ?length_update; repeat split; reflexivity. }
  destruct r; try congruence; exact E.
Qed.

(** The session after the reconnect: [ws] is the socket just built,
    which is connecting, and the delay is no longer asleep. *)
Lemma reconnect_resume_state (s : session) (i : nat) (d : Z) :
  closed s = false -> nth_error (reconnectTimers s) i = Some d ->
  ws (fst (step s (ReconnectDelayElapsed i))) = Some (List.length (sockets s))
  /\ sockets (fst (step s (ReconnectDelayElapsed i))) = sockets s ++ [CONNECTING]
  /\ reconnectTimers (fst (step s (ReconnectDelayElapsed i)))
     = remove_at (reconnectTimers s) i.
Proof.
  intros Hc Hi. cbn [step]. rewrite Hi.
  destruct s; simpl in *; subst. repeat split; reflexivity.
Qed.

Lemma remove_at_last {A : Type} (l : list A) (x : A) :
  nth_error (l ++ [x]) (List.length l) = Some x
  /\ remove_at (l ++ [x]) (List.length l) = l.
Proof.
  induction l as [|y l [IH1 IH2]]; simpl; [auto|].
  split; [exact IH1 | rewrite IH2; reflexivity].
Qed.

(** C2. Take a session whose counter of attempts is 0 (a fresh one, or
    one whose upstream has just opened) and let anything happen but a
    successful 'open' or a call of [connect()].  The reconnects it
    schedules are then the first [n] of: attempt 1 after 1000 ms, 2
    after 2000 ms, 3 after 4000 ms, 4 after 8000 ms, 5 after 16000 ms
    (delay 1000 * 2^(attempt - 1)), with the counter at [n <= 5].  If
    the session was not closed on purpose, the next 'close' of a live
    socket does this.  When [n < 5] it schedules attempt [n + 1] with
    delay 1000 * 2^n and puts that delay to sleep as the last of the
    sleeping reconnects; when the delay has elapsed the session builds a
    new socket, which becomes [ws] and is connecting, and the delay is
    asleep no more.  When [n = 5] it schedules nothing and puts nothing
    to sleep: it gives up.  Any sleeping reconnect whose delay elapses
    while the session is not closed builds a new socket. *)
Theorem reconnect_backoff_at_most_five :
  forall (s : session) (inputs : list input),
    reconnectAttempts s = 0 ->
    existsb resets_attempts inputs = false ->
    exists n : nat,
      (n <= 5)%nat
      /\ sleeps (snd (run s inputs))
         = firstn n [(1, 1000); (2, 2000); (3, 4000); (4, 8000); (5, 16000)]
      /\ reconnectAttempts (fst (run s inputs)) = Z.of_nat n
      /\ (forall (k : nat) (r : readyState),
           closed (fst (run s inputs)) = false ->
           nth_error (sockets (fst (run s inputs))) k = Some r ->
           r <> CLOSED ->
           snd (step (fst (run s inputs)) (OnClose k))
           = (if (n <? 5)%nat
              then [Sleep (Z.of_nat n + 1) (1000 * 2 ^ Z.of_nat n)]
              else [])
           /\ reconnectTimers (fst (step (fst (run s inputs)) (OnClose k)))
              = (if (n <? 5)%nat
                 then reconnectTimers (fst (run s inputs)) ++ [1000 * 2 ^ Z.of_nat n]
                 else reconnectTimers (fst (run s inputs)))
           /\ reconnectAttempts (fst (step (fst (run s inputs)) (OnClose k)))
              = (if (n <? 5)%nat then Z.of_nat n + 1 else 5)
           /\ ((n < 5)%nat ->
               snd (run (fst (run s inputs))
                        [OnClose k;
                         ReconnectDelayElapsed
                           (List.length (reconnectTimers (fst (run s inputs))))])
               = [Sleep (Z.of_nat n + 1) (1000 * 2 ^ Z.of_nat n);
                  NewWebSocket (List.length (sockets (fst (run s inputs))))]
               /\ ws (fst (run (fst (run s inputs))
                        [OnClose k;
                         ReconnectDelayElapsed
                           (List.length (reconnectTimers (fst (run s inputs))))]))
                  = Some (List.length (sockets (fst (run s inputs))))
               /\ nth_error
                    (sockets (fst (run (fst (run s inputs))
                        [OnClose k;
                         ReconnectDelayElapsed
                           (List.length (reconnectTimers (fst (run s inputs))))])))
                    (List.length (sockets (fst (run s inputs))))
                  = Some CONNECTING
               /\ reconnectTimers (fst (run (fst (run s inputs))
                        [OnClose k;
                         ReconnectDelayElapsed
                           (List.length (reconnectTimers (fst (run s inputs))))]))
                  = reconnectTimers (fst (run s inputs))))
      /\ (forall (i : nat) (d : Z),
           closed (fst (run s inputs)) = false ->
           nth_error (reconnectTimers (fst (run s inputs))) i = Some d ->
           snd (step (fst (run s inputs)) (ReconnectDelayElapsed i))
           = [NewWebSocket (List.length (sockets (fst (run s inputs))))]).
Proof.
  intros s inputs H0 Hin.
  destruct (run_attempts inputs s Hin) as (n & Hs & Ha & Hn).
  rewrite H0 in *.
  assert (Hle : (n <= 5)%nat) by lia.
  exists n. split; [exact Hle|]. split; [|split; [rewrite Ha; lia|split]].
  - rewrite Hs. clear - Hle.
    do 6 (destruct n as [|n]; [vm_compute; reflexivity|]). lia.
  - intros k r Hc Hk Hr.
    set (s1 := fst (run s inputs)) in *.
    pose proof (on_close_schedules s1 k r Hc Hk Hr) as Hact.
    destruct (on_close_arms s1 k r Hc Hk Hr) as (Hc' & Hlen & Htim).
    pose proof (step_attempts s1 (OnClose k) eq_refl) as Hcnt.
    rewrite Ha in Hact, Htim, Hcnt.
    replace (0 + Z.of_nat n + 1 - 1) with (Z.of_nat n) in * by lia.
    replace (0 + Z.of_nat n + 1) with (Z.of_nat n + 1) in * by lia.
    unfold reconnectDelayMs in *.
    destruct (Nat.ltb_spec n 5) as [Hlt|Hge], (Z.ltb_spec (0 + Z.of_nat n) 5);
      try lia.
    + (* a retry is scheduled *)
      assert (Hcnt' : reconnectAttempts (fst (step s1 (OnClose k))) = Z.of_nat n + 1).
      { destruct Hcnt as [(_ & Hnone) | (_ & Hinc & _)]; [|lia].
        assert (E : sleeps (snd (step s1 (OnClose k))) = sleeps [Sleep (Z.of_nat n + 1) (1000 * 2 ^ Z.of_nat n)])
          by (rewrite Hact; reflexivity).
        rewrite Hnone in E. discriminate E. }
      split; [exact Hact|]. split; [exact Htim|]. split; [exact Hcnt'|].
      intros _.
      destruct (remove_at_last (reconnectTimers s1) (1000 * 2 ^ Z.of_nat n))
        as (Hnth & Hrem).
      rewrite <- Htim in Hnth, Hrem.
      pose proof (reconnect_resume_connects _ _ _ Hc' Hnth) as Hnew.
      destruct (reconnect_resume_state _ _ _ Hc' Hnth) as (Hws & Hsock & Htim2).
      cbn [run].
      destruct (step s1 (OnClose k)) as [s2 a2]; cbn [fst snd] in *.
      destruct (step s2 (ReconnectDelayElapsed (List.length (reconnectTimers s1))))
        as [s3 a3]; cbn [fst snd] in *.
      subst a2 a3. rewrite Hlen in *.
      split; [reflexivity|]. split; [exact Hws|]. split.
      * rewrite Hsock, <- Hlen, nth_error_app2, Nat.sub_diag by lia. reflexivity.
      * rewrite Htim2. exact Hrem.
    + (* it gives up *)
      split; [exact Hact|]. split; [exact Htim|]. split; [|lia].
      destruct Hcnt as [(Hsame & _) | (Hlt & _)]; lia.
  - intros i d Hc Hi. eapply reconnect_resume_connects; eauto.
Qed.

(** A session whose upstream is open, and three closes in a row, each
    with its reconnect: the fourth socket is then connecting. *)
Definition connected_session : session := fst (run new_session [Connect; OnOpen 0]).

Definition three_closes : list input :=
  [OnClose 0; ReconnectDelayElapsed 0; OnClose 1; ReconnectDelayElapsed 0;
   OnClose 2; ReconnectDelayElapsed 0].

Lemma reconnect_backoff_at_most_five_witness :
  exists n : nat,
    (n <= 5)%nat
    /\ sleeps (snd (run connected_session three_closes))
       = firstn n [(1, 1000); (2, 2000); (3, 4000); (4, 8000); (5, 16000)]
    /\ reconnectAttempts (fst (run connected_session three_closes)) = Z.of_nat n
    /\ (forall (k : nat) (r : readyState),
         closed (fst (run connected_session three_closes)) = false ->
         nth_error (sockets (fst (run connected_session three_closes))) k = Some r ->
         r <> CLOSED ->
         snd (step (fst (run connected_session three_closes)) (OnClose k))
         = (if (n <? 5)%nat
            then [Sleep (Z.of_nat n + 1) (1000 * 2 ^ Z.of_nat n)]
            else [])
         /\ reconnectTimers (fst (step (fst (run connected_session three_closes)) (OnClose k)))
            = (if (n <? 5)%nat
               then reconnectTimers (fst (run connected_session three_closes)) ++ [1000 * 2 ^ Z.of_nat n]
               else reconnectTimers (fst (run connected_session three_closes)))
         /\ reconnectAttempts (fst (step (fst (run connected_session three_closes)) (OnClose k)))
            = (if (n <? 5)%nat then Z.of_nat n + 1 else 5)
         /\ ((n < 5)%nat ->
             snd (run (fst (run connected_session three_closes))
                      [OnClose k;
                       ReconnectDelayElapsed
                         (List.length (reconnectTimers (fst (run connected_session three_closes))))])
             = [Sleep (Z.of_nat n + 1) (1000 * 2 ^ Z.of_nat n);
                NewWebSocket (List.length (sockets (fst (run connected_session three_closes))))]
             /\ ws (fst (run (fst (run connected_session three_closes))
                      [OnClose k;
                       ReconnectDelayElapsed
                         (List.length (reconnectTimers (fst (run connected_session three_closes))))]))
                = Some (List.length (sockets (fst (run connected_session three_closes))))
             /\ nth_error
                  (sockets (fst (run (fst (run connected_session three_closes))
                      [OnClose k;
                       ReconnectDelayElapsed
                         (List.length (reconnectTimers (fst (run connected_session three_closes))))])))
                  (List.length (sockets (fst (run connected_session three_closes))))
                = Some CONNECTING
             /\ reconnectTimers (fst (run (fst (run connected_session three_closes))
                      [OnClose k;
                       ReconnectDelayElapsed
                         (List.length (reconnectTimers (fst (run connected_session three_closes))))]))
                = reconnectTimers (fst (run connected_session three_closes))))
    /\ (forall (i : nat) (d : Z),
         closed (fst (run connected_session three_closes)) = false ->
         nth_error (reconnectTimers (fst (run connected_session three_closes))) i = Some d ->
         snd (step (fst (run connected_session three_closes)) (ReconnectDelayElapsed i))
         = [NewWebSocket (List.length (sockets (fst (run connected_session three_closes))))]).
Proof.
  apply (reconnect_backoff_at_most_five connected_session three_closes).
  - vm_compute. reflexivity.
  - vm_compute. reflexivity.
Defined.

(** After the three closes the fourth socket is live; when it closes,
    attempt 4 sleeps 8000 ms and then connects. *)
Example fourth_close_reconnects :
  closed (fst (run connected_session three_closes)) = false
  /\ nth_error (sockets (fst (run connected_session three_closes))) 3 = Some CONNECTING
  /\ reconnectTimers (fst (run connected_session three_closes)) = []
  /\ reconnectTimers (fst (step (fst (run connected_session three_closes)) (OnClose 3)))
     = [8000]
  /\ snd (run (fst (run connected_session three_closes))
              [OnClose 3; ReconnectDelayElapsed 0])
     = [Sleep 4 8000; NewWebSocket 4].
Proof. vm_compute. repeat split; reflexivity. Qed.

(** One turn of the cycle, from the open session: the socket closes,
    the first retry goes to sleep for 1000 ms, wakes and connects. *)
Example close_then_delay_reconnects :
  run connected_session [OnClose 0; ReconnectDelayElapsed 0]
  = (set_ws
       (set_connected
          (set_keepAliveInterval
             (set_reconnectAttempts
                (set_sockets connected_session [CLOSED; CONNECTING]) 1)
             false)
          false)
       (Some 1%nat),
     [Sleep 1 1000; NewWebSocket 1]).
Proof. vm_compute. reflexivity. Qed.

Example five_reconnects_then_give_up :
  sleeps (snd (run new_session
    [Connect; OnOpen 0;
     OnClose 0; ReconnectDelayElapsed 0; OnClose 1; ReconnectDelayElapsed 0;
     OnClose 2; ReconnectDelayElapsed 0; OnClose 3; ReconnectDelayElapsed 0;
     OnClose 4; ReconnectDelayElapsed 0; OnClose 5; ReconnectDelayElapsed 0]))
  = [(1, 1000); (2, 2000); (3, 4000); (4, 8000); (5, 16000)].
Proof. vm_compute. reflexivity. Qed.

(** A successful 'open' starts the count again. *)
Example open_resets_backoff :
  sleeps (snd (run new_session
    [Connect; OnOpen 0; OnClose 0; ReconnectDelayElapsed 0; OnOpen 1; OnClose 1]))
  = [(1, 1000); (1, 1000)].
Proof. vm_compute. reflexivity. Qed.

Local Transparent Z.pow Z.mul Z.add Z.sub Z.geb Z.ltb.

(** ** Waiters *)

Definition is_pending (x : waiter) : bool :=
  match settled x with Pending => true | _ => false end.

(** Waiter [w] is outstanding: its promise is neither resolved nor
    rejected. *)
Definition outstanding (s : session) (w : nat) : Prop :=
  exists x, nth_error (waiters s) w = Some x /\ settled x = Pending.

Definition count_outstanding (s : session) : nat :=
  List.length (filter is_pending (waiters s)).

(** Waiter [w] can still resolve: its closure is the registered
    callback, so the next delivery calls its [resolve]. *)
Definition can_resolve (s : session) (w : nat) : Prop :=
  onTranscriptCallback s = Some w.

(** Waiter [w] can still reject: its timer is set. *)
Definition can_reject (s : session) (w : nat) : Prop :=
  exists x, nth_error (waiters s) w = Some x /\ timeout x = true.

(** What holds of the waiters and of the callback slot in every
    reachable session. *)
Definition waiters_inv (l : list waiter) (cb : option nat) : Prop :=
  (forall w, cb = Some w -> nth_error l w = Some {| settled := Pending; timeout := true |})
  /\ (forall w x, nth_error l w = Some x -> (settled x = Pending <-> timeout x = true)).

Lemma waiters_inv_unregister (l : list waiter) (cb : option nat) :
  waiters_inv l cb -> waiters_inv l None.
Proof. intros [_ H]. split; [discriminate | exact H]. Qed.

Lemma waiters_inv_wait (l : list waiter) (cb : option nat) :
  waiters_inv l cb ->
  waiters_inv (l ++ [{| settled := Pending; timeout := true |}]) (Some (List.length l)).
Proof.
  intros [_ H]. split.
  - intros w [= <-]. rewrite nth_error_app2, Nat.sub_diag by lia. reflexivity.
  - intros w x Hw. destruct (Nat.lt_ge_cases w (List.length l)) as [Hlt|Hge].
    + rewrite nth_error_app1 in Hw by exact Hlt. eapply H; eauto.
    + rewrite nth_error_app2 in Hw by exact Hge.
      destruct (w - List.length l)%nat as [|[|n]]; simpl in Hw; try discriminate.
      injection Hw as <-. simpl. tauto.
Qed.

Lemma waiters_inv_settle (l : list waiter) (cb : option nat) (w : nat) (x' : waiter) :
  waiters_inv l cb -> settled x' <> Pending -> timeout x' = false ->
  waiters_inv (update l w x') None.
Proof.
  intros [_ H] Hs Ht. split; [discriminate|].
  intros j x Hj. destruct (Nat.eq_dec w j) as [<-|Hne].
  - destruct (Nat.lt_ge_cases w (List.length l)) as [Hlt|Hge].
    + rewrite nth_error_update_eq in Hj by exact Hlt. injection Hj as <-.
      split; congruence.
    + assert (E : nth_error (update l w x') w = None)
        by (apply nth_error_None; rewrite length_update; exact Hge).
      congruence.
  - rewrite nth_error_update_ne in Hj by exact Hne. eapply H; eauto.
Qed.

Lemma resolve_waiter_settled (x : waiter) (t : string) :
  settled (resolve_waiter x t) <> Pending /\ timeout (resolve_waiter x t) = false.
Proof. unfold resolve_waiter; destruct (settled x); simpl; split; congruence. Qed.

Lemma reject_waiter_settled (x : waiter) :
  settled (reject_waiter x) <> Pending /\ timeout (reject_waiter x) = false.
Proof. unfold reject_waiter; destruct (settled x); simpl; split; congruence. Qed.

Lemma step_waiters_inv (s : session) (i : input) :
  waiters_inv (waiters s) (onTranscriptCallback s) ->
  waiters_inv (waiters (fst (step s i))) (onTranscriptCallback (fst (step s i))).
Proof.
  intros H. destruct s.
  destruct i; simpl in *; unfold_handlers; simpl; split_tests;
    eauto using waiters_inv_unregister, waiters_inv_wait;
    try (eapply waiters_inv_settle; eauto; apply resolve_waiter_settled);
    try (eapply waiters_inv_settle; eauto; apply reject_waiter_settled).
Qed.

Lemma run_waiters_inv (inputs : list input) (s : session) :
  waiters_inv (waiters s) (onTranscriptCallback s) ->
  waiters_inv (waiters (fst (run s inputs))) (onTranscriptCallback (fst (run s inputs))).
Proof.
  revert s; induction inputs as [|i inputs IH]; intros s H; simpl.
  - exact H.
  - pose proof (step_waiters_inv s i H) as H1.
    destruct (step s i) as [s1 a1]; simpl in *.
    specialize (IH s1 H1). destruct (run s1 inputs); exact IH.
Qed.

(** Two calls of [waitForTranscript] with no delivery in between. *)
Definition two_waiters : session :=
  fst (run new_session [Connect; OnOpen 0; WaitForTranscript 30000; WaitForTranscript 30000]).

(** C5, as the specification states it, fails: nothing in
    [waitForTranscript] refuses or cancels an earlier waiter.  After two
    calls both promises are pending and both timers are set; the second
    waiter is the one a delivery resolves, and the first one still
    rejects when its timer fires. *)
Lemma two_waiters_outstanding :
  waiters two_waiters
  = [{| settled := Pending; timeout := true |}; {| settled := Pending; timeout := true |}]
  /\ count_outstanding two_waiters = 2%nat
  /\ onTranscriptCallback two_waiters = Some 1%nat
  /\ snd (run two_waiters [OnMessage 0 (Results (Some "yes"%string) true true);
                           TranscriptTimeout 0])
     = [Resolve 1 "yes"; Reject 0]
  /\ snd (run two_waiters [TranscriptTimeout 0; TranscriptTimeout 1])
     = [Reject 0; Reject 1].
Proof. repeat split; vm_compute; reflexivity. Qed.

(** The timer of an earlier waiter unregisters the callback of a later
    one, which is then left with its own timeout only. *)
Example early_timeout_unregisters_later_waiter :
  snd (run two_waiters [TranscriptTimeout 0;
                        OnMessage 0 (Results (Some "yes"%string) true true);
                        TranscriptTimeout 1])
  = [Reject 0; Reject 1].
Proof. vm_compute. reflexivity. Qed.

(** The registered callback is always the one of the latest call of
    [waitForTranscript]. *)
Lemma step_slot_latest (s : session) (i : input) :
  (forall w, onTranscriptCallback s = Some w -> S w = List.length (waiters s)) ->
  forall w, onTranscriptCallback (fst (step s i)) = Some w ->
            S w = List.length (waiters (fst (step s i))).
Proof.
  intros H. destruct s.
  destruct i; simpl in *; unfold_handlers; simpl; split_tests; simpl;
    intros v Hv; try discriminate; try (apply H; exact Hv).
  injection Hv as <-. rewrite length_app. simpl. lia.
Qed.

Lemma run_slot_latest (inputs : list input) (s : session) :
  (forall w, onTranscriptCallback s = Some w -> S w = List.length (waiters s)) ->
  forall w, onTranscriptCallback (fst (run s inputs)) = Some w ->
            S w = List.length (waiters (fst (run s inputs))).
Proof.
  revert s; induction inputs as [|i inputs IH]; intros s H; simpl.
  - exact H.
  - pose proof (step_slot_latest s i H) as H1.
    destruct (step s i) as [s1 a1]; simpl in *.
    specialize (IH s1 H1). destruct (run s1 inputs); exact IH.
Qed.

Ltac case_members :=
  rewrite ?in_app_iff in *; simpl in *;
  repeat match goal with
         | H : _ \/ _ |- _ => destruct H
         | H : False |- _ => destruct H
         | H : _ = Resolve _ _ |- _ => inversion H; subst; clear H
         | H : _ = Reject _ |- _ => inversion H; subst; clear H
         end.

(** A handler resolves no waiter but the registered one. *)
Lemma step_resolves_registered (s : session) (i : input) (w : nat) (t : string) :
  In (Resolve w t) (snd (step s i)) -> onTranscriptCallback s = Some w.
Proof.
  destruct s.
  destruct i; simpl; unfold_handlers; simpl; split_tests; simpl;
    intros Hin; case_members; try discriminate; try reflexivity; auto.
Qed.

(** A handler rejects no waiter but the one whose timer fires, and only
    while that timer is set. *)
Lemma step_rejects_own_timer (s : session) (i : input) (w : nat) :
  In (Reject w) (snd (step s i)) -> i = TranscriptTimeout w /\ can_reject s w.
Proof.
  unfold can_reject. destruct s.
  destruct i; simpl; unfold_handlers; simpl; split_tests; simpl;
    intros Hin; case_members; try discriminate.
  split; [reflexivity|]. eexists. split; [eassumption | assumption].
Qed.

(** A waiter stays outstanding through every handler that neither
    resolves nor rejects it. *)
Lemma step_outstanding (s : session) (i : input) (w : nat) :
  outstanding s w ->
  outstanding (fst (step s i)) w
  \/ (exists t, In (Resolve w t) (snd (step s i)))
  \/ In (Reject w) (snd (step s i)).
Proof.
  unfold outstanding. intros (x & Hx & Hp). destruct s; simpl in *.
  destruct i; simpl; unfold_handlers; simpl; split_tests; simpl;
    try (left; exists x; split; [assumption | assumption]).
  all: try (left; exists x; split; [|assumption];
            rewrite nth_error_app1; [assumption | apply nth_error_Some; congruence]).
  all: match goal with
       | |- context [update _ ?k _] =>
           destruct (Nat.eq_dec k w) as [->|Hne];
           [ right; rewrite ?in_app_iff; simpl; eauto 6
           | left; exists x; split; [|assumption];
             rewrite nth_error_update_ne by exact Hne; assumption ]
       end.
Qed.

(** The registration stays with a waiter through every handler but a
    delivery to it, the timer of some waiter, or a later call of
    [waitForTranscript]. *)
Lemma step_registered (s : session) (i : input) (w : nat) :
  can_resolve s w ->
  can_resolve (fst (step s i)) w
  \/ (exists t, In (Resolve w t) (snd (step s i)))
  \/ (exists w', In (Reject w') (snd (step s i)))
  \/ (exists timeoutMs, i = WaitForTranscript timeoutMs).
Proof.
  unfold can_resolve. intros Hw. destruct s; simpl in *; subst.
  destruct i; simpl; unfold_handlers; simpl; split_tests; simpl;
    try (left; reflexivity);
    try (right; left; rewrite ?in_app_iff; simpl; eauto 6; fail);
    try (right; right; left; rewrite ?in_app_iff; simpl; eauto 6; fail);
    try (right; right; right; eauto; fail).
Qed.

(** A waiter that is not registered never gets resolved: the
    registration only ever goes to a new waiter. *)
Lemma step_unregistered (s : session) (i : input) (w : nat) :
  (w < List.length (waiters s))%nat -> onTranscriptCallback s <> Some w ->
  (w < List.length (waiters (fst (step s i))))%nat
  /\ onTranscriptCallback (fst (step s i)) <> Some w
  /\ (forall t, ~ In (Resolve w t) (snd (step s i))).
Proof.
  intros Hlt Hno.
  split; [|split].
  - destruct s; simpl in *.
    destruct i; simpl; unfold_handlers; simpl; split_tests; simpl;
      rewrite ?length_update, ?length_app; simpl; lia.
  - destruct s; simpl in *.
    destruct i; simpl; unfold_handlers; simpl; split_tests; simpl;
      try assumption; try discriminate.
    intros [= E]. lia.
  - intros t Hin. apply Hno. eapply step_resolves_registered; eauto.
Qed.

Lemma run_unregistered (inputs : list input) (s : session) (w : nat) :
  (w < List.length (waiters s))%nat -> onTranscriptCallback s <> Some w ->
  forall t, ~ In (Resolve w t) (snd (run s inputs)).
Proof.
  revert s; induction inputs as [|i inputs IH]; intros s Hlt Hno t; simpl.
  - intros [].
  - destruct (step_unregistered s i w Hlt Hno) as (Hlt1 & Hno1 & Hres1).
    specialize (Hres1 t).
    destruct (step s i) as [s1 a1]; simpl in *.
    specialize (IH s1 Hlt1 Hno1 t).
    destruct (run s1 inputs) as [s2 a2]; simpl in *.
    rewrite in_app_iff. tauto.
Qed.

(** C5, amended.  In every session reachable from a new one, by any
    sequence of method calls, socket events and timers:
    - a waiter that can resolve (its closure is the registered callback)
      is the latest call of [waitForTranscript], so there is at most
      one, and it is outstanding;
    - a call of [waitForTranscript] refuses nothing and settles nothing:
      the new waiter is outstanding and is the one that can resolve,
      every waiter that was outstanding still is, and can resolve no
      more;
    - a waiter is outstanding exactly when its timer is still set;
    - the timer of an outstanding waiter rejects that waiter and no
      other, and unregisters the callback whosever it is;
    - a delivery resolves the registered waiter with the transcript and
      touches no other waiter;
    - a handler resolves no waiter but the registered one, so whatever
      comes next resolves the same waiter; and it rejects no waiter but
      the one whose own timer fires;
    - a waiter stays outstanding through every handler that neither
      resolves it nor rejects it;
    - the registration stays with a waiter until a delivery to it, the
      timer of some waiter, or a later call of [waitForTranscript];
    - an outstanding waiter that is not registered is never resolved,
      whatever happens next: rejection by its timer is its only way
      out. *)
Theorem at_most_one_waiter_can_resolve :
  forall inputs : list input,
    (forall w,
        can_resolve (fst (run new_session inputs)) w ->
        S w = List.length (waiters (fst (run new_session inputs)))
        /\ outstanding (fst (run new_session inputs)) w)
    /\ (forall timeoutMs,
          step (fst (run new_session inputs)) (WaitForTranscript timeoutMs)
          = (waitForTranscript (fst (run new_session inputs)) timeoutMs, [])
          /\ can_resolve (waitForTranscript (fst (run new_session inputs)) timeoutMs)
               (List.length (waiters (fst (run new_session inputs))))
          /\ outstanding (waitForTranscript (fst (run new_session inputs)) timeoutMs)
               (List.length (waiters (fst (run new_session inputs))))
          /\ (forall w,
                outstanding (fst (run new_session inputs)) w ->
                outstanding (waitForTranscript (fst (run new_session inputs)) timeoutMs) w
                /\ ~ can_resolve (waitForTranscript (fst (run new_session inputs)) timeoutMs) w))
    /\ (forall w,
          outstanding (fst (run new_session inputs)) w
          <-> can_reject (fst (run new_session inputs)) w)
    /\ (forall w,
          outstanding (fst (run new_session inputs)) w ->
          snd (step (fst (run new_session inputs)) (TranscriptTimeout w)) = [Reject w]
          /\ nth_error
               (waiters (fst (step (fst (run new_session inputs)) (TranscriptTimeout w)))) w
             = Some {| settled := Rejected; timeout := false |}
          /\ onTranscriptCallback
               (fst (step (fst (run new_session inputs)) (TranscriptTimeout w))) = None
          /\ (forall w', w' <> w ->
                nth_error
                  (waiters (fst (step (fst (run new_session inputs)) (TranscriptTimeout w)))) w'
                = nth_error (waiters (fst (run new_session inputs))) w'))
    /\ (forall w t,
          can_resolve (fst (run new_session inputs)) w ->
          snd (call_onTranscriptCallback (fst (run new_session inputs)) t) = [Resolve w t]
          /\ nth_error
               (waiters (fst (call_onTranscriptCallback (fst (run new_session inputs)) t))) w
             = Some {| settled := Resolved t; timeout := false |}
          /\ onTranscriptCallback
               (fst (call_onTranscriptCallback (fst (run new_session inputs)) t)) = None
          /\ (forall w', w' <> w ->
                nth_error
                  (waiters (fst (call_onTranscriptCallback (fst (run new_session inputs)) t))) w'
                = nth_error (waiters (fst (run new_session inputs))) w'))
    /\ (forall i w t,
          In (Resolve w t) (snd (step (fst (run new_session inputs)) i)) ->
          can_resolve (fst (run new_session inputs)) w)
    /\ (forall i1 w1 t1 i2 w2 t2,
          In (Resolve w1 t1) (snd (step (fst (run new_session inputs)) i1)) ->
          In (Resolve w2 t2) (snd (step (fst (run new_session inputs)) i2)) ->
          w1 = w2)
    /\ (forall i w,
          In (Reject w) (snd (step (fst (run new_session inputs)) i)) ->
          i = TranscriptTimeout w /\ outstanding (fst (run new_session inputs)) w)
    /\ (forall i w,
          outstanding (fst (run new_session inputs)) w ->
          outstanding (fst (step (fst (run new_session inputs)) i)) w
          \/ (exists t, In (Resolve w t) (snd (step (fst (run new_session inputs)) i)))
          \/ In (Reject w) (snd (step (fst (run new_session inputs)) i)))
    /\ (forall i w,
          can_resolve (fst (run new_session inputs)) w ->
          can_resolve (fst (step (fst (run new_session inputs)) i)) w
          \/ (exists t, In (Resolve w t) (snd (step (fst (run new_session inputs)) i)))
          \/ (exists w', In (Reject w') (snd (step (fst (run new_session inputs)) i)))
          \/ (exists timeoutMs, i = WaitForTranscript timeoutMs))
    /\ (forall w more t,
          outstanding (fst (run new_session inputs)) w ->
          ~ can_resolve (fst (run new_session inputs)) w ->
          ~ In (Resolve w t) (snd (run (fst (run new_session inputs)) more))).
Proof.
  intros inputs.
  assert (Hinv : waiters_inv (waiters (fst (run new_session inputs)))
                             (onTranscriptCallback (fst (run new_session inputs)))).
  { apply run_waiters_inv. split; [discriminate|].
    intros [|w] x Hw; discriminate. }
  assert (Hlatest : forall w, onTranscriptCallback (fst (run new_session inputs)) = Some w ->
                              S w = List.length (waiters (fst (run new_session inputs)))).
  { apply run_slot_latest. discriminate. }
  destruct Hinv as [Hcb Hall].
  set (s := fst (run new_session inputs)) in *.
  assert (Hout : forall w, outstanding s w <-> can_reject s w).
  { unfold outstanding, can_reject. intros w; split.
    - intros (x & Hx & Hp). exists x. split; [exact Hx | eapply Hall; eauto].
    - intros (x & Hx & Ht). exists x. split; [exact Hx | eapply Hall; eauto]. }
  split; [|split; [|split; [|split; [|split; [|split; [|split; [|split; [|split; [|split]]]]]]]]].
  - intros w Hw. split; [apply Hlatest; exact Hw|].
    eexists. split; [apply Hcb; exact Hw | reflexivity].
  - intros timeoutMs. split; [reflexivity|].
    unfold can_resolve, outstanding, waitForTranscript. simpl.
    split; [reflexivity|]. split.
    + exists {| settled := Pending; timeout := true |}. split; [|reflexivity].
      rewrite nth_error_app2, Nat.sub_diag by lia. reflexivity.
    + intros w (x & Hx & Hp). split.
      * exists x. split; [|exact Hp].
        rewrite nth_error_app1; [exact Hx | apply nth_error_Some; congruence].
      * intros [= E]. assert (w < List.length (waiters s))%nat
          by (apply nth_error_Some; congruence). lia.
  - exact Hout.
  - intros w (x & Hx & Hp).
    assert (Ht : timeout x = true) by (eapply Hall; eauto).
    assert (Hlt : (w < List.length (waiters s))%nat)
      by (apply nth_error_Some; congruence).
    cbn [step]. unfold transcript_timeout. rewrite Hx, Ht. simpl.
    split; [reflexivity|]. split; [|split; [reflexivity|]].
    + rewrite nth_error_update_eq by exact Hlt.
      unfold reject_waiter. rewrite Hp. reflexivity.
    + intros w' Hne. apply nth_error_update_ne. congruence.
  - intros w t Hw.
    pose proof (Hcb w Hw) as Hx.
    assert (Hlt : (w < List.length (waiters s))%nat)
      by (apply nth_error_Some; congruence).
    unfold can_resolve in Hw.
    unfold call_onTranscriptCallback, transcript_closure. rewrite Hw, Hx. simpl.
    split; [reflexivity|]. split; [|split; [reflexivity|]].
    + rewrite nth_error_update_eq by exact Hlt. reflexivity.
    + intros w' Hne. apply nth_error_update_ne. congruence.
  - intros i w t Hin. eapply step_resolves_registered; eauto.
  - intros i1 w1 t1 i2 w2 t2 H1 H2.
    apply step_resolves_registered in H1. apply step_resolves_registered in H2.
    congruence.
  - intros i w Hin. destruct (step_rejects_own_timer s i w Hin) as [Hi Hr].
    split; [exact Hi | apply Hout; exact Hr].
  - intros i w Hw. apply step_outstanding; exact Hw.
  - intros i w Hw. apply step_registered; exact Hw.
  - intros w more t (x & Hx & _) Hno.
    apply run_unregistered; [apply nth_error_Some; congruence | exact Hno].
Qed.

(** ** The utterance buffer *)

(** The deliveries an action list makes: waiter and text. *)
Definition resolves (acts : list action) : list (nat * string) :=
  flat_map (fun a => match a with Resolve w t => [(w, t)] | _ => [] end) acts.

(** The final segments a sequence of inputs brings: the non-empty
    transcripts of the [Results] messages with [is_final]. *)
Definition final_segment (i : input) : list string :=
  match i with
  | OnMessage _ (Results (Some t) true _) => if Js.truthy t then [t] else []
  | _ => []
  end.

Definition final_segments (inputs : list input) : list string :=
  flat_map final_segment inputs.

(** The buffer that holds the given segments: each one followed by a
    space. *)
Fixpoint buffer_of (segments : list string) : string :=
  match segments with
  | [] => ""
  | t :: rest => t ++ " " ++ buffer_of rest
  end.

(** Inputs that neither deliver nor discard the buffer: everything but
    a [SpeechStarted] message, an [UtteranceEnd] message, and a
    [Results] message with text, [is_final] and [speech_final]. *)
Definition keeps_buffer (i : input) : bool :=
  match i with
  | OnMessage _ SpeechStarted => false
  | OnMessage _ UtteranceEnd => false
  | OnMessage _ (Results (Some t) true true) => negb (Js.truthy t)
  | _ => true
  end.

(** Following the specification's words: final segments accumulate; an
    endpoint (a [Results] with [speech_final], or an [UtteranceEnd])
    delivers the concatenation of the segments accumulated since the
    last delivery, and empties the accumulator. *)
Definition spec_final_segment (e : event) : list string :=
  match e with
  | Results (Some t) true _ => [t]
  | _ => []
  end.

Definition spec_is_endpoint (e : event) : bool :=
  match e with
  | Results _ _ true => true
  | UtteranceEnd => true
  | _ => false
  end.

Fixpoint spec_deliveries (acc : list string) (events : list event) : list string :=
  match events with
  | [] => []
  | e :: rest =>
      let acc1 := acc ++ spec_final_segment e in
      if spec_is_endpoint e
      then Js.join " " acc1 :: spec_deliveries [] rest
      else spec_deliveries acc1 rest
  end.

Lemma resolves_app (xs ys : list action) : resolves (xs ++ ys) = resolves xs ++ resolves ys.
Proof. apply flat_map_app. Qed.

Lemma buffer_of_app (xs ys : list string) :
  buffer_of (xs ++ ys) = (buffer_of xs ++ buffer_of ys)%string.
Proof.
  induction xs as [|t xs IH]; simpl; [reflexivity|].
  rewrite IH, !Js.append_assoc. reflexivity.
Qed.

Example buffer_of_two : Js.trim (buffer_of ["that is"; "all"]%string) = "that is all"%string.
Proof. reflexivity. Qed.

(** A buffer-keeping input appends its final segment, if it brings one,
    and delivers nothing. *)
Lemma step_keeps_buffer (s : session) (i : input) :
  keeps_buffer i = true ->
  pendingTranscript (fst (step s i))
  = (pendingTranscript s ++ buffer_of (final_segment i))%string
  /\ resolves (snd (step s i)) = [].
Proof.
  intros Hi. destruct s.
  destruct i as [| | | | | | k e | | | | |]; simpl in *;
    try (unfold_handlers; simpl; split_tests;
         rewrite ?Js.append_empty_r; split; reflexivity).
  destruct e as [[t|] [|] [|] | | | | |]; simpl in *; try discriminate;
    unfold_handlers; simpl; split_tests;
    rewrite ?Js.append_empty_r; try discriminate; split; reflexivity.
Qed.

Lemma run_keeps_buffer (inputs : list input) (s : session) :
  forallb keeps_buffer inputs = true ->
  pendingTranscript (fst (run s inputs))
  = (pendingTranscript s ++ buffer_of (final_segments inputs))%string
  /\ resolves (snd (run s inputs)) = [].
Proof.
  revert s; induction inputs as [|i inputs IH]; intros s Hin; simpl in *.
  - rewrite Js.append_empty_r. auto.
  - apply andb_prop in Hin as [Hi Hrest].
    destruct (step_keeps_buffer s i Hi) as [Hp Hr].
    destruct (step s i) as [s1 a1]; simpl in *.
    destruct (IH s1 Hrest) as [Hp2 Hr2].
    destruct (run s1 inputs) as [s2 a2]; simpl in *.
    unfold final_segments in *. simpl.
    rewrite resolves_app, Hr, Hr2, Hp2, Hp, buffer_of_app, Js.append_assoc.
    auto.
Qed.

(** What a delivery hands over: the text, to the registered waiter if
    there is one. *)
Definition delivery (s : session) (text : string) : list (nat * string) :=
  match onTranscriptCallback s with
  | Some w => [(w, text)]
  | None => []
  end.

Lemma handleEvent_speech_final (s : session) (t : string) :
  t <> ""%string ->
  pendingTranscript (fst (handleEvent s (Results (Some t) true true))) = ""%string
  /\ resolves (snd (handleEvent s (Results (Some t) true true)))
     = delivery s (Js.trim (pendingTranscript s ++ t ++ " ")).
Proof.
  intros Ht. destruct t as [|c t]; [congruence|].
  destruct s. unfold delivery. unfold_handlers; simpl.
  split_tests; rewrite ?resolves_app; split; reflexivity.
Qed.

Lemma handleEvent_utterance_end (s : session) :
  Js.trim (pendingTranscript s) <> ""%string ->
  pendingTranscript (fst (handleEvent s UtteranceEnd)) = ""%string
  /\ resolves (snd (handleEvent s UtteranceEnd))
     = delivery s (Js.trim (pendingTranscript s)).
Proof.
  intros Ht. destruct s. unfold delivery. unfold_handlers; simpl in *.
  destruct (Js.trim pendingTranscript0) eqn:E; [congruence|]. simpl.
  split_tests; split; reflexivity.
Qed.

(** A connected session with one waiter. *)
Definition listening : session :=
  fst (run new_session [Connect; OnOpen 0; WaitForTranscript 30000]).

(** The speaker pauses after "hello", shorter than the endpointing
    silence, and goes on with "world". *)
Definition speech_restart : list event :=
  [Results (Some "hello"%string) true false;
   SpeechStarted;
   Results (Some "world"%string) true true].

(** C1, as the specification states it, fails: [SpeechStarted] empties
    the buffer without a delivery, so the final segment "hello",
    accumulated since the last delivery, is not part of what the waiter
    receives at the endpoint. *)
Lemma speech_started_drops_final_segments :
  spec_deliveries [] speech_restart = ["hello world"%string]
  /\ resolves (snd (run listening (map (OnMessage 0) speech_restart)))
     = [(0%nat, "world"%string)]
  /\ pendingTranscript (fst (run listening (map (OnMessage 0) speech_restart))) = ""%string.
Proof. repeat split; vm_compute; reflexivity. Qed.

(** [speech_final] on an interim result, or on a result with no text,
    is no endpoint for the code: nothing is delivered and the buffer
    stays. *)
Example speech_final_without_final_text :
  run listening [OnMessage 0 (Results (Some "hi"%string) true false);
                 OnMessage 0 (Results (Some "there"%string) false true);
                 OnMessage 0 (Results (Some ""%string) true true)]
  = (set_pendingTranscript listening "hi ", []).
Proof. vm_compute. reflexivity. Qed.

(** With no waiter registered the endpoint still empties the buffer;
    the utterance is lost. *)
Example endpoint_without_waiter :
  run new_session [Connect; OnOpen 0;
                   OnMessage 0 (Results (Some "hello"%string) true true);
                   WaitForTranscript 30000;
                   OnMessage 0 UtteranceEnd]
  = (listening, [NewWebSocket 0]).
Proof. vm_compute. reflexivity. Qed.

(** C1, amended.  Start from a session whose buffer is empty (a new
    one, or one that has just delivered or seen [SpeechStarted]) and let
    any inputs follow that are neither [SpeechStarted], nor
    [UtteranceEnd], nor a [Results] with text, [is_final] and
    [speech_final].  Then nothing is delivered meanwhile and the buffer
    holds the non-empty [is_final] segments received, in order, each
    followed by a space.  From there:
    - a [Results] with text [t], [is_final] and [speech_final] hands the
      trimmed buffer with [t] appended to the registered waiter, if
      there is one, and leaves the buffer empty;
    - an [UtteranceEnd], when the buffer is not blank, hands the trimmed
      buffer to the registered waiter, if there is one, and leaves the
      buffer empty;
    - a [SpeechStarted] empties the buffer and delivers nothing. *)
Theorem utterance_accumulates_until_endpoint :
  forall (s : session) (inputs : list input),
    pendingTranscript s = ""%string ->
    forallb keeps_buffer inputs = true ->
    pendingTranscript (fst (run s inputs)) = buffer_of (final_segments inputs)
    /\ resolves (snd (run s inputs)) = []
    /\ (forall (k : nat) (t : string),
          t <> ""%string ->
          pendingTranscript
            (fst (step (fst (run s inputs)) (OnMessage k (Results (Some t) true true))))
          = ""%string
          /\ resolves
               (snd (step (fst (run s inputs)) (OnMessage k (Results (Some t) true true))))
             = delivery (fst (run s inputs))
                        (Js.trim (buffer_of (final_segments inputs ++ [t]))))
    /\ (forall k : nat,
          Js.trim (buffer_of (final_segments inputs)) <> ""%string ->
          pendingTranscript (fst (step (fst (run s inputs)) (OnMessage k UtteranceEnd)))
          = ""%string
          /\ resolves (snd (step (fst (run s inputs)) (OnMessage k UtteranceEnd)))
             = delivery (fst (run s inputs))
                        (Js.trim (buffer_of (final_segments inputs))))
    /\ (forall k : nat,
          pendingTranscript (fst (step (fst (run s inputs)) (OnMessage k SpeechStarted)))
          = ""%string
          /\ snd (step (fst (run s inputs)) (OnMessage k SpeechStarted)) = []).
Proof.
  intros s inputs Hempty Hin.
  destruct (run_keeps_buffer inputs s Hin) as [Hp Hr].
  rewrite Hempty in Hp. simpl in Hp.
  repeat split.
  - exact Hp.
  - exact Hr.
  - apply handleEvent_speech_final. assumption.
  - cbn [step]. destruct (handleEvent_speech_final (fst (run s inputs)) t H) as [_ E].
    rewrite E, Hp, buffer_of_app. reflexivity.
  - apply handleEvent_utterance_end. rewrite Hp. assumption.
  - cbn [step]. rewrite <- Hp. apply handleEvent_utterance_end. rewrite Hp. assumption.
Qed.

(** An interim result, two final segments with audio in between, then
    the endpoint: the waiter receives "that is all". *)
Lemma utterance_accumulates_until_endpoint_witness :
  resolves
    (snd (step (fst (run listening
                      [OnMessage 0 (Results (Some "that"%string) false false);
                       OnMessage 0 (Results (Some "that is"%string) true false);
                       SendAudio [x00];
                       OnMessage 0 (Results (Some "all"%string) true false)]))
               (OnMessage 0 UtteranceEnd)))
  = [(0%nat, "that is all"%string)].
Proof.
  destruct (utterance_accumulates_until_endpoint listening
              [OnMessage 0 (Results (Some "that"%string) false false);
               OnMessage 0 (Results (Some "that is"%string) true false);
               SendAudio [x00];
               OnMessage 0 (Results (Some "all"%string) true false)])
    as (_ & _ & _ & Hend & _).
  - reflexivity.
  - reflexivity.
  - destruct (Hend 0%nat) as [_ E].
    + vm_compute. discriminate.
    + rewrite E. vm_compute. reflexivity.
Defined.

End SttDeepgram.

(* ===================================================================== *)
(** * server/src/index-sse.ts *)
(* ===================================================================== *)

Module IndexSse.

(** An [SSEServerTransport] object, by identity. *)
Definition transport : Type := nat.

(** [activeTransports], a [Map<string, SSEServerTransport>]: the entries
    in insertion order, no key twice. *)
Definition Map : Type := list (string * transport).

Fixpoint Map_get (m : Map) (key : string) : option transport :=
  match m with
  | [] => None
  | (k, v) :: rest => if (k =? key)%string then Some v else Map_get rest key
  end.

(** [Map.prototype.set]: an existing key keeps its place. *)
Fixpoint Map_set (m : Map) (key : string) (value : transport) : Map :=
  match m with
  | [] => [(key, value)]
  | (k, v) :: rest =>
      if (k =? key)%string then (k, value) :: rest
      else (k, v) :: Map_set rest key value
  end.

Fixpoint Map_delete (m : Map) (key : string) : Map :=
  match m with
  | [] => []
  | (k, v) :: rest =>
      if (k =? key)%string then rest else (k, v) :: Map_delete rest key
  end.

(** [Array.from(m.values())]. *)
Definition Map_values (m : Map) : list transport := map snd m.

(** [a[a.length - 1]]: [undefined] on the empty array. *)
Fixpoint last_element {A : Type} (a : list A) : option A :=
  match a with
  | [] => None
  | [x] => Some x
  | _ :: rest => last_element rest
  end.

(** What the [/messages] handler does with a request. *)
Inductive response : Type :=
| HandlePostMessage (t : transport)   (* [transport.handlePostMessage(req, res, body)] *)
| Status503.                          (* [{ error: 'No active SSE session' }] *)

(** The [/sse] handler registers the transport under a fresh UUID; the
    'close' of the response removes it. *)
Definition sse_connect (activeTransports : Map) (sessionId : string) (t : transport) : Map :=
  Map_set activeTransports sessionId t.

Definition sse_close (activeTransports : Map) (sessionId : string) : Map :=
  Map_delete activeTransports sessionId.

(** The [/messages] handler, once the body is read.  [sessionId] is
    [url.searchParams.get('sessionId')], [None] for [null]. *)
Definition messages_post (activeTransports : Map) (sessionId : option string) : response :=
  let transport :=
    match sessionId with
    | Some id => if Js.truthy id then Map_get activeTransports id else None
    | None => None
    end in
  let transport :=
    match transport with
    | Some t => Some t
    | None => last_element (Map_values activeTransports)
    end in
  match transport with
  | Some t => HandlePostMessage t
  | None => Status503
  end.

(** The request names no active transport: no [sessionId], an empty
    one, or one that is not a key of the map. *)
Definition no_active_session (activeTransports : Map) (sessionId : option string) : Prop :=
  match sessionId with
  | Some id => id = ""%string \/ Map_get activeTransports id = None
  | None => True
  end.

Lemma last_element_None {A : Type} (a : list A) : last_element a = None -> a = [].
Proof.
  induction a as [|x [|y a] IH]; simpl; intros H; try congruence.
  specialize (IH H). discriminate.
Qed.

Lemma last_element_app {A : Type} (a : list A) (x : A) : last_element (a ++ [x]) = Some x.
Proof.
  induction a as [|y a IH]; simpl; [reflexivity|].
  destruct (a ++ [x]) eqn:E; [destruct a; discriminate | exact IH].
Qed.

(** Two clients are connected. *)
Definition two_sessions : Map :=
  sse_connect (sse_connect [] "session-a" 1%nat) "session-b" 2%nat.

Example post_with_session_id :
  messages_post two_sessions (Some "session-a"%string) = HandlePostMessage 1%nat.
Proof. reflexivity. Qed.

(** C6, as the specification states it, fails: with two clients
    connected, a POST with no [sessionId], and one with a [sessionId]
    that names no active transport, are both handed to the transport of
    the session registered last. *)
Lemma post_without_session_reaches_latest_transport :
  two_sessions = [("session-a"%string, 1%nat); ("session-b"%string, 2%nat)]
  /\ messages_post two_sessions None = HandlePostMessage 2%nat
  /\ Map_get two_sessions "session-x" = None
  /\ messages_post two_sessions (Some "session-x"%string) = HandlePostMessage 2%nat
  /\ messages_post two_sessions None <> Status503.
Proof. repeat split; try reflexivity. discriminate. Qed.

(** C6, amended.  For every POST to /messages whose [sessionId] is
    missing, empty or not the key of an active transport: when at least
    one transport is active the request is handed to the one registered
    last, whichever session it belongs to; it is rejected (status 503)
    exactly when no transport is active; and once another client has
    connected, the same request goes to that client's transport. *)
Theorem post_without_session_falls_back_to_latest :
  forall (activeTransports : Map) (sessionId : option string),
    no_active_session activeTransports sessionId ->
    messages_post activeTransports sessionId
    = match last_element (Map_values activeTransports) with
      | Some t => HandlePostMessage t
      | None => Status503
      end
    /\ (messages_post activeTransports sessionId = Status503 <-> activeTransports = [])
    /\ (forall (id : string) (t : transport),
          Map_get activeTransports id = None ->
          messages_post (sse_connect activeTransports id t) sessionId
          = HandlePostMessage t).
Proof.
  intros m sid Hno.
  assert (E : messages_post m sid
              = match last_element (Map_values m) with
                | Some t => HandlePostMessage t
                | None => Status503
                end).
  { unfold messages_post. destruct sid as [id|]; [|reflexivity].
    destruct (Js.truthy id) eqn:Ht; [|reflexivity].
    destruct Hno as [-> | ->]; [discriminate | reflexivity]. }
  split; [exact E|]. split.
  - rewrite E. split.
    + destruct (last_element (Map_values m)) eqn:L; [discriminate|].
      intros _. apply last_element_None in L.
      destruct m; [reflexivity | discriminate].
    + intros ->. reflexivity.
  - intros id t Hfresh.
    assert (Hset : forall m', Map_get m' id = None -> Map_set m' id t = m' ++ [(id, t)]).
    { induction m' as [|[k v] m' IH]; simpl; [reflexivity|].
      destruct (k =? id)%string; [discriminate|]. intros H. now rewrite IH. }
    assert (Hget : forall m' key, Map_get m' id = None ->
                     Map_get (m' ++ [(id, t)]) key
                     = if (id =? key)%string then Some t else Map_get m' key).
    { induction m' as [|[k v] m' IH]; simpl; intros key H.
      - destruct (id =? key)%string; reflexivity.
      - destruct (String.eqb_spec k id) as [|Hki]; [discriminate|].
        destruct (String.eqb_spec k key) as [->|Hkk].
        + destruct (String.eqb_spec id key); congruence.
        + now apply IH. }
    unfold sse_connect. rewrite (Hset m Hfresh).
    unfold messages_post, Map_values. rewrite map_app. simpl map.
    rewrite last_element_app.
    destruct sid as [key|]; [|reflexivity].
    destruct (Js.truthy key) eqn:Ht; [|reflexivity].
    rewrite (Hget m key Hfresh).
    destruct (id =? key)%string; [reflexivity|].
    destruct Hno as [-> | ->]; [discriminate | reflexivity].
Qed.

Lemma post_without_session_falls_back_to_latest_witness :
  messages_post two_sessions (Some "session-x"%string)
  = match last_element (Map_values two_sessions) with
    | Some t => HandlePostMessage t
    | None => Status503
    end.
Proof.
  apply (post_without_session_falls_back_to_latest two_sessions (Some "session-x"%string)).
  right. reflexivity.
Defined.

Example post_with_no_transport :
  messages_post (sse_close (sse_connect [] "session-a" 1%nat) "session-a") None = Status503.
Proof. reflexivity. Qed.

End IndexSse.

(* ===================================================================== *)
(** * mcp-server/src/phone-call.ts *)
(* ===================================================================== *)

Module PhoneCall.

Inductive status : Type := completed | failed | timeout.

Record CallResult : Type := {
  result_status : status;
  transcript : string;
  duration : Z
}.

(** How the promise of [handleCall] was settled. *)
Inductive outcome : Type :=
| Resolved (r : CallResult)
| Rejected (message : string).

(** An OpenAI Realtime event after [JSON.parse], with the fields
    [handleOpenAIEvent] reads. *)
Record content : Type := { content_type : string; text : string }.
Record item : Type := { item_type : string; item_content : list content }.

Inductive openai_event : Type :=
| TranscriptionCompleted (transcript : string)
    (* 'conversation.item.input_audio_transcription.completed' *)
| ResponseDone (output : option (list item))       (* 'response.done' *)
| ErrorEvent (message : string)                    (* 'error' *)
| OtherEvent.

(** The fields of [VoiceHandler] ([openaiWs] tells whether the socket
    is there), then what lives in the runtime: the [duration] captured
    by each [completeCall] whose 2-second timer is still to fire, and
    the promise returned by [handleCall]. *)
Record VoiceHandler : Type := {
  openaiWs : bool;
  userResponses : list string;
  isComplete : bool;
  startTime : Z;
  completions : list Z;
  settled : option outcome
}.

(** What the event loop may run on the handler.  [now] is the reading
    of [Date.now()] when the message is handled. *)
Inductive input : Type :=
| TwilioMessage                                  (* media from the caller *)
| TwilioClose
| TwilioError (message : string)
| CallTimeout                                    (* the 5-minute timer *)
| OpenAIMessage (now : Z) (e : openai_event)
| OpenAIError (message : string)
| CompletionTimer (i : nat).                     (* the [i]-th pending 2-second timer *)

(** The handler when [handleCall] has returned its promise. *)
Definition new_handler (start : Z) : VoiceHandler :=
  {| openaiWs := true; userResponses := []; isComplete := false;
     startTime := start; completions := []; settled := None |}.

(** [resolve] and [reject] of a promise: the first call settles it. *)
Definition settle (h : VoiceHandler) (o : outcome) : VoiceHandler :=
  {| openaiWs := openaiWs h; userResponses := userResponses h;
     isComplete := isComplete h; startTime := startTime h;
     completions := completions h;
     settled := match settled h with Some o' => Some o' | None => Some o end |}.

Definition cleanup (h : VoiceHandler) : VoiceHandler :=
  {| openaiWs := false; userResponses := userResponses h;
     isComplete := isComplete h; startTime := startTime h;
     completions := completions h; settled := settled h |}.

Definition push_response (h : VoiceHandler) (userText : string) : VoiceHandler :=
  {| openaiWs := openaiWs h; userResponses := userResponses h ++ [userText];
     isComplete := isComplete h; startTime := startTime h;
     completions := completions h; settled := settled h |}.

(** [Math.round(ms / 1000)] for an integer number of milliseconds. *)
Definition round_seconds (ms : Z) : Z := (ms + 500) / 1000.

(** [completeCall] up to its [setTimeout]. *)
Definition completeCall (h : VoiceHandler) (now : Z) : VoiceHandler :=
  {| openaiWs := openaiWs h; userResponses := userResponses h;
     isComplete := true; startTime := startTime h;
     completions := completions h ++ [round_seconds (now - startTime h)];
     settled := settled h |}.

Definition blank_line : string := (Js.LF ++ Js.LF)%string.

(** The callback of the [setTimeout] in [completeCall]. *)
Definition completion_timer (h : VoiceHandler) (duration : Z) : VoiceHandler :=
  let transcript := Js.join blank_line (userResponses h) in
  settle (cleanup h)
    (Resolved {| result_status := completed;
                 transcript := Js.or_else transcript "No response captured";
                 duration := duration |}).

Definition assistantText (output : list item) : string :=
  Js.join " "
    (map (fun it =>
            Js.join " "
              (map text
                 (filter (fun c => (content_type c =? "text")%string) (item_content it))))
         (filter (fun it => (item_type it =? "message")%string) output)).

Definition handleOpenAIEvent (h : VoiceHandler) (now : Z) (e : openai_event) : VoiceHandler :=
  match e with
  | TranscriptionCompleted userText => push_response h userText
  | ResponseDone (Some output) =>
      if Nat.ltb 0 (List.length output) then
        let a := assistantText output in
        if (Js.truthy a
            && (Js.includes (Js.toLowerCase a) "i'll relay this to claude"
                || Js.includes (Js.toLowerCase a) "thank you"))%bool
        then completeCall h now
        else h
      else h
  | ResponseDone None => h
  | ErrorEvent message => settle h (Rejected message)
  | OtherEvent => h
  end.

Fixpoint remove_at {A : Type} (l : list A) (k : nat) : list A :=
  match l, k with
  | [], _ => []
  | _ :: r, O => r
  | y :: r, S k' => y :: remove_at r k'
  end.

Definition set_completions (h : VoiceHandler) (l : list Z) : VoiceHandler :=
  {| openaiWs := openaiWs h; userResponses := userResponses h;
     isComplete := isComplete h; startTime := startTime h;
     completions := l; settled := settled h |}.

(** One turn of the event loop.  Media from the caller is forwarded to
    the OpenAI socket and changes nothing in the handler. *)
Definition step (h : VoiceHandler) (i : input) : VoiceHandler :=
  match i with
  | TwilioMessage => h
  | TwilioClose =>
      let h1 := cleanup h in
      if negb (isComplete h1) then settle h1 (Rejected "Call ended prematurely") else h1
  | TwilioError message => settle (cleanup h) (Rejected message)
  | CallTimeout =>
      if negb (isComplete h)
      then settle (cleanup h) (Rejected "Call timeout after 5 minutes")
      else h
  | OpenAIMessage now e => handleOpenAIEvent h now e
  | OpenAIError message => settle h (Rejected message)
  | CompletionTimer i =>
      match nth_error (completions h) i with
      | Some duration =>
          completion_timer (set_completions h (remove_at (completions h) i)) duration
      | None => h
      end
  end.

Definition run (h : VoiceHandler) (inputs : list input) : VoiceHandler :=
  fold_left step inputs h.

(** [makePhoneCall] passes on what [handleCall] settles with:
    [handler.handleCall(ws).then(result => resolve(result))]. *)
Definition makePhoneCall (start : Z) (inputs : list input) : option outcome :=
  settled (run (new_handler start) inputs).

(** The texts of the user's transcription events, in arrival order. *)
Definition transcription (i : input) : list string :=
  match i with
  | OpenAIMessage _ (TranscriptionCompleted userText) => [userText]
  | _ => []
  end.

Definition transcriptions (inputs : list input) : list string :=
  flat_map transcription inputs.

Definition thank_you : openai_event :=
  ResponseDone
    (Some [{| item_type := "message";
              item_content := [{| content_type := "text";
                                  text := "Thank you, I'll relay this to Claude" |}] |}]).

(** ** The transcript of a completed call *)

Lemma join_empty_iff (sep : string) (l : list string) :
  sep <> ""%string ->
  (Js.join sep l = ""%string <-> l = [] \/ l = [""%string]).
Proof.
  intros Hsep. split.
  - destruct l as [|x [|y l]]; simpl; intros H.
    + left; reflexivity.
    + right; now subst.
    + apply Js.append_eq_empty in H as [_ H].
      apply Js.append_eq_empty in H as [H _]. contradiction.
  - intros [-> | ->]; reflexivity.
Qed.

(** A settled promise stays as it is. *)
Lemma step_settled (h : VoiceHandler) (i : input) (o : outcome) :
  settled h = Some o -> settled (step h i) = Some o.
Proof.
  intros H. destruct h; simpl in H; subst.
  destruct i as [| | | | now e | |k]; simpl; try reflexivity.
  - destruct isComplete0; reflexivity.
  - destruct isComplete0; reflexivity.
  - destruct e as [t|[output|]|m|]; simpl; try reflexivity.
    destruct (Nat.ltb 0 (List.length output)); [|reflexivity].
    match goal with |- context [if ?c then _ else _] => destruct c end; reflexivity.
  - destruct (nth_error completions0 k); reflexivity.
Qed.

Lemma run_settled (inputs : list input) (h : VoiceHandler) (o : outcome) :
  settled h = Some o -> settled (run h inputs) = Some o.
Proof.
  revert h; induction inputs as [|i inputs IH]; intros h H; simpl.
  - exact H.
  - apply IH. apply step_settled. exact H.
Qed.

(** The result a 2-second timer resolves with, given the responses
    pushed so far. *)
Definition completed_result (responses : list string) (d : Z) : CallResult :=
  {| result_status := completed;
     transcript := Js.or_else (Js.join blank_line responses) "No response captured";
     duration := d |}.

(** While the promise is pending a handler either leaves it pending and
    pushes the transcription it handles, if any; or rejects; or is a
    2-second timer and resolves with the responses pushed so far. *)
Lemma step_pending (h : VoiceHandler) (i : input) :
  settled h = None ->
  (settled (step h i) = None
   /\ userResponses (step h i) = userResponses h ++ transcription i)
  \/ (exists m, settled (step h i) = Some (Rejected m))
  \/ (exists k d, i = CompletionTimer k
                  /\ settled (step h i) = Some (Resolved (completed_result (userResponses h) d))).
Proof.
  intros H. destruct h; simpl in H; subst.
  destruct i as [| |m| | now e |m|k]; simpl; rewrite ?app_nil_r.
  - left; split; reflexivity.
  - destruct isComplete0; simpl; [left; split; reflexivity | right; left; eauto].
  - right; left; eauto.
  - destruct isComplete0; simpl; [left; split; reflexivity | right; left; eauto].
  - destruct e as [t|[output|]|m|]; simpl; rewrite ?app_nil_r;
      try (left; split; reflexivity).
    + destruct (Nat.ltb 0 (List.length output)); [|left; split; reflexivity].
      match goal with |- context [if ?c then _ else _] => destruct c end;
        left; split; reflexivity.
    + right; left; eauto.
  - right; left; eauto.
  - destruct (nth_error completions0 k) as [d|]; simpl.
    + right; right. exists k, d. split; reflexivity.
    + left; split; reflexivity.
Qed.

Lemma run_resolved (inputs : list input) (h : VoiceHandler) (r : CallResult) :
  settled h = None ->
  settled (run h inputs) = Some (Resolved r) ->
  exists pre k post d,
    inputs = pre ++ CompletionTimer k :: post
    /\ r = completed_result (userResponses h ++ transcriptions pre) d.
Proof.
  revert h; induction inputs as [|i inputs IH]; intros h Hnone Hres; simpl in *.
  - congruence.
  - destruct (step_pending h i Hnone) as [[Hn Hu] | [[m Hm] | (k & d & -> & Hr)]].
    + destruct (IH _ Hn Hres) as (pre & k & post & d & -> & ->).
      exists (i :: pre), k, post, d. split; [reflexivity|].
      rewrite Hu. unfold transcriptions. simpl. now rewrite app_assoc.
    + rewrite (run_settled inputs _ _ Hm) in Hres. discriminate.
    + rewrite (run_settled inputs _ _ Hr) in Hres. injection Hres as <-.
      exists [], k, inputs, d. split; [reflexivity|].
      unfold transcriptions. simpl. now rewrite app_nil_r.
Qed.

(** One transcription event with an empty text, then the assistant's
    closing words. *)
Definition silent_call : list input :=
  [OpenAIMessage 1000 (TranscriptionCompleted "");
   OpenAIMessage 9000 thank_you;
   CompletionTimer 0].

(** C9, as stated, fails: a transcription event was received, the texts
    joined by blank lines are the empty string, and the transcript
    returned is 'No response captured'. *)
Lemma empty_transcription_reported_as_no_response :
  transcriptions silent_call = [""%string]
  /\ Js.join blank_line (transcriptions silent_call) = ""%string
  /\ makePhoneCall 0 silent_call
     = Some (Resolved {| result_status := completed;
                         transcript := "No response captured";
                         duration := 9 |})
  /\ "No response captured"%string <> Js.join blank_line (transcriptions silent_call).
Proof. repeat split; try (vm_compute; reflexivity). vm_compute. discriminate. Qed.

(** C9, amended.  Whenever [makePhoneCall] resolves, it is with status
    [completed] and by a 2-second timer of [completeCall]; the
    transcript is the texts of the user's transcription events handled
    before that timer fired, in arrival order, joined by blank lines,
    or the string 'No response captured' when that joined text is
    empty, which is the case exactly when there was no such event or a
    single one with an empty text. *)
Theorem completed_transcript_is_joined_responses :
  forall (start : Z) (inputs : list input) (r : CallResult),
    makePhoneCall start inputs = Some (Resolved r) ->
    result_status r = completed
    /\ exists (pre : list input) (k : nat) (post : list input),
         inputs = pre ++ CompletionTimer k :: post
         /\ transcript r
            = (if Js.truthy (Js.join blank_line (transcriptions pre))
               then Js.join blank_line (transcriptions pre)
               else "No response captured"%string)
         /\ (Js.truthy (Js.join blank_line (transcriptions pre)) = false
             <-> transcriptions pre = [] \/ transcriptions pre = [""%string]).
Proof.
  intros start inputs r H. unfold makePhoneCall in H.
  destruct (run_resolved inputs (new_handler start) r eq_refl H)
    as (pre & k & post & d & Hin & ->).
  split; [reflexivity|].
  exists pre, k, post. split; [exact Hin|]. split.
  - reflexivity.
  - rewrite Js.truthy_false_iff. apply join_empty_iff. discriminate.
Qed.

Definition two_answers : list input :=
  [OpenAIMessage 1000 (TranscriptionCompleted "use postgres");
   TwilioMessage;
   OpenAIMessage 2000 (TranscriptionCompleted "yes");
   OpenAIMessage 9000 thank_you;
   CompletionTimer 0].

Lemma completed_transcript_is_joined_responses_witness :
  result_status {| result_status := completed;
                   transcript := "use postgres" ++ blank_line ++ "yes";
                   duration := 9 |} = completed
  /\ exists (pre : list input) (k : nat) (post : list input),
       two_answers = pre ++ CompletionTimer k :: post
       /\ transcript {| result_status := completed;
                        transcript := "use postgres" ++ blank_line ++ "yes";
                        duration := 9 |}
          = (if Js.truthy (Js.join blank_line (transcriptions pre))
             then Js.join blank_line (transcriptions pre)
             else "No response captured"%string)
       /\ (Js.truthy (Js.join blank_line (transcriptions pre)) = false
           <-> transcriptions pre = [] \/ transcriptions pre = [""%string]).
Proof.
  apply (completed_transcript_is_joined_responses 0 two_answers).
  vm_compute. reflexivity.
Defined.

Example no_transcription_event :
  makePhoneCall 0 [OpenAIMessage 9000 thank_you; CompletionTimer 0]
  = Some (Resolved (completed_result [] 9)).
Proof. vm_compute. reflexivity. Qed.

Example hangup_before_completion :
  makePhoneCall 0 [OpenAIMessage 1000 (TranscriptionCompleted "yes"); TwilioClose]
  = Some (Rejected "Call ended prematurely").
Proof. vm_compute. reflexivity. Qed.

End PhoneCall.

(* ===================================================================== *)
(** * Configuration from the environment *)
(* ===================================================================== *)

Module Env.

(** [process.env]: a variable is a string or [undefined]. *)
Definition env : Type := string -> option string.

(** [process.env.X || d]. *)
Definition get_or (e : env) (key d : string) : string := TtsOpenAI.string_or (e key) d.

(** Truthiness of [process.env.X]. *)
Definition is_set (e : env) (key : string) : bool :=
  match e key with
  | Some s => Js.truthy s
  | None => false
  end.

Definition digit_value (c : ascii) : option Z :=
  let n := nat_of_ascii c in
  if (Nat.leb 48 n && Nat.leb n 57)%bool then Some (Z.of_nat (n - 48)) else None.

(** The value of the longest prefix of decimal digits; [acc] is the
    value of the digits read so far, [None] when none was read. *)
Fixpoint digits_prefix (s : string) (acc : option Z) : option Z :=
  match s with
  | EmptyString => acc
  | String c r =>
      match digit_value c with
      | Some d => digits_prefix r (Some (10 * match acc with Some a => a | None => 0 end + d))
      | None => acc
      end
  end.

(** [parseInt(s, 10)]: leading white space is skipped, one sign is
    read, then the longest run of decimal digits; NaN when there is no
    digit.  The result here is the integer that was read.  [parseInt]
    returns the double nearest to it: the same integer up to 2^53 in
    magnitude, a rounded one beyond, Infinity beyond the range of
    doubles ([exactly_parsed] below tells the first case). *)
Definition parseInt10 (s : string) : Billing.num :=
  let s1 := Js.trimStart s in
  let '(negative, s2) :=
    match s1 with
    | String "-"%char r => (true, r)
    | String "+"%char r => (false, r)
    | _ => (false, s1)
    end in
  match digits_prefix s2 None with
  | Some v => Billing.Int (if negative then - v else v)
  | None => Billing.NaN
  end.

Example parseInt10_examples :
  parseInt10 "60" = Billing.Int 60
  /\ parseInt10 "  -15px" = Billing.Int (-15)
  /\ parseInt10 "0x10" = Billing.Int 0
  /\ parseInt10 "sixty" = Billing.NaN
  /\ parseInt10 "" = Billing.NaN
  /\ parseInt10 "+ 5" = Billing.NaN.
Proof. repeat split; reflexivity. Qed.

(** The integers from -2^53 to 2^53 are doubles, and every operation
    on doubles whose exact result is one of them returns it. *)
Definition exact_double (n : Z) : bool := (Z.abs n <=? 2 ^ 53)%Z.

(** [parseInt(s, 10)] returns what [parseInt10 s] gives: NaN, or an
    integer that is a double. *)
Definition exactly_parsed (s : string) : bool :=
  match parseInt10 s with
  | Billing.Int v => exact_double v
  | Billing.NaN => true
  end.

Example exactly_parsed_examples :
  exactly_parsed "1200ms" = true
  /\ exactly_parsed "9007199254740992" = true
  /\ exactly_parsed "9007199254740993" = false
  /\ exactly_parsed "soon" = true.
Proof. repeat split; reflexivity. Qed.

(** An environment given by its bindings. *)
Fixpoint of_list (l : list (string * string)) : env :=
  fun key =>
    match l with
    | [] => None
    | (k, v) :: rest => if (k =? key)%string then Some v else of_list rest key
    end.

End Env.

(* ===================================================================== *)
(** * server/src/billing.ts: the plan read from the environment *)
(* ===================================================================== *)

Module BillingConfig.

Import Billing.

Local Open Scope string_scope.

(** [loadBillingConfig]: the new value of the module-level [plan]. *)
Definition loadBillingConfig (e : Env.env) : SubscriptionPlan :=
  {| monthlyPriceCents := Env.parseInt10 (Env.get_or e "MONTHLY_PRICE_CENTS" "2000");
     monthlyMinutes := Env.parseInt10 (Env.get_or e "MONTHLY_MINUTES" "60") |}.

Definition getMonthlyPriceCents (plan : SubscriptionPlan) : num := monthlyPriceCents plan.

(** With [MONTHLY_MINUTES] unset or empty the plan has 60 minutes: a
    user has minutes left exactly below 60 minutes of use; and when the
    minutes used and [60 - minutesUsed] are both integers that doubles
    hold exactly (up to 2^53 in magnitude), what is left is
    [60 - minutesUsed], never less than 0. *)
Theorem unset_monthly_minutes_means_sixty :
  forall (e : Env.env) (minutesUsed : Z),
    Env.is_set e "MONTHLY_MINUTES" = false ->
    getMonthlyMinutes (loadBillingConfig e) = Int 60
    /\ hasMinutesRemaining (loadBillingConfig e) (Int minutesUsed) = (minutesUsed <? 60)%Z
    /\ (Env.exact_double minutesUsed = true ->
        Env.exact_double (60 - minutesUsed) = true ->
        getMinutesRemaining (loadBillingConfig e) (Int minutesUsed)
        = Int (Z.max 0 (60 - minutesUsed))).
Proof.
  intros e u Hset.
  assert (E : monthlyMinutes (loadBillingConfig e) = Int 60).
  { unfold loadBillingConfig, Env.get_or, Env.is_set, TtsOpenAI.string_or in *. simpl.
    destruct (e "MONTHLY_MINUTES"%string) as [s|]; [|reflexivity].
    unfold Js.or_else. rewrite Hset. reflexivity. }
  unfold getMonthlyMinutes, hasMinutesRemaining, getMinutesRemaining.
  rewrite E. repeat split.
Qed.

Lemma unset_monthly_minutes_means_sixty_witness :
  getMonthlyMinutes (loadBillingConfig (Env.of_list [("MONTHLY_MINUTES", "")])) = Int 60
  /\ hasMinutesRemaining (loadBillingConfig (Env.of_list [("MONTHLY_MINUTES", "")])) (Int 59)
     = (59 <? 60)%Z
  /\ getMinutesRemaining (loadBillingConfig (Env.of_list [("MONTHLY_MINUTES", "")])) (Int 59)
     = Int (Z.max 0 (60 - 59)).
Proof.
  destruct (unset_monthly_minutes_means_sixty (Env.of_list [("MONTHLY_MINUTES", "")]) 59)
    as (Hsixty & Hhas & Hleft).
  - reflexivity.
  - split; [exact Hsixty|]. split; [exact Hhas|].
    apply Hleft; reflexivity.
Defined.

(** A [MONTHLY_MINUTES] that does not begin with an integer makes the
    allowance NaN: then nobody has minutes remaining, whatever the use,
    and the minutes remaining are NaN as well. *)
Theorem unreadable_monthly_minutes_locks_everyone_out :
  forall (e : Env.env) (text : string) (minutesUsed : num),
    e "MONTHLY_MINUTES"%string = Some text ->
    text <> ""%string ->
    Env.parseInt10 text = NaN ->
    hasMinutesRemaining (loadBillingConfig e) minutesUsed = false
    /\ getMinutesRemaining (loadBillingConfig e) minutesUsed = NaN.
Proof.
  intros e text u He Hne Hnan.
  assert (E : monthlyMinutes (loadBillingConfig e) = NaN).
  { unfold loadBillingConfig, Env.get_or, TtsOpenAI.string_or. simpl. rewrite He.
    unfold Js.or_else. destruct text; [congruence|]. simpl Js.truthy. cbv iota.
    exact Hnan. }
  unfold hasMinutesRemaining, getMinutesRemaining. rewrite E.
  destruct u; split; reflexivity.
Qed.

Lemma unreadable_monthly_minutes_locks_everyone_out_witness :
  hasMinutesRemaining (loadBillingConfig (Env.of_list [("MONTHLY_MINUTES", "sixty")])) (Int 0)
  = false
  /\ getMinutesRemaining (loadBillingConfig (Env.of_list [("MONTHLY_MINUTES", "sixty")])) (Int 0)
     = NaN.
Proof.
  apply (unreadable_monthly_minutes_locks_everyone_out
           (Env.of_list [("MONTHLY_MINUTES", "sixty")]) "sixty" (Int 0)).
  - reflexivity.
  - discriminate.
  - reflexivity.
Defined.

End BillingConfig.

(* ===================================================================== *)
(** * server/src/providers/index.ts and the Deepgram provider *)
(* ===================================================================== *)

Module Providers.

Import Billing.

Local Open Scope string_scope.

(** ** [DeepgramSTTProvider] (stt-deepgram.ts) *)

Record STTConfig : Type := {
  stt_apiKey : string;
  stt_model : option string;
  stt_silenceDurationMs : option num
}.

Record DeepgramSTTProvider : Type := {
  dg_apiKey : option string;
  dg_model : string;
  dg_silenceDurationMs : num
}.

(** The field initialisers of the class. *)
Definition new_DeepgramSTTProvider : DeepgramSTTProvider :=
  {| dg_apiKey := None; dg_model := "nova-2"; dg_silenceDurationMs := Int 800 |}.

(** [x || d] on an optional number: 0 and NaN are falsy. *)
Definition num_or (x : option num) (d : num) : num :=
  match x with
  | Some (Int n) => if (n =? 0)%Z then d else Int n
  | Some NaN => d
  | None => d
  end.

(** [initialize]: [None] when it throws. *)
Definition dg_initialize (p : DeepgramSTTProvider) (config : STTConfig)
  : option DeepgramSTTProvider :=
  if negb (Js.truthy (stt_apiKey config)) then None
  else Some {| dg_apiKey := Some (stt_apiKey config);
               dg_model := TtsOpenAI.string_or (stt_model config) "nova-2";
               dg_silenceDurationMs := num_or (stt_silenceDurationMs config) (Int 800) |}.

(** What [new DeepgramSTTSession(apiKey, model, silenceDurationMs)]
    holds: the three constructor arguments and the session state. *)
Record DeepgramSTTSession : Type := {
  session_apiKey : string;
  session_model : string;
  session_silenceDurationMs : num;
  session_state : SttDeepgram.session
}.

(** [createSession]: [None] when it throws. *)
Definition createSession (p : DeepgramSTTProvider) : option DeepgramSTTSession :=
  match dg_apiKey p with
  | Some key =>
      if Js.truthy key
      then Some {| session_apiKey := key; session_model := dg_model p;
                   session_silenceDurationMs := dg_silenceDurationMs p;
                   session_state := SttDeepgram.new_session |}
      else None
  | None => None
  end.

(** ** The factory (providers/index.ts) *)

Record ProviderConfig : Type := {
  phoneProvider : string;
  phoneAccountSid : string;
  phoneAuthToken : string;
  phoneNumber : string;
  telnyxPublicKey : option string;
  openaiApiKey : string;
  ttsVoice : option string;
  ttsApiKey : option string;
  ttsBaseUrl : option string;
  sttProvider : string;
  sttApiKey : option string;
  sttModel : option string;
  sttSilenceDurationMs : option num
}.

Definition loadProviderConfig (e : Env.env) : ProviderConfig :=
  let sttSilenceDurationMs :=
    match e "CALLME_STT_SILENCE_DURATION_MS" with
    | Some s => if Js.truthy s then Some (Env.parseInt10 s) else None
    | None => None
    end in
  let phoneProvider := Env.get_or e "CALLME_PHONE_PROVIDER" "telnyx" in
  let sttProvider :=
    Env.get_or e "CALLME_STT_PROVIDER"
      (if Env.is_set e "CALLME_STT_API_KEY" then "deepgram" else "openai") in
  let defaultSttModel :=
    if sttProvider =? "deepgram" then "nova-2" else "gpt-4o-transcribe" in
  {| phoneProvider := phoneProvider;
     phoneAccountSid := Env.get_or e "CALLME_PHONE_ACCOUNT_SID" "";
     phoneAuthToken := Env.get_or e "CALLME_PHONE_AUTH_TOKEN" "";
     phoneNumber := Env.get_or e "CALLME_PHONE_NUMBER" "";
     telnyxPublicKey := e "CALLME_TELNYX_PUBLIC_KEY";
     openaiApiKey := Env.get_or e "CALLME_OPENAI_API_KEY" "";
     ttsVoice := Some (Env.get_or e "CALLME_TTS_VOICE" "onyx");
     ttsApiKey := e "CALLME_TTS_API_KEY";
     ttsBaseUrl := e "CALLME_TTS_BASE_URL";
     sttProvider := sttProvider;
     sttApiKey := e "CALLME_STT_API_KEY";
     sttModel := Some (Env.get_or e "CALLME_STT_MODEL" defaultSttModel);
     sttSilenceDurationMs := sttSilenceDurationMs |}.

(** [createTTSProvider]: [None] when [initialize] throws. *)
Definition createTTSProvider (config : ProviderConfig) : option TtsOpenAI.OpenAITTSProvider :=
  TtsOpenAI.initialize TtsOpenAI.new_provider
    {| TtsOpenAI.apiKey := TtsOpenAI.string_or (ttsApiKey config) (openaiApiKey config);
       TtsOpenAI.apiUrl := ttsBaseUrl config;
       TtsOpenAI.cfg_voice := ttsVoice config;
       TtsOpenAI.cfg_model := None;
       TtsOpenAI.sampleRate := None |}.

Definition stt_config (config : ProviderConfig) : STTConfig :=
  {| stt_apiKey := TtsOpenAI.string_or (sttApiKey config) (openaiApiKey config);
     stt_model := sttModel config;
     stt_silenceDurationMs := sttSilenceDurationMs config |}.

Section Factory.

(** [OpenAIRealtimeSTTProvider] is defined in stt-openai-realtime.ts,
    which is not among the files at hand: the type of its instances once
    initialised and its [initialize] applied to a new instance ([None]
    when it throws) are left open. *)
Variable OpenAIRealtimeSTTProvider : Type.
Variable openai_initialize : STTConfig -> option OpenAIRealtimeSTTProvider.

(** The provider [createSTTProvider] builds. *)
Inductive STTProvider : Type :=
| Deepgram (p : DeepgramSTTProvider)
| OpenAIRealtime (p : OpenAIRealtimeSTTProvider).

(** [createSTTProvider]: [None] when the [initialize] it calls throws. *)
Definition createSTTProvider (config : ProviderConfig) : option STTProvider :=
  if sttProvider config =? "deepgram" then
    match dg_initialize new_DeepgramSTTProvider (stt_config config) with
    | Some p => Some (Deepgram p)
    | None => None
    end
  else
    match openai_initialize (stt_config config) with
    | Some p => Some (OpenAIRealtime p)
    | None => None
    end.

End Factory.

Arguments Deepgram {OpenAIRealtimeSTTProvider} p.
Arguments OpenAIRealtime {OpenAIRealtimeSTTProvider} p.
Arguments createSTTProvider {OpenAIRealtimeSTTProvider} openai_initialize config.

Definition credentialDesc (config : ProviderConfig) : string * string :=
  if phoneProvider config =? "twilio"
  then ("Twilio Account SID", "Twilio Auth Token")
  else ("Telnyx Connection ID", "Telnyx API Key").

Definition push_if (cond : bool) (msg : string) (errors : list string) : list string :=
  if cond then (errors ++ [msg])%list else errors.

Definition validateProviderConfig (config : ProviderConfig) : list string :=
  let errors := [] in
  let errors :=
    push_if (negb (Js.truthy (phoneAccountSid config)))
      ("Missing CALLME_PHONE_ACCOUNT_SID (" ++ fst (credentialDesc config) ++ ")") errors in
  let errors :=
    push_if (negb (Js.truthy (phoneAuthToken config)))
      ("Missing CALLME_PHONE_AUTH_TOKEN (" ++ snd (credentialDesc config) ++ ")") errors in
  let errors :=
    push_if (negb (Js.truthy (phoneNumber config))) "Missing CALLME_PHONE_NUMBER" errors in
  let hasTtsKey := TtsOpenAI.string_or (ttsApiKey config) (openaiApiKey config) in
  let errors :=
    push_if (negb (Js.truthy hasTtsKey))
      "Missing TTS API key (set CALLME_TTS_API_KEY or CALLME_OPENAI_API_KEY)" errors in
  let hasSttKey := TtsOpenAI.string_or (sttApiKey config) (openaiApiKey config) in
  push_if (negb (Js.truthy hasSttKey))
    "Missing STT API key (set CALLME_STT_API_KEY or CALLME_OPENAI_API_KEY)" errors.

(** An optional key that is there and not empty. *)
Definition present (x : option string) : bool :=
  match x with
  | Some s => Js.truthy s
  | None => false
  end.

(** ** Properties *)

Lemma truthy_or_else (a b : string) :
  Js.truthy (Js.or_else a b) = (Js.truthy a || Js.truthy b)%bool.
Proof. unfold Js.or_else. destruct a; reflexivity. Qed.

Lemma truthy_string_or (x : option string) (d : string) :
  Js.truthy (TtsOpenAI.string_or x d) = (present x || Js.truthy d)%bool.
Proof. destruct x as [s|]; simpl; [apply truthy_or_else | reflexivity]. Qed.

Lemma validate_nil_iff (config : ProviderConfig) :
  validateProviderConfig config = []
  <-> (Js.truthy (phoneAccountSid config) = true
       /\ Js.truthy (phoneAuthToken config) = true
       /\ Js.truthy (phoneNumber config) = true
       /\ (Js.truthy (openaiApiKey config) = true
           \/ (present (ttsApiKey config) = true /\ present (sttApiKey config) = true))).
Proof.
  unfold validateProviderConfig, push_if.
  rewrite !truthy_string_or.
  destruct (Js.truthy (phoneAccountSid config)), (Js.truthy (phoneAuthToken config)),
    (Js.truthy (phoneNumber config)), (Js.truthy (openaiApiKey config)),
    (present (ttsApiKey config)), (present (sttApiKey config)); simpl;
    split; intros H; try discriminate; try tauto;
    try (destruct H as (? & ? & ? & [? | [? ?]]); discriminate).
Qed.

(** [validateProviderConfig] reports nothing exactly when the three
    phone settings are non-empty and each of TTS and STT has a key: its
    own, or the OpenAI key as the fallback for both.  It never reports
    more than five problems. *)
Theorem validateProviderConfig_accepts_iff :
  forall config : ProviderConfig,
    (validateProviderConfig config = []
     <-> (Js.truthy (phoneAccountSid config) = true
          /\ Js.truthy (phoneAuthToken config) = true
          /\ Js.truthy (phoneNumber config) = true
          /\ (Js.truthy (openaiApiKey config) = true
              \/ (present (ttsApiKey config) = true /\ present (sttApiKey config) = true))))
    /\ (List.length (validateProviderConfig config) <= 5)%nat.
Proof.
  intros config. split; [apply validate_nil_iff|].
  unfold validateProviderConfig, push_if.
  repeat match goal with
         | |- context [if ?c then _ else _] => destruct c
         end; simpl; lia.
Qed.

(** A configuration that [validateProviderConfig] accepts lets the
    factory build its TTS provider without a throw.  When its STT
    provider is "deepgram" the factory builds a Deepgram provider
    without a throw, and that provider can create sessions, which hold
    the key of the configuration.  For any other STT provider the
    factory returns what the [initialize] of the OpenAI Realtime
    provider builds, and throws when it throws; the key it is given is
    not empty. *)
Theorem validated_config_builds_providers :
  forall (OpenAIRealtimeSTTProvider : Type)
         (openai_initialize : STTConfig -> option OpenAIRealtimeSTTProvider)
         (config : ProviderConfig),
    validateProviderConfig config = [] ->
    (exists tts, createTTSProvider config = Some tts /\ TtsOpenAI.client tts = true)
    /\ Js.truthy (stt_apiKey (stt_config config)) = true
    /\ (sttProvider config = "deepgram" ->
        exists p session,
          createSTTProvider openai_initialize config = Some (Deepgram p)
          /\ createSession p = Some session
          /\ session_apiKey session = stt_apiKey (stt_config config))
    /\ (sttProvider config <> "deepgram" ->
        createSTTProvider openai_initialize config
        = match openai_initialize (stt_config config) with
          | Some p => Some (OpenAIRealtime p)
          | None => None
          end).
Proof.
  intros P init config Hv. apply validate_nil_iff in Hv.
  destruct Hv as (_ & _ & _ & Hkeys).
  assert (Htts : Js.truthy (TtsOpenAI.string_or (ttsApiKey config) (openaiApiKey config)) = true).
  { rewrite truthy_string_or. destruct Hkeys as [-> | [-> _]]; [apply orb_true_r | reflexivity]. }
  assert (Hstt : Js.truthy (TtsOpenAI.string_or (sttApiKey config) (openaiApiKey config)) = true).
  { rewrite truthy_string_or. destruct Hkeys as [-> | [_ ->]]; [apply orb_true_r | reflexivity]. }
  split; [|split; [exact Hstt|split]].
  - unfold createTTSProvider, TtsOpenAI.initialize. simpl. rewrite Htts. simpl.
    eexists. split; reflexivity.
  - intros Hdg. unfold createSTTProvider, dg_initialize, stt_config. simpl.
    rewrite Hdg. simpl. rewrite Hstt. simpl.
    eexists. eexists. split; [reflexivity|].
    unfold createSession. simpl. rewrite Hstt. split; reflexivity.
  - intros Hdg. unfold createSTTProvider.
    destruct (String.eqb_spec (sttProvider config) "deepgram"); [contradiction | reflexivity].
Qed.

Definition openai_only : ProviderConfig :=
  {| phoneProvider := "telnyx"; phoneAccountSid := "conn-1"; phoneAuthToken := "KEY1";
     phoneNumber := "+15550100"; telnyxPublicKey := None; openaiApiKey := "sk-1";
     ttsVoice := None; ttsApiKey := None; ttsBaseUrl := None;
     sttProvider := "deepgram"; sttApiKey := None; sttModel := None;
     sttSilenceDurationMs := None |}.

(** An [initialize] that keeps the configuration and throws on an empty
    key, to run the factory with. *)
Definition keeps_config (config : STTConfig) : option STTConfig :=
  if Js.truthy (stt_apiKey config) then Some config else None.

Lemma validated_config_builds_providers_witness :
  (exists tts, createTTSProvider openai_only = Some tts /\ TtsOpenAI.client tts = true)
  /\ Js.truthy (stt_apiKey (stt_config openai_only)) = true
  /\ (exists p session,
        createSTTProvider keeps_config openai_only = Some (Deepgram p)
        /\ createSession p = Some session
        /\ session_apiKey session = stt_apiKey (stt_config openai_only)).
Proof.
  destruct (validated_config_builds_providers STTConfig keeps_config openai_only)
    as (Htts & Hkey & Hdg & _).
  - reflexivity.
  - split; [exact Htts|]. split; [exact Hkey|]. apply Hdg. reflexivity.
Defined.

(** Without an API key the Deepgram provider refuses to initialise, and
    a provider that was never initialised refuses to create a session. *)
Example deepgram_needs_key :
  dg_initialize new_DeepgramSTTProvider
    {| stt_apiKey := ""; stt_model := None; stt_silenceDurationMs := None |} = None
  /\ createSession new_DeepgramSTTProvider = None.
Proof. split; reflexivity. Qed.

(** The TTS provider the factory builds always runs at 24000 Hz with
    model tts-1 and a non-empty voice, whatever the configuration: the
    factory passes neither a sample rate nor a model.  It asks for WAV
    exactly when the base URL contains "lemonfox". *)
Theorem createTTSProvider_defaults :
  forall (config : ProviderConfig) (tts : TtsOpenAI.OpenAITTSProvider),
    createTTSProvider config = Some tts ->
    TtsOpenAI._sampleRate tts = 24000%Z
    /\ TtsOpenAI.model tts = "tts-1"
    /\ TtsOpenAI.voice tts <> ""
    /\ TtsOpenAI.useWav tts
       = match ttsBaseUrl config with
         | Some url => Js.includes url "lemonfox"
         | None => false
         end.
Proof.
  intros config tts H. unfold createTTSProvider, TtsOpenAI.initialize in H. simpl in H.
  destruct (negb _); [discriminate|]. injection H as <-.
  unfold TtsOpenAI.useWav. simpl. repeat split.
  - unfold TtsOpenAI.string_or, Js.or_else.
    destruct (ttsVoice config) as [[|c v]|]; simpl; discriminate.
  - destruct (ttsBaseUrl config) as [url|]; [|reflexivity].
    destruct (Js.includes url "lemonfox"); reflexivity.
Qed.

Lemma createTTSProvider_defaults_witness :
  TtsOpenAI._sampleRate TtsOpenAI.openai = 24000%Z
  /\ TtsOpenAI.model TtsOpenAI.openai = "tts-1"
  /\ TtsOpenAI.voice TtsOpenAI.openai <> ""
  /\ TtsOpenAI.useWav TtsOpenAI.openai
     = match ttsBaseUrl openai_only with
       | Some url => Js.includes url "lemonfox"
       | None => false
       end.
Proof.
  apply (createTTSProvider_defaults openai_only TtsOpenAI.openai). reflexivity.
Defined.

Lemma get_or_unset (e : Env.env) (key d : string) :
  Env.is_set e key = false -> Env.get_or e key d = d.
Proof.
  unfold Env.is_set, Env.get_or, TtsOpenAI.string_or, Js.or_else.
  destruct (e key) as [v|]; [intros ->|]; reflexivity.
Qed.

Lemma present_is_set (e : Env.env) (key : string) : present (e key) = Env.is_set e key.
Proof. reflexivity. Qed.

(** With [CALLME_STT_PROVIDER] unset or empty, the presence of
    [CALLME_STT_API_KEY] decides the recognizer.  With a key the factory
    builds the Deepgram provider, with that key and with model nova-2
    unless [CALLME_STT_MODEL] names another.  Without one it calls the
    [initialize] of the OpenAI Realtime provider with the OpenAI key
    (empty when [CALLME_OPENAI_API_KEY] is unset) and with model
    gpt-4o-transcribe unless [CALLME_STT_MODEL] names another, and
    returns what that builds or throws when it throws. *)
Theorem stt_provider_follows_api_key :
  forall (OpenAIRealtimeSTTProvider : Type)
         (openai_initialize : STTConfig -> option OpenAIRealtimeSTTProvider)
         (e : Env.env),
    Env.is_set e "CALLME_STT_PROVIDER" = false ->
    (Env.is_set e "CALLME_STT_API_KEY" = true ->
     exists p,
       createSTTProvider openai_initialize (loadProviderConfig e) = Some (Deepgram p)
       /\ dg_apiKey p = e "CALLME_STT_API_KEY"
       /\ dg_model p = Env.get_or e "CALLME_STT_MODEL" "nova-2")
    /\ (Env.is_set e "CALLME_STT_API_KEY" = false ->
        createSTTProvider openai_initialize (loadProviderConfig e)
        = match openai_initialize
                  {| stt_apiKey := Env.get_or e "CALLME_OPENAI_API_KEY" "";
                     stt_model := Some (Env.get_or e "CALLME_STT_MODEL" "gpt-4o-transcribe");
                     stt_silenceDurationMs := sttSilenceDurationMs (loadProviderConfig e) |}
          with
          | Some p => Some (OpenAIRealtime p)
          | None => None
          end).
Proof.
  intros P init e Hprov. split; intros Hkey.
  - unfold createSTTProvider, dg_initialize, stt_config, loadProviderConfig. simpl.
    rewrite (get_or_unset e _ _ Hprov), Hkey. simpl.
    unfold Env.is_set in Hkey.
    destruct (e "CALLME_STT_API_KEY") as [key|] eqn:Ek; [|discriminate].
    simpl. unfold Js.or_else. rewrite Hkey. simpl. rewrite Hkey. simpl.
    eexists. repeat split.
    simpl. unfold Env.get_or, TtsOpenAI.string_or, Js.or_else.
    destruct (e "CALLME_STT_MODEL") as [[|c m]|]; reflexivity.
  - assert (Ekey : stt_apiKey (stt_config (loadProviderConfig e))
                   = Env.get_or e "CALLME_OPENAI_API_KEY" "").
    { unfold stt_config, loadProviderConfig. simpl.
      unfold Env.is_set in Hkey.
      destruct (e "CALLME_STT_API_KEY") as [key|]; [|reflexivity].
      simpl. unfold Js.or_else. rewrite Hkey. reflexivity. }
    assert (Emodel : stt_model (stt_config (loadProviderConfig e))
                     = Some (Env.get_or e "CALLME_STT_MODEL" "gpt-4o-transcribe")).
    { unfold stt_config, loadProviderConfig. simpl.
      rewrite (get_or_unset e _ _ Hprov), Hkey. reflexivity. }
    assert (Eprov : sttProvider (loadProviderConfig e) = "openai").
    { unfold loadProviderConfig. simpl.
      rewrite (get_or_unset e _ _ Hprov), Hkey. reflexivity. }
    unfold createSTTProvider. rewrite Eprov. simpl.
    replace (stt_config (loadProviderConfig e))
      with {| stt_apiKey := Env.get_or e "CALLME_OPENAI_API_KEY" "";
              stt_model := Some (Env.get_or e "CALLME_STT_MODEL" "gpt-4o-transcribe");
              stt_silenceDurationMs := sttSilenceDurationMs (loadProviderConfig e) |};
      [reflexivity|].
    rewrite <- Ekey, <- Emodel. reflexivity.
Qed.

Definition deepgram_key_env : Env.env := Env.of_list [("CALLME_STT_API_KEY", "dg-key")].

Definition openai_key_env : Env.env := Env.of_list [("CALLME_OPENAI_API_KEY", "sk-1")].

(** Both cases, with an [initialize] that keeps the configuration it is
    given. *)
Lemma stt_provider_follows_api_key_witness :
  (exists p,
     createSTTProvider keeps_config (loadProviderConfig deepgram_key_env) = Some (Deepgram p)
     /\ dg_apiKey p = deepgram_key_env "CALLME_STT_API_KEY"
     /\ dg_model p = Env.get_or deepgram_key_env "CALLME_STT_MODEL" "nova-2")
  /\ createSTTProvider keeps_config (loadProviderConfig openai_key_env)
     = match keeps_config
               {| stt_apiKey := Env.get_or openai_key_env "CALLME_OPENAI_API_KEY" "";
                  stt_model :=
                    Some (Env.get_or openai_key_env "CALLME_STT_MODEL" "gpt-4o-transcribe");
                  stt_silenceDurationMs := sttSilenceDurationMs (loadProviderConfig openai_key_env) |}
       with
       | Some p => Some (OpenAIRealtime p)
       | None => None
       end.
Proof.
  split.
  - destruct (stt_provider_follows_api_key STTConfig keeps_config deepgram_key_env)
      as [Hdg _]; [reflexivity|]. apply Hdg. reflexivity.
  - destruct (stt_provider_follows_api_key STTConfig keeps_config openai_key_env)
      as [_ Hopenai]; [reflexivity|]. apply Hopenai. reflexivity.
Defined.

Example stt_provider_without_any_key :
  createSTTProvider keeps_config (loadProviderConfig (Env.of_list [])) = None
  /\ createSTTProvider keeps_config (loadProviderConfig openai_key_env)
     = Some (OpenAIRealtime {| stt_apiKey := "sk-1"; stt_model := Some "gpt-4o-transcribe";
                               stt_silenceDurationMs := None |}).
Proof. split; reflexivity. Qed.

(** The endpointing silence of a Deepgram provider built from the
    environment, when [parseInt] reads [CALLME_STT_SILENCE_DURATION_MS]
    exactly (the integer written there is at most 2^53 in magnitude), is
    a non-zero integer, never NaN: it is 800 when the variable is unset,
    empty, without a leading integer or 0, and the integer parsed
    otherwise. *)
Theorem deepgram_silence_duration_from_env :
  forall (OpenAIRealtimeSTTProvider : Type)
         (openai_initialize : STTConfig -> option OpenAIRealtimeSTTProvider)
         (e : Env.env) (p : DeepgramSTTProvider),
    createSTTProvider openai_initialize (loadProviderConfig e) = Some (Deepgram p) ->
    (forall text,
        e "CALLME_STT_SILENCE_DURATION_MS" = Some text -> Env.exactly_parsed text = true) ->
    exists n : Z,
      dg_silenceDurationMs p = Int n
      /\ n <> 0%Z
      /\ Env.exact_double n = true
      /\ (Env.is_set e "CALLME_STT_SILENCE_DURATION_MS" = false -> n = 800%Z)
      /\ (forall text m,
            e "CALLME_STT_SILENCE_DURATION_MS" = Some text -> text <> "" ->
            (Env.parseInt10 text = Int m -> n = if (m =? 0)%Z then 800%Z else m)
            /\ (Env.parseInt10 text = NaN -> n = 800%Z)).
Proof.
  intros P init e p H Hexact. unfold createSTTProvider in H.
  destruct (sttProvider (loadProviderConfig e) =? "deepgram");
    [|destruct (init _); discriminate].
  unfold dg_initialize in H. destruct (negb _); [discriminate|]. injection H as <-.
  cbn [dg_silenceDurationMs stt_silenceDurationMs stt_config sttSilenceDurationMs
       loadProviderConfig].
  unfold Env.is_set.
  destruct (e "CALLME_STT_SILENCE_DURATION_MS") as [text|].
  - specialize (Hexact text eq_refl). unfold Env.exactly_parsed in Hexact.
    destruct (Js.truthy text) eqn:Ht.
    + destruct (Env.parseInt10 text) as [m|] eqn:Ep; cbn [num_or].
      * destruct (Z.eqb_spec m 0) as [Hm|Hm].
        -- exists 800%Z. split; [reflexivity|]. split; [lia|]. split; [reflexivity|].
           split; [discriminate|].
           intros text' m' [= <-] _. rewrite Ep. split; [|discriminate].
           intros [= <-]. subst m. reflexivity.
        -- exists m. split; [reflexivity|]. split; [exact Hm|]. split; [exact Hexact|].
           split; [discriminate|].
           intros text' m' [= <-] _. rewrite Ep. split; [|discriminate].
           intros [= <-]. destruct (Z.eqb_spec m 0); [contradiction | reflexivity].
      * exists 800%Z. split; [reflexivity|]. split; [lia|]. split; [reflexivity|].
        split; [discriminate|].
        intros text' m' [= <-] _. rewrite Ep. split; [discriminate | reflexivity].
    + exists 800%Z. split; [reflexivity|]. split; [lia|]. split; [reflexivity|].
      split; [reflexivity|].
      intros text' m' [= <-] Hne. destruct text; [congruence | discriminate].
  - exists 800%Z. split; [reflexivity|]. split; [lia|]. split; [reflexivity|].
    split; [reflexivity|].
    intros text' m' [=].
Qed.

Definition deepgram_env : Env.env :=
  Env.of_list [("CALLME_STT_API_KEY", "dg-key");
               ("CALLME_STT_SILENCE_DURATION_MS", "1200ms")].

Lemma deepgram_silence_duration_from_env_witness :
  exists n : Z,
    dg_silenceDurationMs
      {| dg_apiKey := Some "dg-key"; dg_model := "nova-2"; dg_silenceDurationMs := Int 1200 |}
    = Int n
    /\ n <> 0%Z
    /\ Env.exact_double n = true
    /\ (Env.is_set deepgram_env "CALLME_STT_SILENCE_DURATION_MS" = false -> n = 800%Z)
    /\ (forall text m,
          deepgram_env "CALLME_STT_SILENCE_DURATION_MS" = Some text -> text <> "" ->
          (Env.parseInt10 text = Int m -> n = if (m =? 0)%Z then 800%Z else m)
          /\ (Env.parseInt10 text = NaN -> n = 800%Z)).
Proof.
  apply (deepgram_silence_duration_from_env STTConfig keeps_config deepgram_env).
  - reflexivity.
  - intros text [= <-]. reflexivity.
Defined.

Example deepgram_silence_duration_examples :
  createSTTProvider keeps_config (loadProviderConfig deepgram_env)
  = Some (Deepgram {| dg_apiKey := Some "dg-key"; dg_model := "nova-2";
                      dg_silenceDurationMs := Int 1200 |})
  /\ createSTTProvider keeps_config
       (loadProviderConfig (Env.of_list [("CALLME_STT_API_KEY", "dg-key");
                                         ("CALLME_STT_SILENCE_DURATION_MS", "0")]))
     = Some (Deepgram {| dg_apiKey := Some "dg-key"; dg_model := "nova-2";
                         dg_silenceDurationMs := Int 800 |})
  /\ createSTTProvider keeps_config
       (loadProviderConfig (Env.of_list [("CALLME_STT_API_KEY", "dg-key");
                                         ("CALLME_STT_SILENCE_DURATION_MS", "soon")]))
     = Some (Deepgram {| dg_apiKey := Some "dg-key"; dg_model := "nova-2";
                         dg_silenceDurationMs := Int 800 |}).
Proof. repeat split; reflexivity. Qed.

End Providers.

(* ===================================================================== *)
(** * server/src/providers/stt-deepgram.ts: more on the session *)
(* ===================================================================== *)

Module SttDeepgramSession.

Import SttDeepgram.

Local Opaque Z.pow Z.mul Z.add Z.sub Z.geb Z.ltb.

(** ** The attempt counter and the delays, over whole runs *)

Lemma in_sleeps (acts : list action) (n d : Z) :
  In (Sleep n d) acts -> In (n, d) (sleeps acts).
Proof.
  intros H. unfold sleeps. apply in_flat_map. exists (Sleep n d). split; [exact H|].
  left. reflexivity.
Qed.

Lemma step_attempts_range (s : session) (i : input) :
  0 <= reconnectAttempts s <= 5 ->
  0 <= reconnectAttempts (fst (step s i)) <= 5
  /\ forall n d, In (Sleep n d) (snd (step s i)) ->
                 1 <= n <= 5 /\ d = 1000 * 2 ^ (n - 1).
Proof.
  intros Hr. destruct (resets_attempts i) eqn:Hi.
  - destruct i; try discriminate; destruct s; simpl in *.
    + split; [lia|]. intros n d [H|[]]. discriminate.
    + split_tests; simpl; (split; [lia|]); intros n d [].
  - destruct (step_attempts s i Hi) as [[Ha Hs] | (Hlt & Ha & Hs)].
    + rewrite Ha. split; [exact Hr|]. intros n d Hin.
      apply in_sleeps in Hin. rewrite Hs in Hin. destruct Hin.
    + rewrite Ha. split; [lia|]. intros n d Hin.
      apply in_sleeps in Hin. rewrite Hs in Hin. simpl in Hin.
      destruct Hin as [[= <- <-]|[]]. split; [lia|]. reflexivity.
Qed.

Lemma run_attempts_range (inputs : list input) (s : session) :
  0 <= reconnectAttempts s <= 5 ->
  0 <= reconnectAttempts (fst (run s inputs)) <= 5
  /\ forall n d, In (Sleep n d) (snd (run s inputs)) ->
                 1 <= n <= 5 /\ d = 1000 * 2 ^ (n - 1).
Proof.
  revert s; induction inputs as [|i inputs IH]; intros s Hr; simpl.
  - split; [exact Hr|]. intros n d [].
  - destruct (step_attempts_range s i Hr) as [Hr1 Hs1].
    destruct (step s i) as [s1 a1]; simpl in *.
    destruct (IH s1 Hr1) as [Hr2 Hs2].
    destruct (run s1 inputs) as [s2 a2]; simpl in *.
    split; [exact Hr2|]. intros n d Hin.
    apply in_app_or in Hin as [Hin|Hin]; eauto.
Qed.

Local Transparent Z.pow Z.mul Z.add Z.sub Z.geb Z.ltb.

(** Whatever a session goes through from its creation on, successful
    opens and calls of [connect()] included, its counter of reconnect
    attempts stays between 0 and 5, and every reconnect it schedules is
    an attempt numbered 1 to 5 with delay 1000 * 2^(attempt - 1) ms: at
    least one second, at most sixteen. *)
Theorem reconnect_delay_always_bounded :
  forall inputs : list input,
    0 <= reconnectAttempts (fst (run new_session inputs)) <= 5
    /\ forall n d,
         In (Sleep n d) (snd (run new_session inputs)) ->
         1 <= n <= 5 /\ d = 1000 * 2 ^ (n - 1) /\ 1000 <= d <= 16000.
Proof.
  intros inputs.
  destruct (run_attempts_range inputs new_session) as [Hr Hs]; [simpl; lia|].
  split; [exact Hr|]. intros n d Hin.
  destruct (Hs n d Hin) as [Hn ->]. split; [exact Hn|]. split; [reflexivity|].
  assert (Hc : n = 1 \/ n = 2 \/ n = 3 \/ n = 4 \/ n = 5) by lia.
  destruct Hc as [->|[->|[->|[->| ->]]]]; simpl; lia.
Qed.

(** ** [close()] and [connect()] *)

(** A second [close()] does nothing: no message, no [ws.close()], no
    change of the session. *)
Theorem close_twice_is_close_once :
  forall s : session,
    step (fst (step s Close)) Close = (fst (step s Close), []).
Proof.
  intros s. destruct s. simpl. unfold_handlers. simpl.
  split_tests; reflexivity.
Qed.

(** [close()] speaks to the current socket only: it sends [CloseStream]
    when that socket is open, calls [ws.close()] on it in every case,
    and does nothing on the wire when there is no current socket. *)
Lemma close_actions :
  forall s : session,
    snd (step s Close)
    = match ws s with
      | Some k =>
          match nth_error (sockets s) k with
          | Some OPEN => [WsSend k CloseStream; WsClose k]
          | _ => [WsClose k]
          end
      | None => []
      end
    /\ ws (fst (step s Close)) = None
    /\ connected (fst (step s Close)) = false
    /\ keepAliveInterval (fst (step s Close)) = false.
Proof.
  intros s. destruct s. simpl. unfold_handlers. simpl.
  split_tests; repeat split; congruence.
Qed.

(** [connect()] after [close()] brings reconnection back: the session
    is no longer closed, a new socket is built, the counter starts at
    0, and a 'close' of that socket schedules attempt 1 after 1000 ms. *)
Theorem connect_after_close_rearms_reconnection :
  forall s : session,
    closed (fst (run s [Close; Connect])) = false
    /\ reconnectAttempts (fst (run s [Close; Connect])) = 0
    /\ ws (fst (run s [Close; Connect])) = Some (List.length (sockets s))
    /\ snd (run s [Close; Connect; OnClose (List.length (sockets s))])
       = snd (step s Close) ++ [NewWebSocket (List.length (sockets s)); Sleep 1 1000].
Proof.
  intros s.
  destruct (close_sets_closed s) as (_ & _ & Hlen).
  assert (Hc : forall s1,
             closed (fst (connect s1)) = false
             /\ reconnectAttempts (fst (connect s1)) = 0
             /\ ws (fst (connect s1)) = Some (List.length (sockets s1))
             /\ nth_error (sockets (fst (connect s1))) (List.length (sockets s1))
                = Some CONNECTING
             /\ snd (connect s1) = [NewWebSocket (List.length (sockets s1))]).
  { intros s1. destruct s1. unfold connect, doConnect. simpl. repeat split.
    rewrite nth_error_app2, Nat.sub_diag by lia. reflexivity. }
  cbn [run step].
  destruct (close s) as [s1 a1] eqn:E1. cbn [fst snd] in *.
  destruct (Hc s1) as (Hclosed & Hatt & Hws & Hnth & Hact).
  destruct (connect s1) as [s2 a2] eqn:E2. cbn [fst snd] in *.
  rewrite Hlen in *. repeat split; try assumption.
  pose proof (on_close_schedules s2 (List.length (sockets s)) CONNECTING Hclosed Hnth
                ltac:(discriminate)) as Hs.
  cbn [step] in Hs.
  destruct (match nth_error (sockets s2) (List.length (sockets s)) with
            | Some CLOSED | None => (s2, [])
            | Some _ => on_close s2 (List.length (sockets s))
            end) as [s3 a3].
  cbn [snd] in *. rewrite Hs, Hatt, Hact. reflexivity.
Qed.

(** ** What goes over the socket *)

(** Every [ws.send] of the session (audio, keepalive, [CloseStream])
    goes to the current socket, and only while that socket's
    [readyState] is [OPEN]. *)
Theorem sends_only_on_open_socket :
  forall (s : session) (i : input) (k : nat) (data : payload),
    In (WsSend k data) (snd (step s i)) ->
    ws s = Some k /\ nth_error (sockets s) k = Some OPEN.
Proof.
  intros s i k data. destruct s.
  destruct i; simpl; unfold_handlers; simpl; split_tests; simpl;
    intros H;
    repeat match goal with
           | H : _ \/ _ |- _ => destruct H
           | H : False |- _ => contradiction
           | H : WsSend _ _ = WsSend _ _ |- _ => injection H as <- <-
           end;
    try discriminate; subst; auto;
    match goal with
    | H : (_ || true)%bool = false |- _ => rewrite orb_true_r in H; discriminate
    end.
Qed.

Lemma sends_only_on_open_socket_witness :
  ws connected_session = Some 0%nat
  /\ nth_error (sockets connected_session) 0 = Some OPEN.
Proof.
  apply (sends_only_on_open_socket connected_session (SendAudio [x00]) 0 (Audio [x00])).
  vm_compute. left. reflexivity.
Defined.

(** ** Transcripts *)

Lemma trimEnd_idempotent (s : string) : Js.trimEnd (Js.trimEnd s) = Js.trimEnd s.
Proof.
  induction s as [|c r IH]; simpl; [reflexivity|].
  destruct (Js.trimEnd r) as [|c' r'] eqn:E.
  - destruct (Js.is_white c) eqn:Hc; simpl; [reflexivity|]. rewrite Hc. reflexivity.
  - simpl in IH |- *. destruct (Js.trimEnd r') as [|c'' r''] eqn:E'.
    + destruct (Js.is_white c'); [discriminate|]. rewrite IH. reflexivity.
    + rewrite IH. reflexivity.
Qed.

Lemma trimStart_head (s : string) :
  match Js.trimStart s with
  | EmptyString => True
  | String c _ => Js.is_white c = false
  end.
Proof.
  induction s as [|c r IH]; simpl; [exact I|].
  destruct (Js.is_white c) eqn:Hc; [exact IH | exact Hc].
Qed.

Lemma trimEnd_keeps_head (c : ascii) (r : string) :
  Js.is_white c = false -> exists r', Js.trimEnd (String c r) = String c r'.
Proof.
  intros Hc. simpl. destruct (Js.trimEnd r); [rewrite Hc|]; eauto.
Qed.

(** [trim] leaves a trimmed string as it is. *)
Lemma trim_idempotent (s : string) : Js.trim (Js.trim s) = Js.trim s.
Proof.
  unfold Js.trim. pose proof (trimStart_head s) as Hh.
  destruct (Js.trimStart s) as [|c r]; [reflexivity|].
  destruct (trimEnd_keeps_head c r Hh) as [r' E]. rewrite E.
  simpl Js.trimStart. rewrite Hh. rewrite <- E. apply trimEnd_idempotent.
Qed.

Lemma in_resolves (acts : list action) (w : nat) (t : string) :
  In (Resolve w t) acts <-> In (w, t) (resolves acts).
Proof.
  unfold resolves. rewrite in_flat_map. split.
  - intros H. exists (Resolve w t). split; [exact H | left; reflexivity].
  - intros (a & Ha & Hin). destruct a; simpl in Hin; try contradiction.
    destruct Hin as [[= <- <-]|[]]. exact Ha.
Qed.

Lemma step_resolves_trimmed (s : session) (i : input) (w : nat) (t : string) :
  In (Resolve w t) (snd (step s i)) -> Js.trim t = t /\ onTranscriptCallback s = Some w.
Proof.
  destruct s.
  destruct i as [| | | | | | k e | | | | |]; simpl;
    try (unfold_handlers; simpl; split_tests; simpl; intros H;
         repeat match goal with
                | H : _ \/ _ |- _ => destruct H
                | H : False |- _ => contradiction
                end; discriminate).
  destruct e as [[tr|] f sf | | | | |]; simpl; unfold_handlers; simpl;
    split_tests; simpl; intros H;
    repeat match goal with
           | H : _ \/ _ |- _ => destruct H
           | H : False |- _ => contradiction
           | H : Resolve _ _ = Resolve _ _ |- _ => injection H as <- <-
           end; try discriminate; split; try reflexivity;
    apply trim_idempotent.
Qed.

(** Every transcript the session hands to a waiter, in any run from any
    state, is trimmed: it neither begins nor ends with white space. *)
Theorem delivered_transcripts_are_trimmed :
  forall (s : session) (inputs : list input) (w : nat) (t : string),
    In (Resolve w t) (snd (run s inputs)) -> Js.trim t = t.
Proof.
  intros s inputs; revert s.
  induction inputs as [|i inputs IH]; intros s w t H; simpl in H.
  - contradiction.
  - pose proof (step_resolves_trimmed s i w t) as Hstep.
    destruct (step s i) as [s1 a1]; simpl in *.
    specialize (IH s1 w t).
    destruct (run s1 inputs) as [s2 a2]; simpl in *.
    apply in_app_or in H as [H|H]; [apply Hstep; exact H | apply IH; exact H].
Qed.

Lemma delivered_transcripts_are_trimmed_witness :
  Js.trim "that is  all" = "that is  all"%string.
Proof.
  apply (delivered_transcripts_are_trimmed listening
           [OnMessage 0 (Results (Some "that is"%string) true false);
            OnMessage 0 (Results (Some " all "%string) true true)] 0 "that is  all").
  vm_compute. left. reflexivity.
Defined.

(** Every input but a [Results] message with [is_final]. *)
Definition not_final (i : input) : bool :=
  match i with
  | OnMessage _ (Results _ true _) => false
  | _ => true
  end.

Lemma step_interim (s : session) (i : input) :
  pendingTranscript s = ""%string -> not_final i = true ->
  pendingTranscript (fst (step s i)) = ""%string /\ resolves (snd (step s i)) = [].
Proof.
  intros Hp Hi. destruct s; simpl in Hp; subst.
  destruct i as [| | | | | | k e | | | | |]; simpl in *;
    try (unfold_handlers; simpl; split_tests; split; reflexivity).
  destruct e as [[t|] [|] sf | | | | |]; simpl in *; try discriminate;
    unfold_handlers; simpl; split_tests; split; reflexivity.
Qed.

(** Results that are not final never reach a waiter: from an empty
    buffer, as long as every [Results] message is an interim one
    ([is_final] false), nothing is delivered and the buffer stays empty,
    whatever [speech_final] says and whatever [UtteranceEnd] and
    [SpeechStarted] messages, method calls and timers come in between. *)
Theorem interim_results_never_delivered :
  forall (s : session) (inputs : list input),
    pendingTranscript s = ""%string ->
    forallb not_final inputs = true ->
    resolves (snd (run s inputs)) = []
    /\ pendingTranscript (fst (run s inputs)) = ""%string.
Proof.
  intros s inputs; revert s.
  induction inputs as [|i inputs IH]; intros s Hp Hin; simpl in *.
  - auto.
  - apply andb_prop in Hin as [Hi Hrest].
    destruct (step_interim s i Hp Hi) as [Hp1 Hr1].
    destruct (step s i) as [s1 a1]; simpl in *.
    destruct (IH s1 Hp1 Hrest) as [Hr2 Hp2].
    destruct (run s1 inputs) as [s2 a2]; simpl in *.
    rewrite resolves_app, Hr1, Hr2. auto.
Qed.

Lemma interim_results_never_delivered_witness :
  resolves (snd (run listening
                   [OnMessage 0 (Results (Some "yes"%string) false true);
                    OnMessage 0 UtteranceEnd;
                    OnMessage 0 (Results (Some "yes please"%string) false true)])) = []
  /\ pendingTranscript (fst (run listening
                   [OnMessage 0 (Results (Some "yes"%string) false true);
                    OnMessage 0 UtteranceEnd;
                    OnMessage 0 (Results (Some "yes please"%string) false true)])) = ""%string.
Proof.
  apply (interim_results_never_delivered listening
           [OnMessage 0 (Results (Some "yes"%string) false true);
            OnMessage 0 UtteranceEnd;
            OnMessage 0 (Results (Some "yes please"%string) false true)]).
  - reflexivity.
  - reflexivity.
Defined.

(** ** Each waiter is settled once *)

(** The action calls [resolve] or [reject] of waiter [w]. *)
Definition settles (w : nat) (a : action) : bool :=
  match a with
  | Resolve w' _ => Nat.eqb w' w
  | Reject w' => Nat.eqb w' w
  | _ => false
  end.

Definition count_settles (w : nat) (acts : list action) : nat :=
  List.length (filter (settles w) acts).

(** 1 when the promise of waiter [w] is settled, 0 when it is pending
    or not made yet. *)
Definition settled_count (l : list waiter) (w : nat) : nat :=
  match nth_error l w with
  | Some x => if is_pending x then 0 else 1
  | None => 0
  end.

Lemma count_settles_app (w : nat) (xs ys : list action) :
  count_settles w (xs ++ ys) = (count_settles w xs + count_settles w ys)%nat.
Proof. unfold count_settles. now rewrite filter_app, length_app. Qed.

Lemma settled_count_le_1 (l : list waiter) (w : nat) : (settled_count l w <= 1)%nat.
Proof.
  unfold settled_count. destruct (nth_error l w) as [x|]; [destruct (is_pending x)|]; lia.
Qed.

Lemma settle_update (l : list waiter) (w0 w : nat) (x x' : waiter) :
  nth_error l w0 = Some x -> is_pending x = true -> is_pending x' = false ->
  ((if Nat.eqb w0 w then 1 else 0) + settled_count l w
   <= settled_count (update l w0 x') w)%nat.
Proof.
  intros Hx Hp Hp'. unfold settled_count.
  destruct (Nat.eqb_spec w0 w) as [<-|Hne].
  - rewrite Hx, Hp. rewrite nth_error_update_eq, Hp'; [lia|].
    apply nth_error_Some. congruence.
  - rewrite nth_error_update_ne by exact Hne. lia.
Qed.

Lemma settled_count_wait (l : list waiter) (w : nat) :
  settled_count (l ++ [{| settled := Pending; timeout := true |}]) w = settled_count l w.
Proof.
  unfold settled_count.
  destruct (Nat.lt_ge_cases w (List.length l)) as [Hlt|Hge].
  - rewrite nth_error_app1 by exact Hlt. reflexivity.
  - rewrite nth_error_app2 by exact Hge.
    assert (E : nth_error l w = None) by (apply nth_error_None; exact Hge). rewrite E.
    destruct (w - List.length l)%nat as [|[|n]]; reflexivity.
Qed.

Lemma is_pending_resolve (x : waiter) (t : string) : is_pending (resolve_waiter x t) = false.
Proof. unfold is_pending, resolve_waiter. simpl. destruct (settled x); reflexivity. Qed.

Lemma is_pending_reject (x : waiter) : is_pending (reject_waiter x) = false.
Proof. unfold is_pending, reject_waiter. simpl. destruct (settled x); reflexivity. Qed.

Lemma call_settles (s : session) (t : string) (w : nat) :
  waiters_inv (waiters s) (onTranscriptCallback s) ->
  (count_settles w (snd (call_onTranscriptCallback s t)) + settled_count (waiters s) w
   <= settled_count (waiters (fst (call_onTranscriptCallback s t))) w)%nat.
Proof.
  intros [Hcb _]. unfold call_onTranscriptCallback.
  destruct (onTranscriptCallback s) as [w0|] eqn:E; [|simpl; lia].
  specialize (Hcb w0 eq_refl). unfold transcript_closure. rewrite Hcb.
  destruct s; simpl in *. unfold count_settles. simpl.
  pose proof (settle_update waiters0 w0 w _
                (resolve_waiter {| settled := Pending; timeout := true |} t)
                Hcb eq_refl (is_pending_resolve _ t)) as H.
  destruct (Nat.eqb w0 w); simpl; exact H.
Qed.

Lemma call_onPartialCallback_settles (s : session) (t : string) (w : nat) :
  count_settles w (call_onPartialCallback s t) = 0%nat.
Proof. unfold call_onPartialCallback. destruct (onPartialCallback s); reflexivity. Qed.

Lemma handleEvent_settles (s : session) (e : event) (w : nat) :
  waiters_inv (waiters s) (onTranscriptCallback s) ->
  (count_settles w (snd (handleEvent s e)) + settled_count (waiters s) w
   <= settled_count (waiters (fst (handleEvent s e))) w)%nat.
Proof.
  intros Hinv.
  assert (Hset : forall p, waiters_inv (waiters (set_pendingTranscript s p))
                                       (onTranscriptCallback (set_pendingTranscript s p)))
    by (intros p; destruct s; exact Hinv).
  destruct e as [[t|] f sf | | | | |]; simpl; try lia.
  - unfold handleTranscriptResult.
    destruct (negb (Js.truthy t)); [simpl; lia|].
    destruct f.
    + destruct sf.
      * pose proof (call_settles _ (Js.trim (pendingTranscript
                      (set_pendingTranscript s (pendingTranscript s ++ t ++ " "))))
                      w (Hset (pendingTranscript s ++ t ++ " ")%string)) as H.
        destruct (call_onTranscriptCallback _ _) as [s2 a2]. simpl in *.
        rewrite count_settles_app, call_onPartialCallback_settles.
        destruct s, s2; simpl in *. exact H.
      * simpl. rewrite call_onPartialCallback_settles. destruct s; simpl. lia.
    + simpl. rewrite call_onPartialCallback_settles. lia.
  - destruct (Js.truthy (Js.trim (pendingTranscript s))); [|simpl; lia].
    pose proof (call_settles s (Js.trim (pendingTranscript s)) w Hinv) as H.
    destruct (call_onTranscriptCallback _ _) as [s2 a2]. simpl in *.
    destruct s2; simpl in *. exact H.
Qed.

Lemma transcript_timeout_settles (s : session) (w0 w : nat) :
  waiters_inv (waiters s) (onTranscriptCallback s) ->
  (count_settles w (snd (transcript_timeout s w0)) + settled_count (waiters s) w
   <= settled_count (waiters (fst (transcript_timeout s w0))) w)%nat.
Proof.
  intros [_ Hall]. unfold transcript_timeout.
  destruct (nth_error (waiters s) w0) as [x|] eqn:E; [|simpl; lia].
  destruct (timeout x) eqn:Ht; [|simpl; lia].
  assert (Hp : is_pending x = true).
  { unfold is_pending. apply (Hall w0 x E) in Ht. rewrite Ht. reflexivity. }
  pose proof (settle_update (waiters s) w0 w x (reject_waiter x) E Hp (is_pending_reject x)) as H.
  destruct s; simpl in *. unfold count_settles. simpl.
  destruct (Nat.eqb w0 w); simpl; exact H.
Qed.

Lemma step_settles (s : session) (i : input) (w : nat) :
  waiters_inv (waiters s) (onTranscriptCallback s) ->
  (count_settles w (snd (step s i)) + settled_count (waiters s) w
   <= settled_count (waiters (fst (step s i))) w)%nat.
Proof.
  intros Hinv.
  destruct i as [| d | | ms | | k | k e | k | k | j | w0 |]; cbn [step].
  - destruct s; simpl. lia.
  - destruct s; unfold_handlers; simpl; split_tests; simpl; lia.
  - destruct s; simpl. lia.
  - destruct s; simpl. rewrite settled_count_wait. lia.
  - destruct s; unfold_handlers; simpl; split_tests; simpl;
      rewrite ?count_settles_app; simpl; lia.
  - destruct s; unfold_handlers; simpl; split_tests; simpl; lia.
  - apply handleEvent_settles. exact Hinv.
  - simpl. lia.
  - destruct s; unfold_handlers; simpl; split_tests; simpl; lia.
  - destruct s; unfold_handlers; simpl; split_tests; simpl; lia.
  - apply transcript_timeout_settles. exact Hinv.
  - destruct s; unfold_handlers; simpl; split_tests; simpl; lia.
Qed.

Lemma run_settles (inputs : list input) (s : session) (w : nat) :
  waiters_inv (waiters s) (onTranscriptCallback s) ->
  (count_settles w (snd (run s inputs)) + settled_count (waiters s) w
   <= settled_count (waiters (fst (run s inputs))) w)%nat.
Proof.
  revert s; induction inputs as [|i inputs IH]; intros s Hinv; simpl.
  - lia.
  - pose proof (step_settles s i w Hinv) as H1.
    pose proof (step_waiters_inv s i Hinv) as Hinv1.
    destruct (step s i) as [s1 a1]; simpl in *.
    specialize (IH s1 Hinv1).
    destruct (run s1 inputs) as [s2 a2]; simpl in *.
    rewrite count_settles_app. lia.
Qed.

(** In every run of a session from its creation on, the promise of
    each [waitForTranscript] call is settled at most once: among all the
    [resolve] and [reject] calls made there is at most one for any given
    waiter, so no waiter is resolved twice, rejected twice, or resolved
    and rejected. *)
Theorem waiter_settled_at_most_once :
  forall (inputs : list input) (w : nat),
    (count_settles w (snd (run new_session inputs)) <= 1)%nat.
Proof.
  intros inputs w.
  assert (Hinv : waiters_inv (waiters new_session) (onTranscriptCallback new_session)).
  { split; [discriminate|]. intros [|n] x Hx; discriminate. }
  pose proof (run_settles inputs new_session w Hinv) as H.
  pose proof (settled_count_le_1 (waiters (fst (run new_session inputs))) w).
  lia.
Qed.

Example timeout_then_delivery_settles_once :
  snd (run listening [TranscriptTimeout 0;
                      OnMessage 0 (Results (Some "late"%string) true true);
                      TranscriptTimeout 0])
  = [Reject 0].
Proof. vm_compute. reflexivity. Qed.

(** ** Audio *)

(** [l1] is [l2] with some elements left out, the order kept. *)
Inductive subseq {A : Type} : list A -> list A -> Prop :=
| subseq_nil : subseq [] []
| subseq_skip (x : A) (l1 l2 : list A) : subseq l1 l2 -> subseq l1 (x :: l2)
| subseq_take (x : A) (l1 l2 : list A) : subseq l1 l2 -> subseq (x :: l1) (x :: l2).

Lemma subseq_refl {A : Type} (l : list A) : subseq l l.
Proof. induction l; constructor; assumption. Qed.

Lemma subseq_app {A : Type} (a b c d : list A) :
  subseq a c -> subseq b d -> subseq (a ++ b) (c ++ d).
Proof.
  intros H; induction H; intros Hb; simpl.
  - exact Hb.
  - apply subseq_skip. auto.
  - apply subseq_take. auto.
Qed.

(** The audio buffers an action list sends, and those a sequence of
    inputs hands to [sendAudio]. *)
Definition audio_sent (acts : list action) : list (list byte) :=
  flat_map (fun a => match a with WsSend _ (Audio d) => [d] | _ => [] end) acts.

Definition audio_given (inputs : list input) : list (list byte) :=
  flat_map (fun i => match i with SendAudio d => [d] | _ => [] end) inputs.

Definition is_SendAudio (i : input) : bool :=
  match i with SendAudio _ => true | _ => false end.

Lemma step_audio (s : session) (i : input) :
  subseq (audio_sent (snd (step s i))) (audio_given [i]).
Proof.
  destruct s.
  destruct i; simpl; unfold_handlers; simpl; split_tests; simpl;
    rewrite ?app_nil_r;
    repeat first [apply subseq_nil | apply subseq_take | apply subseq_skip].
Qed.

Lemma sendAudio_open (s : session) (d : list byte) :
  connected s = true -> ws_is_open s = true ->
  exists k, step s (SendAudio d) = (s, [WsSend k (Audio d)]).
Proof.
  intros Hc Ho. simpl. unfold sendAudio. rewrite Hc, Ho. simpl.
  unfold ws_is_open, ws_readyState in Ho.
  destruct (ws s) as [k|]; [eauto | discriminate].
Qed.

(** The audio a session sends upstream is the audio given to
    [sendAudio] with some buffers left out: nothing is sent twice,
    nothing is reordered, nothing is altered, nothing is sent that was
    not given.  And while the session is connected with its socket open,
    a run of [sendAudio] calls sends every buffer. *)
Theorem audio_is_dropped_or_sent_in_order :
  forall (s : session) (inputs : list input),
    subseq (audio_sent (snd (run s inputs))) (audio_given inputs)
    /\ (connected s = true -> ws_is_open s = true ->
        forallb is_SendAudio inputs = true ->
        audio_sent (snd (run s inputs)) = audio_given inputs).
Proof.
  intros s inputs. split.
  - revert s. induction inputs as [|i inputs IH]; intros s; simpl.
    + constructor.
    + pose proof (step_audio s i) as H1.
      destruct (step s i) as [s1 a1]; simpl in *.
      specialize (IH s1). destruct (run s1 inputs) as [s2 a2]; simpl in *.
      unfold audio_sent in *. rewrite flat_map_app.
      rewrite app_nil_r in H1.
      apply (subseq_app _ _ _ _ H1 IH).
  - intros Hc Ho. induction inputs as [|i inputs IH]; intros Hall.
    + reflexivity.
    + cbn [forallb] in Hall. apply andb_prop in Hall as [Hi Hrest].
      destruct i; try discriminate.
      destruct (sendAudio_open s muLawData Hc Ho) as [k E].
      cbn [run]. rewrite E.
      specialize (IH Hrest). destruct (run s inputs) as [s2 a2].
      cbn [snd] in *. simpl. rewrite IH. reflexivity.
Qed.

(** ** Keepalive intervals *)

(** Two sockets open one after the other: the second 'open' overwrites
    the interval of the first in [keepAliveInterval].  When the first
    socket closes, [clearKeepAlive] clears the interval of the second;
    the interval of the first is still alive and keeps sending on the
    socket that [ws] holds. *)
Example overwritten_interval_keeps_firing :
  leakedIntervals (fst (run new_session [Connect; Connect; OnOpen 0; OnOpen 1; OnClose 0]))
  = 1%nat
  /\ keepAliveInterval
       (fst (run new_session [Connect; Connect; OnOpen 0; OnOpen 1; OnClose 0])) = false
  /\ snd (step (fst (run new_session [Connect; Connect; OnOpen 0; OnOpen 1; OnClose 0]))
               KeepAliveTick)
     = [WsSend 1 KeepAlive].
Proof. vm_compute. repeat split; reflexivity. Qed.

(** After [close()] the tick of such an interval finds no socket. *)
Example overwritten_interval_after_close :
  snd (run new_session [Connect; Connect; OnOpen 0; OnOpen 1; Close; KeepAliveTick])
  = [NewWebSocket 0; NewWebSocket 1; WsSend 1 CloseStream; WsClose 1].
Proof. vm_compute. reflexivity. Qed.

End SttDeepgramSession.

(* ===================================================================== *)
(** * server/src/index-http.ts: sessions of the HTTP server *)
(* ===================================================================== *)

Module IndexHttp.

Local Open Scope string_scope.

(** The two kinds of transport kept in [transports], by identity. *)
Inductive transport : Type :=
| SSEServerTransport (t : nat)
| StreamableHTTPServerTransport (t : nat).

(** [transports], a [Map<string, ...>]: the entries in insertion order. *)
Definition Map : Type := list (string * transport).

Fixpoint Map_get (m : Map) (key : string) : option transport :=
  match m with
  | [] => None
  | (k, v) :: rest => if k =? key then Some v else Map_get rest key
  end.

Fixpoint Map_set (m : Map) (key : string) (value : transport) : Map :=
  match m with
  | [] => [(key, value)]
  | (k, v) :: rest =>
      if k =? key then (k, value) :: rest else (k, v) :: Map_set rest key value
  end.

Fixpoint Map_delete (m : Map) (key : string) : Map :=
  match m with
  | [] => []
  | (k, v) :: rest => if k =? key then rest else (k, v) :: Map_delete rest key
  end.

(** A map as the [Map] operations build it: no key twice. *)
Definition well_formed (m : Map) : Prop := NoDup (map fst m).

(** What the [/messages] handler does with a request. *)
Inductive messages_response : Type :=
| HandlePostMessage (t : nat)     (* [existing.handlePostMessage(req, res, body)] *)
| InvalidSession400.              (* [{ error: 'Invalid or missing session' }] *)

(** The [/messages] handler.  [sessionId] is
    [url.searchParams.get('sessionId')], [None] for [null]. *)
Definition messages_post (transports : Map) (sessionId : option string) : messages_response :=
  let existing :=
    match sessionId with
    | Some id => if Js.truthy id then Map_get transports id else None
    | None => None
    end in
  match existing with
  | Some (SSEServerTransport t) => HandlePostMessage t
  | _ => InvalidSession400
  end.

(** The [/sse] handler registers the transport under the session id the
    transport made for itself; the 'close' of the response removes it. *)
Definition sse_connect (transports : Map) (sessionId : string) (t : nat) : Map :=
  Map_set transports sessionId (SSEServerTransport t).

Definition sse_close (transports : Map) (sessionId : string) : Map :=
  Map_delete transports sessionId.

Inductive method : Type := GET | POST | DELETE | OtherMethod.

(** The body of a request as the [/mcp] handler tells bodies apart:
    empty; text that [JSON.parse] rejects; JSON that
    [isInitializeRequest] accepts; any other JSON. *)
Inductive body : Type := EmptyBody | InvalidJson | InitializeRequest | OtherJson.

Inductive mcp_response : Type :=
| HandleRequest (t : nat)      (* [transport.handleRequest] on the session's transport *)
| NewSession                   (* a transport is built, connected, and handles the request *)
| NoValidSession400            (* 'Bad Request: No valid session' *)
| InternalError500.            (* the [catch]: 'Internal server error' *)

(** The [/mcp] handler.  [sessionId] is the [mcp-session-id] header. *)
Definition mcp_request (transports : Map) (m : method) (sessionId : option string) (b : body)
  : mcp_response :=
  let transport :=
    match sessionId with
    | Some id =>
        if Js.truthy id then
          match Map_get transports id with
          | Some (StreamableHTTPServerTransport t) => Some t
          | _ => None
          end
        else None
    | None => None
    end in
  match transport, m with
  | None, POST =>
      match b with
      | InvalidJson => InternalError500
      | InitializeRequest => NewSession
      | EmptyBody | OtherJson => NoValidSession400
      end
  | None, _ => NoValidSession400
  | Some t, POST =>
      match b with
      | InvalidJson => InternalError500
      | _ => HandleRequest t
      end
  | Some t, _ => HandleRequest t
  end.

(** [onsessioninitialized] and [transport.onclose] of a Streamable HTTP
    transport. *)
Definition mcp_session_initialized (transports : Map) (sid : string) (t : nat) : Map :=
  Map_set transports sid (StreamableHTTPServerTransport t).

Definition mcp_session_closed (transports : Map) (sid : string) : Map :=
  Map_delete transports sid.

(** ** The map *)

Lemma Map_get_set_eq (m : Map) (key : string) (v : transport) :
  Map_get (Map_set m key v) key = Some v.
Proof.
  induction m as [|[k x] m IH]; simpl.
  - rewrite String.eqb_refl. reflexivity.
  - destruct (k =? key) eqn:E; simpl; rewrite E; [reflexivity | exact IH].
Qed.

Lemma Map_get_set_ne (m : Map) (key key' : string) (v : transport) :
  key <> key' -> Map_get (Map_set m key v) key' = Map_get m key'.
Proof.
  intros Hne. induction m as [|[k x] m IH]; simpl.
  - destruct (String.eqb_spec key key'); [contradiction | reflexivity].
  - destruct (String.eqb_spec k key) as [->|Hk]; simpl.
    + destruct (String.eqb_spec key key'); [contradiction | reflexivity].
    + destruct (k =? key'); [reflexivity | exact IH].
Qed.

Lemma Map_get_None_not_in (m : Map) (key : string) :
  Map_get m key = None <-> ~ In key (map fst m).
Proof.
  induction m as [|[k x] m IH]; simpl.
  - tauto.
  - destruct (String.eqb_spec k key) as [->|Hk].
    + split; [discriminate | intros H; exfalso; apply H; left; reflexivity].
    + rewrite IH. tauto.
Qed.

Lemma Map_get_delete_eq (m : Map) (key : string) :
  well_formed m -> Map_get (Map_delete m key) key = None.
Proof.
  unfold well_formed. induction m as [|[k x] m IH]; simpl; intros Hnd.
  - reflexivity.
  - inversion Hnd as [|? ? Hnotin Hnd']; subst.
    destruct (String.eqb_spec k key) as [->|Hk]; simpl.
    + apply Map_get_None_not_in. exact Hnotin.
    + destruct (String.eqb_spec k key); [contradiction | apply IH; exact Hnd'].
Qed.

Lemma Map_get_delete_ne (m : Map) (key key' : string) :
  key <> key' -> Map_get (Map_delete m key) key' = Map_get m key'.
Proof.
  intros Hne. induction m as [|[k x] m IH]; simpl.
  - reflexivity.
  - destruct (String.eqb_spec k key) as [->|Hk]; simpl.
    + destruct (String.eqb_spec key key'); [contradiction | reflexivity].
    + destruct (k =? key'); [reflexivity | exact IH].
Qed.

Lemma Map_set_keys (m : Map) (key : string) (v : transport) (k : string) :
  In k (map fst (Map_set m key v)) <-> k = key \/ In k (map fst m).
Proof.
  induction m as [|[k0 x] m IH]; simpl.
  - intuition congruence.
  - destruct (String.eqb_spec k0 key) as [->|Hk]; simpl.
    + intuition congruence.
    + rewrite IH. intuition congruence.
Qed.

Lemma Map_set_well_formed (m : Map) (key : string) (v : transport) :
  well_formed m -> well_formed (Map_set m key v).
Proof.
  unfold well_formed. induction m as [|[k x] m IH]; simpl; intros Hnd.
  - constructor; [intros [] | constructor].
  - inversion Hnd as [|? ? Hnotin Hnd']; subst.
    destruct (String.eqb_spec k key) as [->|Hk]; simpl.
    + constructor; assumption.
    + constructor; [|apply IH; exact Hnd'].
      rewrite Map_set_keys. intros [->|H]; [congruence | contradiction].
Qed.

Lemma Map_delete_keys (m : Map) (key k : string) :
  In k (map fst (Map_delete m key)) -> In k (map fst m).
Proof.
  induction m as [|[k0 x] m IH]; simpl; [tauto|].
  destruct (k0 =? key); simpl; intuition.
Qed.

Lemma Map_delete_well_formed (m : Map) (key : string) :
  well_formed m -> well_formed (Map_delete m key).
Proof.
  unfold well_formed. induction m as [|[k x] m IH]; simpl; intros Hnd.
  - constructor.
  - inversion Hnd as [|? ? Hnotin Hnd']; subst.
    destruct (k =? key); simpl; [exact Hnd'|].
    constructor; [|apply IH; exact Hnd'].
    intros H. apply Hnotin. eapply Map_delete_keys; eauto.
Qed.

(** ** The handlers *)

(** A POST to /messages is handed to a transport only when its
    [sessionId] is the non-empty key of an SSE transport, and then to
    that one: there is no fallback to another session. *)
Theorem messages_post_reaches_only_own_session :
  forall (transports : Map) (sessionId : option string) (t : nat),
    messages_post transports sessionId = HandlePostMessage t
    <-> exists id, sessionId = Some id /\ id <> ""
                   /\ Map_get transports id = Some (SSEServerTransport t).
Proof.
  intros transports sessionId t. unfold messages_post. split.
  - destruct sessionId as [id|]; [|discriminate].
    destruct (Js.truthy id) eqn:Ht; [|discriminate].
    destruct (Map_get transports id) as [[t'|t']|] eqn:Hg; try discriminate.
    intros [= <-]. exists id. repeat split; [|exact Hg].
    intros ->. discriminate.
  - intros (id & -> & Hne & Hg). destruct id as [|c id]; [congruence|].
    simpl Js.truthy. cbv iota. rewrite Hg. reflexivity.
Qed.

(** The life of an SSE session: once registered, a POST with its id
    reaches its transport; once closed, the same POST is rejected; and
    neither event changes what a POST with another id gets. *)
Theorem sse_session_lifecycle :
  forall (transports : Map) (sid : string) (t : nat),
    well_formed transports -> sid <> "" ->
    messages_post (sse_connect transports sid t) (Some sid) = HandlePostMessage t
    /\ messages_post (sse_close (sse_connect transports sid t) sid) (Some sid)
       = InvalidSession400
    /\ forall other,
         other <> sid ->
         messages_post (sse_connect transports sid t) (Some other)
         = messages_post transports (Some other)
         /\ messages_post (sse_close transports sid) (Some other)
            = messages_post transports (Some other).
Proof.
  intros transports sid t Hwf Hne.
  assert (Ht : Js.truthy sid = true) by (destruct sid; [congruence | reflexivity]).
  unfold messages_post, sse_connect, sse_close. rewrite Ht. repeat split.
  - rewrite Map_get_set_eq. reflexivity.
  - rewrite Map_get_delete_eq; [reflexivity|]. apply Map_set_well_formed. exact Hwf.
  - destruct (Js.truthy other); [|reflexivity].
    rewrite Map_get_set_ne by congruence. reflexivity.
  - destruct (Js.truthy other); [|reflexivity].
    rewrite Map_get_delete_ne by congruence. reflexivity.
Qed.

Definition one_streamable : Map := mcp_session_initialized [] "mcp-1" 7.

Lemma sse_session_lifecycle_witness :
  messages_post (sse_connect one_streamable "sse-1" 8) (Some "sse-1") = HandlePostMessage 8
  /\ messages_post (sse_close (sse_connect one_streamable "sse-1" 8) "sse-1") (Some "sse-1")
     = InvalidSession400
  /\ forall other,
       other <> "sse-1" ->
       messages_post (sse_connect one_streamable "sse-1" 8) (Some other)
       = messages_post one_streamable (Some other)
       /\ messages_post (sse_close one_streamable "sse-1") (Some other)
          = messages_post one_streamable (Some other).
Proof.
  apply (sse_session_lifecycle one_streamable "sse-1" 8).
  - unfold well_formed. simpl. constructor; [intros [] | constructor].
  - discriminate.
Defined.

(** The two transports share one map but not their endpoints: on each
    endpoint the id of a session of the other kind counts as no id at
    all.  On /messages the id of a Streamable HTTP session is rejected.
    On /mcp a request with the id of an SSE session is answered as a
    request without a session id is: a POST whose body is an initialize
    request opens a new Streamable HTTP session, a POST whose body is
    not JSON gets the 500, every other request the 400.  So it is never
    handed to the SSE transport or to any other registered transport. *)
Theorem session_kinds_do_not_mix :
  forall (transports : Map) (sid : string) (t : nat) (m : method) (b : body),
    messages_post (mcp_session_initialized transports sid t) (Some sid) = InvalidSession400
    /\ messages_post (mcp_session_initialized transports sid t) (Some sid)
       = messages_post transports None
    /\ mcp_request (sse_connect transports sid t) m (Some sid) b
       = mcp_request transports m None b
    /\ mcp_request (sse_connect transports sid t) m (Some sid) b
       = match m, b with
         | POST, InitializeRequest => NewSession
         | POST, InvalidJson => InternalError500
         | _, _ => NoValidSession400
         end
    /\ forall t' : nat,
         mcp_request (sse_connect transports sid t) m (Some sid) b <> HandleRequest t'.
Proof.
  intros transports sid t m b.
  unfold messages_post, mcp_request, mcp_session_initialized, sse_connect.
  rewrite !Map_get_set_eq.
  split; [|split; [|split; [|split]]].
  - destruct (Js.truthy sid); reflexivity.
  - destruct (Js.truthy sid); reflexivity.
  - destruct (Js.truthy sid); reflexivity.
  - destruct (Js.truthy sid), m, b; reflexivity.
  - intros t'. destruct (Js.truthy sid), m, b; discriminate.
Qed.

(** An SSE session id on /mcp: an initialize request opens a new
    session, any other request is refused. *)
Example sse_id_on_mcp :
  mcp_request (sse_connect one_streamable "sse-1" 8) POST (Some "sse-1") InitializeRequest
  = NewSession
  /\ mcp_request (sse_connect one_streamable "sse-1" 8) POST (Some "sse-1") OtherJson
     = NoValidSession400
  /\ mcp_request (sse_connect one_streamable "sse-1" 8) GET (Some "sse-1") EmptyBody
     = NoValidSession400
  /\ messages_post (sse_connect one_streamable "sse-1" 8) (Some "mcp-1") = InvalidSession400.
Proof. repeat split; reflexivity. Qed.

Example mcp_examples :
  mcp_request one_streamable GET (Some "mcp-1") EmptyBody = HandleRequest 7
  /\ mcp_request one_streamable POST None InitializeRequest = NewSession
  /\ mcp_request one_streamable POST None OtherJson = NoValidSession400
  /\ mcp_request one_streamable POST (Some "mcp-1") InvalidJson = InternalError500
  /\ mcp_request one_streamable DELETE (Some "gone") EmptyBody = NoValidSession400.
Proof. repeat split; reflexivity. Qed.

End IndexHttp.

(* ===================================================================== *)
(** * mcp-server/src/phone-call.ts: configuration and completion *)
(* ===================================================================== *)

Module PhoneCallConfig.

Local Open Scope string_scope.

Record Config : Type := {
  twilioAccountSid : string;
  twilioAuthToken : string;
  twilioPhoneNumber : string;
  userPhoneNumber : string;
  openaiApiKey : string;
  publicUrl : string;
  port : Billing.num
}.

Definition required : list string :=
  ["TWILIO_ACCOUNT_SID"; "TWILIO_AUTH_TOKEN"; "TWILIO_PHONE_NUMBER";
   "USER_PHONE_NUMBER"; "OPENAI_API_KEY"; "PUBLIC_URL"].

(** [process.env.X!]. *)
Definition get (e : Env.env) (key : string) : string :=
  match e key with
  | Some s => s
  | None => ""
  end.

Definition missing (e : Env.env) : list string :=
  filter (fun key => negb (Env.is_set e key)) required.

Definition missing_message (keys : list string) : string :=
  "Missing required environment variables: " ++ Js.join ", " keys ++ Js.LF
  ++ "Please configure these in your .env file or Claude Code settings.".

(** [loadConfig]: the message of the error it throws, or the
    configuration. *)
Definition loadConfig (e : Env.env) : string + Config :=
  if Nat.ltb 0 (List.length (missing e)) then inl (missing_message (missing e))
  else inr {| twilioAccountSid := get e "TWILIO_ACCOUNT_SID";
              twilioAuthToken := get e "TWILIO_AUTH_TOKEN";
              twilioPhoneNumber := get e "TWILIO_PHONE_NUMBER";
              userPhoneNumber := get e "USER_PHONE_NUMBER";
              openaiApiKey := get e "OPENAI_API_KEY";
              publicUrl := get e "PUBLIC_URL";
              port := Env.parseInt10 (Env.get_or e "PORT" "3000") |}.




Example loadConfig_two_missing :
  loadConfig (Env.of_list [("TWILIO_ACCOUNT_SID", "AC1"); ("TWILIO_AUTH_TOKEN", "");
                           ("TWILIO_PHONE_NUMBER", "+15550100");
                           ("USER_PHONE_NUMBER", "+15550101"); ("OPENAI_API_KEY", "sk-1")])
  = inl (missing_message ["TWILIO_AUTH_TOKEN"; "PUBLIC_URL"]).
Proof. vm_compute. reflexivity. Qed.

End PhoneCallConfig.

Module PhoneCallCompletion.

Import PhoneCall.

Local Open Scope string_scope.

(** The test [handleOpenAIEvent] makes on a 'response.done' before it
    calls [completeCall]: some output, and an assistant text with one of
    the two closing phrases, in any letter case. *)
Definition closes_call (e : openai_event) : bool :=
  match e with
  | ResponseDone (Some output) =>
      (Nat.ltb 0 (List.length output)
       && (Js.truthy (assistantText output)
           && (Js.includes (Js.toLowerCase (assistantText output)) "i'll relay this to claude"
               || Js.includes (Js.toLowerCase (assistantText output)) "thank you")))%bool
  | _ => false
  end.

(** A closing response handled at [now] gives this duration. *)
Definition closing_at (start : Z) (past : list input) (d : Z) : Prop :=
  exists now e,
    In (OpenAIMessage now e) past /\ closes_call e = true
    /\ d = round_seconds (now - start).

(** What holds of a handler after the inputs [past]. *)
Definition completion_inv (start : Z) (h : VoiceHandler) (past : list input) : Prop :=
  startTime h = start
  /\ (forall d, In d (completions h) -> closing_at start past d)
  /\ (forall r, settled h = Some (Resolved r) ->
                result_status r = completed /\ closing_at start past (duration r)).

Lemma closing_at_more (start : Z) (past : list input) (i : input) (d : Z) :
  closing_at start past d -> closing_at start (past ++ [i]) d.
Proof.
  intros (now & e & Hin & Hc & Hd). exists now, e. split; [|auto].
  apply in_or_app. left. exact Hin.
Qed.

Lemma In_remove_at {A : Type} (l : list A) (k : nat) (x : A) :
  In x (remove_at l k) -> In x l.
Proof.
  revert k; induction l as [|y l IH]; intros [|k]; simpl; auto.
  intros [H|H]; [left; exact H | right; eapply IH; exact H].
Qed.

Lemma completion_inv_weaken (start : Z) (h h' : VoiceHandler) (past : list input) (i : input) :
  completion_inv start h past ->
  startTime h' = startTime h ->
  (forall d, In d (completions h') -> In d (completions h)) ->
  (forall r, settled h' = Some (Resolved r) -> settled h = Some (Resolved r)) ->
  completion_inv start h' (past ++ [i]).
Proof.
  intros (Hs & Hc & Hr) Hs' Hc' Hr'. split; [congruence|]. split.
  - intros d Hd. apply closing_at_more. apply Hc, Hc', Hd.
  - intros r Hres. destruct (Hr r (Hr' r Hres)) as [H1 H2].
    split; [exact H1 | apply closing_at_more; exact H2].
Qed.

Lemma settle_rejected (h : VoiceHandler) (m : string) (r : CallResult) :
  settled (settle h (Rejected m)) = Some (Resolved r) -> settled h = Some (Resolved r).
Proof. unfold settle. simpl. destruct (settled h); [auto | discriminate]. Qed.

Lemma step_completion_inv (start : Z) (h : VoiceHandler) (past : list input) (i : input) :
  completion_inv start h past -> completion_inv start (step h i) (past ++ [i]).
Proof.
  intros Hinv.
  destruct i as [| | m | | now e | m | k]; cbn [step].
  - eapply completion_inv_weaken; eauto.
  - destruct (negb (isComplete (cleanup h))).
    + eapply completion_inv_weaken; eauto. intros r Hr. apply settle_rejected in Hr. exact Hr.
    + eapply completion_inv_weaken; eauto.
  - eapply completion_inv_weaken; eauto. intros r Hr. apply settle_rejected in Hr. exact Hr.
  - destruct (negb (isComplete h)).
    + eapply completion_inv_weaken; eauto. intros r Hr. apply settle_rejected in Hr. exact Hr.
    + eapply completion_inv_weaken; eauto.
  - destruct e as [t | [output|] | m |]; cbn [handleOpenAIEvent].
    + eapply completion_inv_weaken; eauto.
    + pose proof (eq_refl : closes_call (ResponseDone (Some output))
                            = closes_call (ResponseDone (Some output))) as Hcl.
      unfold closes_call at 2 in Hcl.
      destruct (Nat.ltb 0 (List.length output)); [|eapply completion_inv_weaken; eauto].
      destruct (Js.truthy (assistantText output)
                && (Js.includes (Js.toLowerCase (assistantText output))
                      "i'll relay this to claude"
                    || Js.includes (Js.toLowerCase (assistantText output)) "thank you"))%bool;
        [|eapply completion_inv_weaken; eauto].
      destruct Hinv as (Hs & Hc & Hr). split; [exact Hs|]. split.
      * intros d Hd. simpl in Hd. apply in_app_or in Hd as [Hd|[<-|[]]].
        -- apply closing_at_more. apply Hc. exact Hd.
        -- exists now, (ResponseDone (Some output)). rewrite Hs. split; [|auto].
           apply in_or_app. right. left. reflexivity.
      * intros r Hres. destruct (Hr r Hres) as [H1 H2].
        split; [exact H1 | apply closing_at_more; exact H2].
    + eapply completion_inv_weaken; eauto.
    + eapply completion_inv_weaken; eauto. intros r Hr. apply settle_rejected in Hr. exact Hr.
    + eapply completion_inv_weaken; eauto.
  - eapply completion_inv_weaken; eauto. intros r Hr. apply settle_rejected in Hr. exact Hr.
  - destruct (nth_error (completions h) k) as [d|] eqn:Ek;
      [|eapply completion_inv_weaken; eauto].
    destruct Hinv as (Hs & Hc & Hr). split; [exact Hs|]. split.
    + intros d' Hd'. simpl in Hd'. apply closing_at_more. apply Hc.
      eapply In_remove_at. exact Hd'.
    + intros r Hres. unfold completion_timer, settle in Hres. simpl in Hres.
      destruct (settled h) as [o|] eqn:Eo.
      * injection Hres as ->. destruct (Hr r eq_refl) as [H1 H2].
        split; [exact H1 | apply closing_at_more; exact H2].
      * injection Hres as <-. simpl. split; [reflexivity|].
        apply closing_at_more. apply Hc. eapply nth_error_In. exact Ek.
Qed.

Lemma run_completion_inv (start : Z) (inputs : list input) (h : VoiceHandler)
    (past : list input) :
  completion_inv start h past -> completion_inv start (run h inputs) (past ++ inputs).
Proof.
  revert h past; induction inputs as [|i inputs IH]; intros h past Hinv; simpl.
  - rewrite app_nil_r. exact Hinv.
  - replace (past ++ i :: inputs)%list with ((past ++ [i]) ++ inputs)%list
      by (rewrite <- app_assoc; reflexivity).
    apply IH. apply step_completion_inv. exact Hinv.
Qed.

(** [makePhoneCall] resolves only after a closing response: when it
    resolves, some 'response.done' among the inputs carried an assistant
    text with "thank you" or "i'll relay this to claude" (in any letter
    case), and the duration reported is the time from the creation of
    the handler to the handling of that response, rounded to seconds,
    not the time to the resolution two seconds later. *)
Theorem resolves_only_after_closing_phrase :
  forall (start : Z) (inputs : list input) (r : CallResult),
    makePhoneCall start inputs = Some (Resolved r) ->
    result_status r = completed
    /\ exists now output,
         In (OpenAIMessage now (ResponseDone (Some output))) inputs
         /\ (Js.includes (Js.toLowerCase (assistantText output)) "i'll relay this to claude"
             = true
             \/ Js.includes (Js.toLowerCase (assistantText output)) "thank you" = true)
         /\ duration r = round_seconds (now - start).
Proof.
  intros start inputs r H. unfold makePhoneCall in H.
  assert (Hinv : completion_inv start (new_handler start) []).
  { split; [reflexivity|]. split; [intros d [] | intros r' Hr'; discriminate]. }
  apply (run_completion_inv start inputs) in Hinv. simpl in Hinv.
  destruct Hinv as (_ & _ & Hr). destruct (Hr r H) as [Hst (now & e & Hin & Hc & Hd)].
  split; [exact Hst|].
  destruct e as [t | [output|] | m |]; try discriminate.
  exists now, output. split; [exact Hin|]. split; [|exact Hd].
  simpl in Hc. apply andb_prop in Hc as [_ Hc]. apply andb_prop in Hc as [_ Hc].
  apply orb_prop in Hc. exact Hc.
Qed.

Lemma resolves_only_after_closing_phrase_witness :
  result_status (completed_result ["use postgres"; "yes"] 9) = completed
  /\ exists now output,
       In (OpenAIMessage now (ResponseDone (Some output))) two_answers
       /\ (Js.includes (Js.toLowerCase (assistantText output)) "i'll relay this to claude"
           = true
           \/ Js.includes (Js.toLowerCase (assistantText output)) "thank you" = true)
       /\ duration (completed_result ["use postgres"; "yes"] 9) = round_seconds (now - 0).
Proof.
  apply (resolves_only_after_closing_phrase 0 two_answers).
  vm_compute. reflexivity.
Defined.

End PhoneCallCompletion.

(* ===================================================================== *)
(** * server/src/stripe.ts: the webhook *)
(* ===================================================================== *)

Module StripeWebhook.

Local Open Scope string_scope.

Record SubscriptionConfig : Type := {
  secretKey : string;
  webhookSecret : string;
  priceId : string;
  monthlyMinutes : Billing.num;
  monthlyPriceCents : Billing.num
}.

(** The two module-level variables: whether [stripe] is there, and
    [config]. *)
Record module_state : Type := {
  stripe : bool;
  config : option SubscriptionConfig
}.

Definition initial_state : module_state := {| stripe := false; config := None |}.

Definition initStripe (stripeConfig : SubscriptionConfig) : module_state :=
  {| stripe := true; config := Some stripeConfig |}.

Definition isStripeEnabled (st : module_state) : bool := stripe st.

(** [config?.monthlyMinutes || 60]. *)
Definition getMonthlyMinutes (st : module_state) : Billing.num :=
  Providers.num_or (option_map monthlyMinutes (config st)) (Billing.Int 60).

(** The fields of the Stripe objects that the handler reads.  Times are
    in seconds, as Stripe sends them. *)
Record Subscription : Type := {
  sub_id : string;
  customer : string;
  status : string;
  current_period_start : Z;
  current_period_end : Z
}.

Record Invoice : Type := {
  subscription : option string;
  period_start : Z;
  period_end : Z
}.

Inductive event : Type :=
| SubscriptionCreated (s : Subscription)     (* 'customer.subscription.created' *)
| SubscriptionUpdated (s : Subscription)     (* 'customer.subscription.updated' *)
| SubscriptionDeleted (s : Subscription)     (* 'customer.subscription.deleted' *)
| InvoicePaid (i : Invoice)                  (* 'invoice.paid' *)
| OtherEvent.

(** The calls into database.js that change a user; dates in
    milliseconds. *)
Inductive write : Type :=
| UpdateUserSubscription (userId subscriptionId status : string) (periodStart periodEnd : Z)
| CancelUserSubscription (userId : string)
| ResetUserMinutes (userId : string) (periodStart periodEnd : Z).

Inductive thrown : Type :=
| NotInitialized              (* 'Stripe not initialized' *)
| NoWebhookSecret             (* 'Webhook secret not configured' *)
| SignatureRejected.          (* thrown by [stripe.webhooks.constructEvent] *)

Inductive result : Type :=
| Throws (e : thrown)
| Done (writes : list write).

Definition written_user (w : write) : string :=
  match w with
  | UpdateUserSubscription u _ _ _ _ => u
  | CancelUserSubscription u => u
  | ResetUserMinutes u _ _ => u
  end.

Section Handler.

(** What the handler is given by the Stripe library and by
    database.js: the verification of a payload against a signature and
    a secret ([None] when it throws), and the two look-ups of a user's
    id ([None] for no user). *)
Variable constructEvent : string -> string -> string -> option event.
Variable getUserByStripeCustomerId : string -> option string.
Variable getUserByStripeSubscriptionId : string -> option string.

Definition subscription_status (s : Subscription) : string :=
  if status s =? "active" then "active"
  else if status s =? "canceled" then "cancelled"
  else "none".

Definition handleSubscriptionUpdate (s : Subscription) : list write :=
  match getUserByStripeCustomerId (customer s) with
  | None => []
  | Some userId =>
      [UpdateUserSubscription userId (sub_id s) (subscription_status s)
         (current_period_start s * 1000) (current_period_end s * 1000)]
  end.

Definition handleEvent (ev : event) : list write :=
  match ev with
  | SubscriptionCreated s | SubscriptionUpdated s => handleSubscriptionUpdate s
  | SubscriptionDeleted s =>
      match getUserByStripeSubscriptionId (sub_id s) with
      | Some userId => [CancelUserSubscription userId]
      | None => []
      end
  | InvoicePaid i =>
      match subscription i with
      | Some subscriptionId =>
          if Js.truthy subscriptionId then
            match getUserByStripeSubscriptionId subscriptionId with
            | Some userId =>
                if (negb (period_start i =? 0)%Z && negb (period_end i =? 0)%Z)%bool
                then [ResetUserMinutes userId (period_start i * 1000) (period_end i * 1000)]
                else []
            | None => []
            end
          else []
      | None => []
      end
  | OtherEvent => []
  end.

Definition handleWebhook (st : module_state) (payload signature : string) : result :=
  if negb (stripe st) then Throws NotInitialized
  else
    match config st with
    | None => Throws NoWebhookSecret
    | Some c =>
        if negb (Js.truthy (webhookSecret c)) then Throws NoWebhookSecret
        else
          match constructEvent payload signature (webhookSecret c) with
          | None => Throws SignatureRejected
          | Some ev => Done (handleEvent ev)
          end
    end.

(** The users an event may touch: the one found for its customer or
    for its subscription. *)
Definition event_user (ev : event) : option string :=
  match ev with
  | SubscriptionCreated s | SubscriptionUpdated s => getUserByStripeCustomerId (customer s)
  | SubscriptionDeleted s => getUserByStripeSubscriptionId (sub_id s)
  | InvoicePaid i =>
      match subscription i with
      | Some subscriptionId => getUserByStripeSubscriptionId subscriptionId
      | None => None
      end
  | OtherEvent => None
  end.

Lemma handleEvent_writes (ev : event) (w : write) :
  In w (handleEvent ev) -> handleEvent ev = [w] /\ event_user ev = Some (written_user w).
Proof.
  destruct ev as [s|s|s|i|]; simpl; unfold handleSubscriptionUpdate.
  - destruct (getUserByStripeCustomerId (customer s)); simpl;
      [intros [<-|[]]; auto | intros []].
  - destruct (getUserByStripeCustomerId (customer s)); simpl;
      [intros [<-|[]]; auto | intros []].
  - destruct (getUserByStripeSubscriptionId (sub_id s)); simpl;
      [intros [<-|[]]; auto | intros []].
  - destruct (subscription i) as [sid|]; [|intros []].
    destruct (Js.truthy sid); [|intros []].
    destruct (getUserByStripeSubscriptionId sid); [|intros []].
    destruct (negb _ && negb _)%bool; simpl; [intros [<-|[]]; auto | intros []].
  - intros [].
Qed.

(** The webhook changes a user only for a verified event: when it does
    any database write, Stripe was initialised, a non-empty webhook
    secret was configured, and [constructEvent] accepted the payload
    with the signature and that secret.  It then makes exactly one
    write, on the user that the look-up finds for the event's customer
    or subscription. *)
Theorem webhook_writes_only_for_verified_event :
  forall (st : module_state) (payload signature : string) (writes : list write) (w : write),
    handleWebhook st payload signature = Done writes ->
    In w writes ->
    isStripeEnabled st = true
    /\ exists c ev,
         config st = Some c
         /\ webhookSecret c <> ""
         /\ constructEvent payload signature (webhookSecret c) = Some ev
         /\ writes = [w]
         /\ event_user ev = Some (written_user w).
Proof.
  intros st payload signature writes w H Hin. unfold handleWebhook, isStripeEnabled in *.
  destruct (stripe st); [|discriminate]. split; [reflexivity|].
  destruct (config st) as [c|]; [|discriminate].
  destruct (Js.truthy (webhookSecret c)) eqn:Hs; [|discriminate]. simpl in H.
  destruct (constructEvent payload signature (webhookSecret c)) as [ev|] eqn:Hev;
    [|discriminate].
  injection H as <-. destruct (handleEvent_writes ev w Hin) as [Hw Hu].
  exists c, ev. repeat split; auto.
  intros Heq. rewrite Heq in Hs. discriminate.
Qed.

End Handler.

(** A verification that accepts one payload with one signature and one
    secret. *)
Definition verify_one (payload signature secret : string) : option event :=
  if ((payload =? "evt-1") && (signature =? "sig-1") && (secret =? "whsec-1"))%bool
  then Some (SubscriptionDeleted
               {| sub_id := "sub-1"; customer := "cus-1"; status := "canceled";
                  current_period_start := 0; current_period_end := 0 |})
  else None.

Definition one_user (key : string) : option string :=
  if (key =? "sub-1") || (key =? "cus-1") then Some "user-1" else None.

Definition configured : module_state :=
  initStripe {| secretKey := "sk-1"; webhookSecret := "whsec-1"; priceId := "price-1";
                monthlyMinutes := Billing.Int 60; monthlyPriceCents := Billing.Int 2000 |}.

Lemma webhook_writes_only_for_verified_event_witness :
  isStripeEnabled configured = true
  /\ exists c ev,
       config configured = Some c
       /\ webhookSecret c <> ""
       /\ verify_one "evt-1" "sig-1" (webhookSecret c) = Some ev
       /\ [CancelUserSubscription "user-1"] = [CancelUserSubscription "user-1"]
       /\ event_user one_user one_user ev
          = Some (written_user (CancelUserSubscription "user-1")).
Proof.
  apply (webhook_writes_only_for_verified_event verify_one one_user one_user
           configured "evt-1" "sig-1" [CancelUserSubscription "user-1"]
           (CancelUserSubscription "user-1")).
  - reflexivity.
  - left. reflexivity.
Defined.

Example webhook_bad_signature :
  handleWebhook verify_one one_user one_user configured "evt-1" "forged" = Throws SignatureRejected
  /\ handleWebhook verify_one one_user one_user initial_state "evt-1" "sig-1"
     = Throws NotInitialized.
Proof. split; reflexivity. Qed.

End StripeWebhook.

(* ===================================================================== *)
(** * server/src/providers/tts-openai.ts: the canonical WAV *)
(* ===================================================================== *)

Module TtsOpenAIWav.

Import TtsOpenAI.

Lemma synthesize_wav44_witness :
  readUInt16LE (wav44 2 22050 pcm_stereo) 22 = 2
  /\ synthesize lemonfox (wav44 2 22050 pcm_stereo)
     = Returns (set_sampleRate lemonfox 22050) pcm_stereo.
Proof.
  apply (synthesize_wav44 lemonfox 2 22050 pcm_stereo).
  - reflexivity.
  - reflexivity.
  - discriminate.
  - lia.
  - lia.
Defined.

End TtsOpenAIWav.
